(** * Verification of the hackapizza agent: market matcher, buy rounds,
    bid planning, strategy quantities and the phase orchestrator.

    Python floats are modelled as exact rationals [Q], Python ints as [Z],
    Python dicts (insertion ordered) as association lists. *)

From Stdlib Require Import ZArith QArith Qround List String Ascii Bool Lia Lqa.
From Stdlib Require Import Permutation Sorted.
Import ListNotations.
Open Scope string_scope.
Open Scope list_scope.
Open Scope Z_scope.

(** ** Python dictionaries as insertion-ordered association lists *)
Module Dict.

Definition t (V : Type) := list (string * V).

(** [d.get(k, dflt)] *)
Fixpoint get {V} (d : t V) (k : string) (dflt : V) : V :=
  match d with
  | [] => dflt
  | (k', v) :: r => if String.eqb k k' then v else get r k dflt
  end.

(** [d.get(k)], [None] when the key is absent. *)
Fixpoint find {V} (d : t V) (k : string) : option V :=
  match d with
  | [] => None
  | (k', v) :: r => if String.eqb k k' then Some v else find r k
  end.

(** [k in d] *)
Fixpoint mem {V} (d : t V) (k : string) : bool :=
  match d with
  | [] => false
  | (k', _) :: r => if String.eqb k k' then true else mem r k
  end.

(** [d[k] = v]: updates in place, or appends a new key at the end. *)
Fixpoint set {V} (d : t V) (k : string) (v : V) : t V :=
  match d with
  | [] => [(k, v)]
  | (k', v') :: r => if String.eqb k k' then (k', v) :: r else (k', v') :: set r k v
  end.

End Dict.

(** Python's [int(x)] on a float: truncation towards zero. *)
Definition py_int (x : Q) : Z :=
  if Qle_bool 0 x then Qfloor x else - Qfloor (- x).

Definition Qltb (x y : Q) : bool := negb (Qle_bool y x).

(** ** Market entries (order-book lots) *)
Record entry := mkEntry {
  e_id : Z;
  e_side : string;          (* "side": "BUY" | "SELL" *)
  e_ingredient : string;    (* "ingredient_name" *)
  e_quantity : Z;           (* int(entry["quantity"]) *)
  e_price : Q               (* float(entry["price"]) *)
}.

Definition entry_cost (e : entry) : Q := e_price e * inject_Z (e_quantity e).

Fixpoint cost_sum (l : list entry) : Q :=
  match l with
  | [] => 0
  | e :: r => entry_cost e + cost_sum r
  end%Q.

(** [list.sort(key=lambda e: float(e["price"]))]: a stable insertion sort. *)
Fixpoint insert_by_price (e : entry) (l : list entry) : list entry :=
  match l with
  | [] => [e]
  | x :: r => if Qltb (e_price e) (e_price x) then e :: x :: r
              else x :: insert_by_price e r
  end.

Definition sort_by_price (l : list entry) : list entry :=
  fold_left (fun acc e => insert_by_price e acc) l [].

(** The grouping loop: [sell_by_ing[ing].append(entry)] for every SELL entry
    with a non-empty ingredient name. *)
Definition group_sells (market : list entry) : Dict.t (list entry) :=
  fold_left
    (fun (d : Dict.t (list entry)) e =>
       if negb (String.eqb (e_side e) "SELL") then d
       else if String.eqb (e_ingredient e) "" then d
       else Dict.set d (e_ingredient e) (Dict.get d (e_ingredient e) [] ++ [e]))
    market [].

(** [for ing in sell_by_ing: sell_by_ing[ing].sort(...)] *)
Definition sell_by_ing (market : list entry) : Dict.t (list entry) :=
  map (fun '(k, l) => (k, sort_by_price l)) (group_sells market).

(** ** hackapizza/market_agent.py *)
Module Market.

Definition MAX_PRICE_PER_UNIT : Q := 80.
Definition BUDGET_FRACTION : Q := 7 # 10.
Definition MAX_BUY_ROUNDS : nat := 5.

(** [compute_missing(target_recipes, inventory, copies_target)]; a recipe is
    its ingredient dict. *)
Definition compute_missing (target_recipes : list (Dict.t Z))
  (inventory : Dict.t Z) (copies_target : Z) : Dict.t Z :=
  fold_left
    (fun missing recipe =>
       fold_left
         (fun missing '(ing, qty_per_copy) =>
            let total_needed := qty_per_copy * copies_target in
            let have := Dict.get inventory ing 0 in
            if have <? total_needed
            then Dict.set missing ing (Z.max (Dict.get missing ing 0) (total_needed - have))
            else missing)
         recipe missing)
    target_recipes [].

(** Inner loop of [find_best_entries] over the sorted lots of one ingredient;
    the state is [(spent, to_buy)]. *)
Fixpoint take_lots (budget : Q) (entries : list entry) (qty_left : Z)
  (spent : Q) (to_buy : list entry) : Q * list entry :=
  match entries with
  | [] => (spent, to_buy)
  | e :: rest =>
      if qty_left <=? 0 then (spent, to_buy)
      else if Qltb MAX_PRICE_PER_UNIT (e_price e)
      then take_lots budget rest qty_left spent to_buy
      else
        let cost := entry_cost e in
        if Qltb budget (spent + cost)
        then take_lots budget rest qty_left spent to_buy
        else take_lots budget rest (qty_left - e_quantity e) (spent + cost) (to_buy ++ [e])
  end.

(** [find_best_entries(missing, market, budget)], together with the final
    value of its local [spent]. *)
Definition find_best_entries_st (missing : Dict.t Z) (market : list entry)
  (budget : Q) : Q * list entry :=
  let groups := sell_by_ing market in
  fold_left
    (fun '(spent, to_buy) '(ing, qty_needed) =>
       match Dict.get groups ing [] with
       | [] => (spent, to_buy)
       | entries => take_lots budget entries qty_needed spent to_buy
       end)
    missing (0%Q, []).

Definition find_best_entries (missing : Dict.t Z) (market : list entry)
  (budget : Q) : list entry :=
  snd (find_best_entries_st missing market budget).

(** State of the buy loop of [run_market_agent]: the Python locals
    [to_buy], [virtual_inv], [budget], [purchased_all], plus [round_log],
    which records for every round that fetched the market its number and
    its [bought_this_round]. *)
Record buy_state := mkBuyState {
  to_buy : Dict.t Z;
  virtual_inv : Dict.t Z;
  budget : Q;
  purchased_all : list entry;
  round_log : list (nat * list entry)
}.

(** [if to_buy[ing] <= 0: to_buy[ing] = 0] *)
Definition clamp0 (d : Dict.t Z) (ing : string) : Dict.t Z :=
  if Dict.get d ing 0 <=? 0 then Dict.set d ing 0 else d.

(** One iteration of [for entry in buy_list]; [ok] says whether
    [client.execute_transaction(entry_id)] succeeded.  The accumulator is
    [(to_buy, virtual_inv, budget, bought_this_round)]. *)
Definition process_entry (dry_run ok : bool) (acc : Dict.t Z * Dict.t Z * Q * list entry)
  (e : entry) : Dict.t Z * Dict.t Z * Q * list entry :=
  let '(tb, vinv, bud, bought) := acc in
  let ing := e_ingredient e in
  if Dict.get tb ing 0 <=? 0 then acc
  else
    let price := e_price e in
    let qty_entry := e_quantity e in
    if dry_run then
      let qty_act := Z.min qty_entry (Dict.get tb ing 0) in
      let tb := clamp0 (Dict.set tb ing (Dict.get tb ing 0 - qty_act)) ing in
      (tb, vinv, (bud - price * inject_Z qty_entry)%Q, bought ++ [e])
    else if ok then
      let vinv := Dict.set vinv ing (Dict.get vinv ing 0 + qty_entry) in
      let tb := clamp0 (Dict.set tb ing (Dict.get tb ing 0 - qty_entry)) ing in
      (tb, vinv, (bud - price * inject_Z qty_entry)%Q, bought ++ [e])
    else acc.

Inductive round_outcome :=
| Stop (s : buy_state)      (* the loop executes [break] or returns *)
| Continue (s : buy_state). (* the loop goes on to the next round *)

(** The body of [for round_num in range(1, MAX_BUY_ROUNDS + 1)].
    [markets r] is the order book fetched in round [r]; [exec_ok r e] is the
    outcome of the transaction for lot [e] in round [r]. *)
Definition buy_round (dry_run : bool) (markets : nat -> list entry)
  (exec_ok : nat -> entry -> bool) (r : nat) (s : buy_state) : round_outcome :=
  match to_buy s with
  | [] => Stop s
  | _ =>
    let market := markets r in
    let buy_list := find_best_entries (to_buy s) market (budget s) in
    match buy_list with
    | [] => Stop (mkBuyState (to_buy s) (virtual_inv s) (budget s)
                   (purchased_all s) (round_log s ++ [(r, [])]))
    | _ =>
      let '(tb, vinv, bud, bought) :=
        fold_left (fun acc e => process_entry dry_run (exec_ok r e) acc e)
          buy_list (to_buy s, virtual_inv s, budget s, []) in
      let s' := mkBuyState tb vinv bud (purchased_all s ++ bought)
                  (round_log s ++ [(r, bought)]) in
      match bought with
      | [] => Stop s'
      | _ => if Qle_bool bud 1 then Stop s' else Continue s'
      end
    end
  end.

Fixpoint buy_rounds (dry_run : bool) (markets : nat -> list entry)
  (exec_ok : nat -> entry -> bool) (rounds : list nat) (s : buy_state) : buy_state :=
  match rounds with
  | [] => s
  | r :: rs =>
    match buy_round dry_run markets exec_ok r s with
    | Stop s' => s'
    | Continue s' => buy_rounds dry_run markets exec_ok rs s'
    end
  end.

(** Step 3 of [run_market_agent]: [budget = balance * BUDGET_FRACTION], then
    the buy loop over [range(1, MAX_BUY_ROUNDS + 1)], starting from the
    wish-list [to_buy] computed in step 1. *)
Definition run_buy_loop (dry_run : bool) (markets : nat -> list entry)
  (exec_ok : nat -> entry -> bool) (to_buy0 virtual_inv0 : Dict.t Z)
  (balance : Q) : buy_state :=
  let s0 := mkBuyState to_buy0 virtual_inv0 (balance * BUDGET_FRACTION)%Q [] [] in
  match to_buy0 with
  | [] => s0
  | _ => buy_rounds dry_run markets exec_ok (seq 1 MAX_BUY_ROUNDS) s0
  end.

(** Cumulative spend of a prefix of the round log. *)
Definition cum_spend (log : list (nat * list entry)) : Q :=
  cost_sum (List.concat (map snd log)).

End Market.

(** ** src/market_agent.py: the earlier matcher, used by src/orchestrator.py *)
Module Legacy.

Definition MAX_PRICE_PER_UNIT : Q := 80.
Definition BUDGET_FRACTION : Q := 7 # 10.

(** Inner loop of this [find_best_entries]: the cost counted for a lot is
    [price * min(entry_qty, qty_left)]. *)
Fixpoint take_lots (budget : Q) (entries : list entry) (qty_left : Z)
  (spent : Q) (to_buy : list entry) : Q * list entry :=
  match entries with
  | [] => (spent, to_buy)
  | e :: rest =>
      if qty_left <=? 0 then (spent, to_buy)
      else if Qltb MAX_PRICE_PER_UNIT (e_price e)
      then take_lots budget rest qty_left spent to_buy
      else
        let cost := (e_price e * inject_Z (Z.min (e_quantity e) qty_left))%Q in
        if Qltb budget (spent + cost)
        then take_lots budget rest qty_left spent to_buy
        else take_lots budget rest (qty_left - e_quantity e) (spent + cost) (to_buy ++ [e])
  end.

(** [find_best_entries(missing, market, balance)] with its final [spent]. *)
Definition find_best_entries_st (missing : Dict.t Z) (market : list entry)
  (balance : Q) : Q * list entry :=
  let budget := (balance * BUDGET_FRACTION)%Q in
  let groups := sell_by_ing market in
  fold_left
    (fun '(spent, to_buy) '(ing, qty_needed) =>
       match Dict.get groups ing [] with
       | [] => (spent, to_buy)
       | entries => take_lots budget entries qty_needed spent to_buy
       end)
    missing (0%Q, []).

End Legacy.

(** ** hackapizza/strategy_agent.py: [build_ingredient_quantities] *)
Module Strategy.

(** Loop over the focus recipe's ingredients; the state is
    [(quantities, focus_ings_ordered)]. *)
Definition focus_step (inventory : Dict.t Z) (copies_target : Z)
  (st : Dict.t Z * list string) (p : string * Z) : Dict.t Z * list string :=
  let '(quantities, focus_ings) := st in
  let '(ing, qty_per_copy) := p in
  let total_needed := qty_per_copy * copies_target in
  let to_buy := Z.max 0 (total_needed - Dict.get inventory ing 0) in
  if 0 <? to_buy then (Dict.set quantities ing to_buy, focus_ings ++ [ing])
  else st.

(** Loop over the backup recipe's ingredients; the state is
    [(quantities, backup_ings_ordered)]. *)
Definition backup_step (inventory : Dict.t Z) (backup_copies : Z)
  (focus_ings : list string)
  (st : Dict.t Z * list string) (p : string * Z) : Dict.t Z * list string :=
  let '(quantities, backup_ings) := st in
  let '(ing, qty_per_copy) := p in
  let total_needed := qty_per_copy * backup_copies in
  let to_buy := Z.max 0 (total_needed - Dict.get inventory ing 0 - Dict.get quantities ing 0) in
  if 0 <? to_buy then
    (Dict.set quantities ing (Dict.get quantities ing 0 + to_buy),
     if existsb (String.eqb ing) focus_ings then backup_ings else backup_ings ++ [ing])
  else st.

(** [build_ingredient_quantities(focus_recipe, backup_recipe, inventory,
    copies_target)]; recipes are given by their ingredient dicts, and a
    missing backup recipe is [None] (a recipe dict, having a name, is
    truthy). Returns [(quantities, target_ings, primary_count)]. *)
Definition build_ingredient_quantities (focus_recipe : Dict.t Z)
  (backup_recipe : option (Dict.t Z)) (inventory : Dict.t Z) (copies_target : Z)
  : Dict.t Z * list string * nat :=
  let '(quantities, focus_ings) :=
    fold_left (focus_step inventory copies_target) focus_recipe ([], []) in
  let primary_count := List.length focus_ings in
  let '(quantities, backup_ings) :=
    match backup_recipe with
    | Some backup =>
        let backup_copies := Z.max 1 (copies_target - 1) in
        fold_left (backup_step inventory backup_copies focus_ings) backup (quantities, [])
    | None => (quantities, [])
    end in
  (quantities, focus_ings ++ backup_ings, primary_count).

End Strategy.

(** ** hackapizza/bid_agent.py *)
Module Bid.

Definition MAX_BUDGET : Q := 100000.
Definition BUDGET_FRACTION : Q := 1 # 5.
Definition MAX_COPIES_TO_STOCK : Z := 2.
Definition MAX_SCALE : Z := 1.
Definition MAX_INGREDIENTS : nat := 20.
Definition DEFAULT_BID : Z := 20.
Definition OPPORTUNISTIC_BID : Z := 2.
Definition OPPORTUNISTIC_QTY : Z := 3.

(** A bid [{"ingredient", "quantity", "bid"}]. *)
Record bid := mkBid { b_ingredient : string; b_quantity : Z; b_bid : Z }.

(** A recipe as returned by the server. *)
Record recipe := mkRecipe {
  r_name : string; r_prestige : Z; r_ingredients : Dict.t Z }.

(** Python's [x / y] on numbers: [None] stands for [ZeroDivisionError]. *)
Definition py_div (x y : Q) : option Q :=
  if Qeq_bool y 0 then None else Some (x / y)%Q.

(** Python's [min(a, b)]: [a] unless [b < a]. *)
Definition py_min (a b : Q) : Q := if Qltb b a then b else a.

(** Python's [x // y] on floats. *)
Definition py_floordiv (x y : Q) : option Q :=
  if Qeq_bool y 0 then None else Some (inject_Z (Qfloor (x / y)))%Q.

(** [hint = price_hints.get(ing)] followed by [if hint]: a missing or zero
    hint is falsy. *)
Definition hint_of (price_hints : Dict.t Q) (ing : string) : option Q :=
  match Dict.find price_hints ing with
  | Some h => if Qeq_bool h 0 then None else Some h
  | None => None
  end.

(** [max(1, int(hint * 1.05))] *)
Definition hinted_bid (h : Q) : Z := Z.max 1 (py_int (h * (105 # 100))).

(** [max(1, int(hint * 1.05)) if hint else DEFAULT_BID] *)
Definition unit_bid (price_hints : Dict.t Q) (ing : string) : Z :=
  match hint_of price_hints ing with
  | Some h => hinted_bid h
  | None => DEFAULT_BID
  end.

(** [str.strip()] on ASCII whitespace. *)
Definition is_ws (c : ascii) : bool :=
  match nat_of_ascii c with
  | 9 | 10 | 11 | 12 | 13 | 32 => true
  | _ => false
  end%nat.

Fixpoint lstrip (l : list ascii) : list ascii :=
  match l with
  | [] => []
  | c :: r => if is_ws c then lstrip r else l
  end.

Definition strip (s : string) : string :=
  string_of_list_ascii (rev (lstrip (rev (lstrip (list_ascii_of_string s))))).

(** [_load_all_ingredients()]: [None] when the file does not exist,
    otherwise its [splitlines()]. *)
Definition load_all_ingredients (file : option (list string)) : list string :=
  match file with
  | None => []
  | Some lines => filter (fun l => negb (String.eqb l "")) (map strip lines)
  end.

(** [_add_opportunistic_bids(main_bids, all_ingredients)] *)
Definition add_opportunistic_bids (main_bids : list bid) (all_ingredients : list string)
  : list bid :=
  let already_bidding := map b_ingredient main_bids in
  main_bids ++
  map (fun ing => mkBid ing OPPORTUNISTIC_QTY OPPORTUNISTIC_BID)
      (filter (fun ing => negb (existsb (String.eqb ing) already_bidding)) all_ingredients).

(** [sum(...)] over a dict, each term possibly raising. *)
Definition opt_sum (f : string * Z -> option Q) (l : Dict.t Z) : option Q :=
  fold_left (fun acc p => match acc, f p with
                          | Some a, Some x => Some (a + x)%Q
                          | _, _ => None
                          end) l (Some 0%Q).

(** [_budget_scale_quantities(ingredient_quantities, copies_target, balance,
    price_hints)] *)
Definition budget_scale_quantities (ingredient_quantities : Dict.t Z)
  (copies_target : Z) (balance : Q) (price_hints : Dict.t Q) : option (Dict.t Z) :=
  if (copies_target <=? 0) || (match ingredient_quantities with [] => true | _ => false end)
  then Some ingredient_quantities
  else
    match opt_sum (fun '(ing, qty) =>
             match py_div (inject_Z qty) (inject_Z copies_target) with
             | Some x => Some (x * inject_Z (unit_bid price_hints ing))%Q
             | None => None
             end) ingredient_quantities with
    | None => None
    | Some cost_per_copy =>
      if Qle_bool cost_per_copy 0 then Some ingredient_quantities
      else
        let demand_cap := MAX_COPIES_TO_STOCK / copies_target in
        let budget_cap :=
          if Qltb 0 cost_per_copy then
            match py_div (balance * BUDGET_FRACTION) (cost_per_copy * inject_Z copies_target) with
            | Some x => Some (py_int x)
            | None => None
            end
          else Some MAX_SCALE in
        match budget_cap with
        | None => None
        | Some budget_cap =>
          let scale := Z.max 1 (Z.min (Z.min demand_cap budget_cap) MAX_SCALE) in
          if scale <=? 1 then Some ingredient_quantities
          else Some (map (fun '(ing, qty) => (ing, qty * scale)) ingredient_quantities)
        end
    end.

(** [build_bids_legacy(ingredients, balance, primary_count, price_hints)] *)
Definition build_bids_legacy (ingredients : list string) (balance : Q)
  (primary_count : Z) (price_hints : Dict.t Q) : option (list bid) :=
  if (match ingredients with [] => true | _ => false end) || Qle_bool balance 0
  then Some []
  else
    let budget := py_min MAX_BUDGET (balance * BUDGET_FRACTION)%Q in
    let chosen := firstn MAX_INGREDIENTS ingredients in
    let n_primary := Z.min primary_count (Z.of_nat (List.length chosen)) in
    let bid_for ing budget_share :=
      mkBid ing 1 (match hint_of price_hints ing with
                   | Some h => hinted_bid h
                   | None => Z.max DEFAULT_BID (py_int budget_share)
                   end) in
    if 0 <? n_primary then
      let primary := firstn (Z.to_nat n_primary) chosen in
      let secondary := skipn (Z.to_nat n_primary) chosen in
      match py_div (budget * (70 # 100)) (inject_Z n_primary) with
      | None => None
      | Some per_primary =>
        let bids := map (fun ing => bid_for ing per_primary) primary in
        match secondary with
        | [] => Some bids
        | _ =>
          match py_div (budget * (30 # 100)) (inject_Z (Z.of_nat (List.length secondary))) with
          | None => None
          | Some per_secondary => Some (bids ++ map (fun ing => bid_for ing per_secondary) secondary)
          end
        end
      end
    else
      match py_div budget (inject_Z (Z.of_nat (List.length chosen))) with
      | None => None
      | Some per_ing => Some (map (fun ing => bid_for ing per_ing) chosen)
      end.

(** [build_bids_from_quantities(ingredient_quantities, price_hints)] *)
Definition build_bids_from_quantities (ingredient_quantities : Dict.t Z)
  (price_hints : Dict.t Q) : list bid :=
  fold_left (fun bids '(ing, qty) =>
               if qty <=? 0 then bids else bids ++ [mkBid ing qty (unit_bid price_hints ing)])
            ingredient_quantities [].

(** Per-recipe body of [build_bids_from_recipes]; [bids_map] maps an
    ingredient to its [(quantity, bid)]. *)
Definition recipe_bids_step (budget_per_recipe : Q) (price_hints : Dict.t Q)
  (bids_map : option (Dict.t (Z * Z))) (r : recipe) : option (Dict.t (Z * Z)) :=
  match bids_map with
  | None => None
  | Some bids_map =>
    let ings := r_ingredients r in
    match ings with
    | [] => Some bids_map
    | _ =>
      let cost_per_stock :=
        fold_left (fun c '(ing, qty) => c + inject_Z (unit_bid price_hints ing * qty))%Q
                  ings 0%Q in
      let stocks :=
        if Qltb 0 cost_per_stock then
          match py_floordiv budget_per_recipe cost_per_stock with
          | Some x => Some (py_int x)
          | None => None
          end
        else Some 0 in
      match stocks with
      | None => None
      | Some stocks =>
        let stocks_to_buy := Z.max 1 stocks in
        Some (fold_left (fun m '(ing, qty_per_stock) =>
                let total_qty := qty_per_stock * stocks_to_buy in
                let bid_per_unit := unit_bid price_hints ing in
                match Dict.find m ing with
                | Some (q, b) => Dict.set m ing (q + total_qty, Z.max b bid_per_unit)
                | None => Dict.set m ing (total_qty, bid_per_unit)
                end) ings bids_map)
      end
    end
  end.

(** [bids.sort(key=lambda x: -(x["quantity"] * x["bid"]))]: stable. *)
Fixpoint insert_by_size (b : bid) (l : list bid) : list bid :=
  match l with
  | [] => [b]
  | x :: r => if - (b_quantity b * b_bid b) <? - (b_quantity x * b_bid x)
              then b :: x :: r else x :: insert_by_size b r
  end.

Definition sort_by_size (l : list bid) : list bid :=
  fold_left (fun acc b => insert_by_size b acc) l [].

(** [build_bids_from_recipes(simplest_recipes, balance, price_hints)] *)
Definition build_bids_from_recipes (simplest_recipes : list recipe) (balance : Q)
  (price_hints : Dict.t Q) : option (list bid) :=
  if (match simplest_recipes with [] => true | _ => false end) || Qle_bool balance 0
  then Some []
  else
    let budget := py_min MAX_BUDGET (balance * BUDGET_FRACTION)%Q in
    match py_div budget (inject_Z (Z.of_nat (List.length simplest_recipes))) with
    | None => None
    | Some budget_per_recipe =>
      match fold_left (recipe_bids_step budget_per_recipe price_hints)
                      simplest_recipes (Some []) with
      | None => None
      | Some bids_map =>
        Some (sort_by_size (map (fun '(ing, (q, b)) => mkBid ing q b) bids_map))
      end
    end.

(** The values [run_bid_agent] reads from [strategy.json]. *)
Record strategy_file := mkStrategyFile {
  price_hints : Dict.t Q;
  ingredient_quantities : Dict.t Z;
  simplest_recipes : list recipe;
  copies_target : Z
}.

(** The defaults used when [strategy.json] is absent. *)
Definition no_strategy : strategy_file := mkStrategyFile [] [] [] 3.

(** The plan part of [run_bid_agent]: the three paths.  [catalog_ingredients]
    is [list({ing for recipe in recipes ...})] built from [get_recipes()],
    in the iteration order of that set. *)
Definition plan_bids (strat : strategy_file) (balance : Q)
  (preferred_ingredients : option (list string)) (primary_count : Z)
  (catalog_ingredients : list string) : option (list bid) :=
  match ingredient_quantities strat with
  | _ :: _ =>
    match budget_scale_quantities (ingredient_quantities strat) (copies_target strat)
            balance (price_hints strat) with
    | None => None
    | Some scaled => Some (build_bids_from_quantities scaled (price_hints strat))
    end
  | [] =>
    match simplest_recipes strat with
    | _ :: _ => build_bids_from_recipes (simplest_recipes strat) balance (price_hints strat)
    | [] =>
      let preferred := match preferred_ingredients with
                       | Some l => l
                       | None => catalog_ingredients
                       end in
      build_bids_legacy preferred balance primary_count (price_hints strat)
    end
  end.

(** [run_bid_agent(...)]: the bid batch it builds; it is submitted with
    [client.closed_bid] when non-empty.  [ingredient_file] is the content of
    [lista_completa_ingredienti.txt], [None] when the file is absent. *)
Definition run_bid_agent (strat : strategy_file) (balance : Q)
  (preferred_ingredients : option (list string)) (primary_count : Z)
  (catalog_ingredients : list string) (ingredient_file : option (list string))
  : option (list bid) :=
  match plan_bids strat balance preferred_ingredients primary_count catalog_ingredients with
  | None => None
  | Some bids =>
    let all_ingredients := load_all_ingredients ingredient_file in
    match all_ingredients with
    | [] => Some bids
    | _ => Some (add_opportunistic_bids bids all_ingredients)
    end
  end.

End Bid.

(** * Orchestrator (src/hackapizza/orchestrator.py)

    The module globals [current_turn_id], [_running_task], [_in_serving] and
    [_strategy_task] are a state record; asyncio tasks live in a store
    indexed by creation order, and [asyncio.Task] objects are referred to
    by their index, as the globals share them.  A task is suspended at one
    program point; the event loop runs a task one step at a time
    ([SchedStep]).  [_cancel_running] and [_run] are the same in
    src/orchestrator.py. *)
Module Orchestrator.

Inductive phase := Speaking | ClosedBid | Waiting | Serving | Stopped.

(** [PHASE_HANDLERS.get(phase)] *)
Definition PHASE_HANDLERS (p : string) : option phase :=
  if String.eqb p "speaking" then Some Speaking
  else if String.eqb p "closed_bid" then Some ClosedBid
  else if String.eqb p "waiting" then Some Waiting
  else if String.eqb p "serving" then Some Serving
  else if String.eqb p "stopped" then Some Stopped
  else None.

(** The coroutine a task runs: [_wrap(handler())] for a phase handler, or
    [run_strategy_agent()] started by [on_speaking]. *)
Inductive kind := Handler (p : phase) | StrategyAgent.

(** Where the task is suspended.  [Start]: created, first step not run;
    [AwaitingStrategy j]: [on_closed_bid] in [await _strategy_task] with
    [_strategy_task] the task [j]; [Awaiting]: in the handler's remaining
    awaited call ([run_snapshot], [run_bid_agent], the agents);
    [Finished]: [task.done()]. *)
Inductive pc := Start | AwaitingStrategy (j : nat) | Awaiting | Finished.

(** [t_cancel_requested]: [task.cancel()] has been called on it while not
    done (Python's [task.cancelling() > 0]); [t_must_cancel]: a
    [CancelledError] is to be thrown at its next step. *)
Record task := mkTask {
  t_kind : kind; t_pc : pc; t_cancel_requested : bool; t_must_cancel : bool }.

Definition done (t : task) : bool :=
  match t_pc t with Finished => true | _ => false end.

Record state := mkState {
  current_turn_id : Z;
  _running_task : option nat;
  _in_serving : bool;
  _strategy_task : option nat;
  tasks : list task }.

Definition init : state := mkState 0 None false None [].

Definition with_tasks (s : state) (l : list task) : state :=
  mkState (current_turn_id s) (_running_task s) (_in_serving s) (_strategy_task s) l.
Definition with_turn (s : state) (n : Z) : state :=
  mkState n (_running_task s) (_in_serving s) (_strategy_task s) (tasks s).
Definition with_running (s : state) (r : option nat) : state :=
  mkState (current_turn_id s) r (_in_serving s) (_strategy_task s) (tasks s).
Definition with_in_serving (s : state) (b : bool) : state :=
  mkState (current_turn_id s) (_running_task s) b (_strategy_task s) (tasks s).
Definition with_strategy (s : state) (st : option nat) : state :=
  mkState (current_turn_id s) (_running_task s) (_in_serving s) st (tasks s).

(** In-place update of the task object with index [i]. *)
Fixpoint upd_nth {A} (i : nat) (f : A -> A) (l : list A) : list A :=
  match l, i with
  | [], _ => []
  | x :: r, O => f x :: r
  | x :: r, S i => x :: upd_nth i f r
  end.

Definition update_task (s : state) (i : nat) (f : task -> task) : state :=
  with_tasks s (upd_nth i f (tasks s)).

(** Move the task to program point [p] with pending-cancel flag [mc]. *)
Definition set_pc (s : state) (i : nat) (p : pc) (mc : bool) : state :=
  update_task s i (fun t => mkTask (t_kind t) p (t_cancel_requested t) mc).

(** [task.done()] of the task with index [i]. *)
Definition task_done (s : state) (i : nat) : bool :=
  match nth_error (tasks s) i with Some t => done t | None => false end.

(** [task.cancel()] on a task that is not awaiting another task. *)
Definition request_cancel (s : state) (i : nat) : state :=
  match nth_error (tasks s) i with
  | Some t =>
    if done t then s
    else update_task s i (fun t => mkTask (t_kind t) (t_pc t) true true)
  | None => s
  end.

(** [task.cancel()]: a task suspended on another task that is not done
    forwards the cancellation to it ([_fut_waiter.cancel()]) and gets no
    pending [CancelledError] of its own. *)
Definition cancel (s : state) (i : nat) : state :=
  match nth_error (tasks s) i with
  | Some t =>
    if done t then s
    else
      match t_pc t with
      | AwaitingStrategy j =>
        let s1 := update_task s i (fun t => mkTask (t_kind t) (t_pc t) true (t_must_cancel t)) in
        if task_done s1 j
        then update_task s1 i (fun t => mkTask (t_kind t) (t_pc t) true true)
        else request_cancel s1 j
      | _ => update_task s i (fun t => mkTask (t_kind t) (t_pc t) true true)
      end
  | None => s
  end.

(** [asyncio.create_task(...)]: the new task and its index. *)
Definition create_task (s : state) (k : kind) : state * nat :=
  (with_tasks s (tasks s ++ [mkTask k Start false false]), List.length (tasks s)).

(** [_cancel_running()] *)
Definition _cancel_running (s : state) : state :=
  match _running_task s with
  | Some i => with_running (if task_done s i then s else cancel s i) None
  | None => with_running s None
  end.

(** [_run(handler())] *)
Definition _run (s : state) (p : phase) : state :=
  let s1 := _cancel_running s in
  let '(s2, i) := create_task s1 (Handler p) in
  with_running s2 (Some i).

(** Events dispatched by [dispatch_event]. *)
Inductive event :=
| GameStarted (turn_id : option Z)
| PhaseChanged (phase_name : string) (turn_id : option Z)
| GameReset
| SchedStep (i : nat).

(** [on_game_started] *)
Definition on_game_started (s : state) (turn_id : option Z) : state :=
  with_turn s (match turn_id with Some n => n | None => 0 end).

(** [on_game_phase_changed] *)
Definition on_game_phase_changed (s : state) (p : string) (turn_id : option Z) : state :=
  let s1 := match turn_id with Some n => with_turn s n | None => s end in
  match PHASE_HANDLERS p with
  | Some ph => _run s1 ph
  | None => s1
  end.

(** [on_game_reset] *)
Definition on_game_reset (s : state) : state :=
  _cancel_running (with_turn s 0).

(** One step of task [i] in the event loop. *)
Definition step_task (s : state) (i : nat) : state :=
  match nth_error (tasks s) i with
  | None => s
  | Some t =>
    match t_pc t with
    | Finished => s
    | Start =>
      if t_must_cancel t then set_pc s i Finished false
      else
        match t_kind t with
        | Handler Speaking =>
          (* if _strategy_task and not _strategy_task.done(): cancel();
             _strategy_task = create_task(run_strategy_agent());
             await run_snapshot(current_turn_id) *)
          let s1 := match _strategy_task s with
                    | Some j => if task_done s j then s else cancel s j
                    | None => s
                    end in
          let '(s2, j) := create_task s1 StrategyAgent in
          set_pc (with_strategy s2 (Some j)) i Awaiting false
        | Handler ClosedBid =>
          match _strategy_task s with
          | Some j =>
            if task_done s j then set_pc (with_strategy s None) i Awaiting false
            else set_pc s i (AwaitingStrategy j) false
          | None => set_pc (with_strategy s None) i Awaiting false
          end
        | Handler Serving => set_pc (with_in_serving s true) i Awaiting false
        | Handler Stopped => set_pc (with_in_serving s false) i Awaiting false
        | Handler Waiting => set_pc s i Awaiting false
        | StrategyAgent => set_pc s i Awaiting false
        end
    | AwaitingStrategy j =>
      (* [except asyncio.CancelledError: log(...)] catches a pending
         cancellation; either way [_strategy_task = None] and the handler
         goes on to the fallback and [run_bid_agent] *)
      if t_must_cancel t then set_pc (with_strategy s None) i Awaiting false
      else if task_done s j then set_pc (with_strategy s None) i Awaiting false
      else s
    | Awaiting =>
      (* the awaited call returns, or its CancelledError reaches [_wrap] *)
      set_pc s i Finished false
    end
  end.

Definition handle_event (s : state) (e : event) : state :=
  match e with
  | GameStarted n => on_game_started s n
  | PhaseChanged p n => on_game_phase_changed s p n
  | GameReset => on_game_reset s
  | SchedStep i => step_task s i
  end.

Definition run_events (s : state) (evs : list event) : state :=
  fold_left handle_event evs s.

Definition is_handler (k : kind) : bool :=
  match k with Handler _ => true | StrategyAgent => false end.

(** A phase-handler task that is not done. *)
Definition handler_active (s : state) (i : nat) : bool :=
  match nth_error (tasks s) i with
  | Some t => is_handler (t_kind t) && negb (done t)
  | None => false
  end.

(** A phase-handler task that is not done and has not been asked to
    cancel. *)
Definition handler_live (s : state) (i : nat) : bool :=
  match nth_error (tasks s) i with
  | Some t => is_handler (t_kind t) && negb (done t) && negb (t_cancel_requested t)
  | None => false
  end.

Definition count_active_handlers (s : state) : nat :=
  List.length (filter (fun t => is_handler (t_kind t) && negb (done t)) (tasks s)).

End Orchestrator.

(** * Event-stream connection loops *)
Module Stream.

(** How one [listen_once(session)] call ends: [aiohttp.ClientError]
    (I/O error, non-200 status via [raise_for_status]), another
    [Exception], a clean close by the server, or [CancelledError] (the
    caller cancels the task). *)
Inductive outcome := ClientErr | OtherExc | CleanClose | Cancelled.

Inductive action := Connect | Sleep (secs : Z).

(** [listen_loop()] of src/orchestrator.py run against the successive
    connection outcomes [outs]: the actions it performs and whether it has
    returned (or raised) by the end of [outs]. *)
Fixpoint listen_loop (outs : list outcome) : list action * bool :=
  match outs with
  | [] => ([], false)
  | Cancelled :: _ => ([Connect], true)
  | _ :: r => let '(acts, stopped) := listen_loop r in
              (Connect :: Sleep 5 :: acts, stopped)
  end.

(** [main()] of src/hackapizza/orchestrator.py: [listen_once_and_exit_on_drop()]
    returns after a clean close, and an exception propagates out of
    [asyncio.run]: the process ends with the first connection. *)
Definition hackapizza_main (outs : list outcome) : list action * bool :=
  match outs with
  | [] => ([], false)
  | _ :: _ => ([Connect], true)
  end.

(** [except ...] clauses of [listen_loop] that do not catch the
    outcome. *)
Definition is_cancelled (o : outcome) : bool :=
  match o with Cancelled => true | _ => false end.

(** The actions of [n] loop iterations that each ended and reconnected. *)
Definition reconnects (outs : list outcome) : list action :=
  List.concat (map (fun _ => [Connect; Sleep 5]) outs).

End Stream.

(** * hackapizza/market_agent.py: step 1 and 2 of [run_market_agent] *)
Module MarketPlan.
Import Bid.

Definition SELL_PRICE : Q := 25.

(** [sum(d.values())] *)
Definition sum_values (d : Dict.t Z) : Z := fold_left (fun a p => a + snd p) d 0.

(** [missing_for_one = {ing: req_qty - virtual_inv.get(ing, 0)} for the
    ingredients with [virtual_inv.get(ing, 0) < req_qty]] *)
Definition missing_for_one (ings vinv : Dict.t Z) : Dict.t Z :=
  fold_left (fun m '(ing, req_qty) =>
               if Dict.get vinv ing 0 <? req_qty
               then Dict.set m ing (req_qty - Dict.get vinv ing 0) else m)
            ings [].

(** [virtual_inv[ing] -= q]; [None] stands for [KeyError]. *)
Definition sub_key (vinv : Dict.t Z) (ing : string) (q : Z) : option (Dict.t Z) :=
  match Dict.find vinv ing with
  | Some v => Some (Dict.set vinv ing (v - q))
  | None => None
  end.

(** [for ing, req_qty in ings.items(): virtual_inv[ing] -= req_qty] *)
Definition allocate_all (ings vinv : Dict.t Z) : option (Dict.t Z) :=
  fold_left (fun acc '(ing, req_qty) =>
               match acc with Some v => sub_key v ing req_qty | None => None end)
            ings (Some vinv).

(** The same loop followed by [if virtual_inv[ing] < 0: virtual_inv[ing] = 0]. *)
Definition allocate_clamped (ings vinv : Dict.t Z) : option (Dict.t Z) :=
  fold_left (fun acc '(ing, req_qty) =>
               match acc with
               | Some v =>
                 match sub_key v ing req_qty with
                 | Some v' => Some (if Dict.get v' ing 0 <? 0 then Dict.set v' ing 0 else v')
                 | None => None
                 end
               | None => None
               end)
            ings (Some vinv).

Inductive iter_result :=
| Break
| Again (vinv tb : Dict.t Z)
| KeyError.

(** One iteration of the [while True] loop for a recipe with ingredient
    dict [ings]; [vinv] is [virtual_inv] and [tb] is [to_buy]. *)
Definition alloc_iteration (ings vinv tb : Dict.t Z) : iter_result :=
  let mfo := missing_for_one ings vinv in
  let total_req := sum_values ings in
  let total_missing := sum_values mfo in
  let covered := total_req - total_missing in
  if total_missing =? 0 then
    match allocate_all ings vinv with
    | Some v => Again v tb
    | None => KeyError
    end
  else if (List.length mfo =? 1)%nat && (0 <? covered) then
    match mfo with
    | (missing_ing, missing_qty) :: _ =>
      let tb := Dict.set tb missing_ing (Dict.get tb missing_ing 0 + missing_qty) in
      match allocate_clamped ings vinv with
      | Some v => Again v tb
      | None => KeyError
      end
    | [] => Break
    end
  else Break.

Inductive loop_result :=
| LoopDone (vinv tb : Dict.t Z)
| LoopKeyError
| OutOfFuel.

(** The [while True] loop, run for at most [fuel] iterations; [OutOfFuel]
    means it had not left the loop after [fuel] iterations. *)
Fixpoint alloc_loop (fuel : nat) (ings vinv tb : Dict.t Z) : loop_result :=
  match fuel with
  | O => OutOfFuel
  | S f =>
    match alloc_iteration ings vinv tb with
    | Break => LoopDone vinv tb
    | KeyError => LoopKeyError
    | Again v t => alloc_loop f ings v t
    end
  end.

(** [sorted(simplest_recipes, key=lambda r: r.get("prestige", 0),
    reverse=True)]: stable, so equal prestiges keep their order. *)
Fixpoint insert_by_prestige (r : recipe) (l : list recipe) : list recipe :=
  match l with
  | [] => [r]
  | x :: t => if r_prestige x <? r_prestige r then r :: x :: t
              else x :: insert_by_prestige r t
  end.

Definition sort_by_prestige_desc (l : list recipe) : list recipe :=
  fold_left (fun acc r => insert_by_prestige r acc) l [].

Inductive plan_result :=
| Planned (vinv tb : Dict.t Z)
| PlanKeyError
| PlanOutOfFuel.

Definition plan_step (fuel : nat) (acc : plan_result) (r : recipe) : plan_result :=
  match acc with
  | Planned vinv tb =>
    match r_ingredients r with
    | [] => acc
    | ings =>
      match alloc_loop fuel ings vinv tb with
      | LoopDone v t => Planned v t
      | LoopKeyError => PlanKeyError
      | OutOfFuel => PlanOutOfFuel
      end
    end
  | _ => acc
  end.

(** Step 1 of [run_market_agent]: [virtual_inv = dict(inventory)],
    [to_buy = {}], then the allocation over the recipes by decreasing
    prestige; each [while True] loop runs for at most [fuel] iterations. *)
Definition plan_purchases (fuel : nat) (simplest_recipes : list recipe)
  (inventory : Dict.t Z) : plan_result :=
  fold_left (plan_step fuel) (sort_by_prestige_desc simplest_recipes) (Planned inventory []).

(** [surplus = {ing: qty for ing, qty in virtual_inv.items() if qty > 0}] *)
Definition surplus (vinv : Dict.t Z) : Dict.t Z := filter (fun p => 0 <? snd p) vinv.

(** The unit price [sell_surplus] asks for an ingredient:
    [max(1, int(cost_paid * 1.05)) if cost_paid > 0 else SELL_PRICE]. *)
Definition sell_price (purchased_inv : Dict.t Q) (ing : string) : Q :=
  let cost_paid := Dict.get purchased_inv ing 0%Q in
  if Qltb 0 cost_paid then inject_Z (Z.max 1 (py_int (cost_paid * (105 # 100))))
  else SELL_PRICE.

Record sell_order := mkSellOrder { s_ingredient : string; s_quantity : Z; s_price : Q }.

(** The SELL orders [sell_surplus] places with [create_market_entry] (in a
    dry run, the list it returns). *)
Definition sell_orders (surplus : Dict.t Z) (purchased_inv : Dict.t Q) : list sell_order :=
  map (fun '(ing, qty) => mkSellOrder ing qty (sell_price purchased_inv ing)) surplus.

End MarketPlan.

(** * src/market_agent.py: [compute_missing] *)
Module LegacyMissing.
Import Bid.

(** [recipe_map = {r["name"]: r for r in recipes}] *)
Definition recipe_map (recipes : list recipe) : Dict.t recipe :=
  fold_left (fun m r => Dict.set m (r_name r) r) recipes [].

(** [compute_missing(menu_recipe_names, recipes, inventory)];
    [missing] is a [defaultdict(int)]. *)
Definition compute_missing (menu_recipe_names : list string) (recipes : list recipe)
  (inventory : Dict.t Z) : Dict.t Z :=
  let rm := recipe_map recipes in
  fold_left
    (fun missing recipe_name =>
       match Dict.find rm recipe_name with
       | None => missing
       | Some recipe =>
         fold_left
           (fun missing '(ing, qty_needed) =>
              let have := Dict.get inventory ing 0 in
              if have <? qty_needed
              then Dict.set missing ing (Dict.get missing ing 0 + (qty_needed - have))
              else missing)
           (r_ingredients recipe) missing
       end)
    menu_recipe_names [].

End LegacyMissing.

(** * hackapizza/strategy_agent.py: recipe and dish selection *)
Module StrategyPick.
Import Bid.

(** [[ing for ing, qty in ings.items() if inventory.get(ing, 0) < qty]] *)
Definition missing_ings (r : recipe) (inventory : Dict.t Z) : list string :=
  map fst (filter (fun p => Dict.get inventory (fst p) 0 <? snd p) (r_ingredients r)).

(** [r.get("prestige", 0) / max(1, len(missing))] *)
Definition recipe_score (inventory : Dict.t Z) (r : recipe) : Q :=
  inject_Z (r_prestige r) / inject_Z (Z.max 1 (Z.of_nat (List.length (missing_ings r inventory)))).

(** [_best_recipe_by_score(recipes, inventory, exclude)]; [None] is
    Python's [None]. *)
Definition _best_recipe_by_score (recipes : list recipe) (inventory : Dict.t Z)
  (exclude : list string) : option recipe :=
  fst (fold_left
         (fun '(best, best_score) r =>
            if existsb (String.eqb (r_name r)) exclude then (best, best_score)
            else
              let score := recipe_score inventory r in
              if Qltb best_score score then (Some r, score) else (best, best_score))
         recipes (None, (-1)%Q)).

(** [ranking_score = {item["ingredient"]: top_n - i for i, item in
    enumerate(least_wanted)}]; [least_wanted] is given by its
    [item["ingredient"]] values. *)
Definition ranking_score (least_wanted : list string) : Dict.t Z :=
  let top_n := Z.of_nat (List.length least_wanted) in
  fst (fold_left (fun '(d, i) ing => (Dict.set d ing (top_n - i), i + 1))
                 least_wanted ([], 0)).

(** [sum(ranking_score.get(ing, 0) for ing in set(dish["ingredients"]))] *)
Definition dish_score (rs : Dict.t Z) (dish : recipe) : Z :=
  fold_left (fun a ing => a + Dict.get rs ing 0)
            (nodup string_dec (map fst (r_ingredients dish))) 0.

(** [_select_best_piatto(piatti, least_wanted)] *)
Definition _select_best_piatto (piatti : list recipe) (least_wanted : list string)
  : option recipe :=
  match piatti, least_wanted with
  | [], _ => None
  | _, [] => None
  | _, _ =>
    let rs := ranking_score least_wanted in
    fst (fold_left
           (fun '(best, best_score) dish =>
              let score := dish_score rs dish in
              if (best_score <? score)
                 || ((score =? best_score) &&
                     match best with
                     | Some b => r_prestige b <? r_prestige dish
                     | None => false
                     end)
              then (Some dish, score) else (best, best_score))
           piatti (None, -1))
  end.

(** [_overlap_score(recipe_a, recipe_b)]: [len(a & b) / len(a | b)] on the
    sets of ingredient names. *)
Definition _overlap_score (recipe_a recipe_b : recipe) : Q :=
  let ings_a := nodup string_dec (map fst (r_ingredients recipe_a)) in
  let ings_b := nodup string_dec (map fst (r_ingredients recipe_b)) in
  match ings_a, ings_b with
  | [], _ => 0
  | _, [] => 0
  | _, _ =>
    inject_Z (Z.of_nat (List.length (filter (fun x => existsb (String.eqb x) ings_b) ings_a))) /
    inject_Z (Z.of_nat (List.length
                (ings_a ++ filter (fun x => negb (existsb (String.eqb x) ings_a)) ings_b)))
  end.

End StrategyPick.

(** * Measures used in the termination arguments *)
Module Measures.

(** The stock held of a recipe's ingredients: the sum over the ingredient
    dict [ings] of [vinv.get(ing, 0)]. *)
Definition stock (ings vinv : Dict.t Z) : Z :=
  fold_right (fun p a => Dict.get vinv (fst p) 0 + a) 0 ings.

(** Bids sorted by decreasing [quantity * bid]. *)
Definition larger_first (a b : Bid.bid) : Prop :=
  Bid.b_quantity b * Bid.b_bid b <= Bid.b_quantity a * Bid.b_bid a.

(** The [bids_map] of [build_bids_from_recipes]: distinct ingredients and
    unit prices of at least 1. *)
Definition bids_map_ok (m : Dict.t (Z * Z)) : Prop :=
  NoDup (map fst m) /\ Forall (fun p => 1 <= snd (snd p)) m.

(** [sum(g(k) for k in l)] *)
Definition sumk (g : string -> Z) (l : list string) : Z := fold_right (fun k a => g k + a) 0 l.

(** The state of step 1 of [run_market_agent] after some recipes: a
    [KeyError], or a virtual inventory with the keys of [inventory] and
    counts between 0 and those of [inventory]. *)
Definition plan_ok (inventory : Dict.t Z) (acc : MarketPlan.plan_result) : Prop :=
  acc = MarketPlan.PlanKeyError \/
  exists v t, acc = MarketPlan.Planned v t /\ (forall k, Dict.mem v k = Dict.mem inventory k) /\
              (forall k, 0 <= Dict.get v k 0 <= Dict.get inventory k 0).

End Measures.

(** * Inputs of the worked examples *)
Module Examples.
Import Market Bid.

Definition salt3_2 := mkEntry 1 "SELL" "Salt" 3 2.
Definition salt5_1 := mkEntry 2 "SELL" "Salt" 5 1.
Definition pepper1_10 := mkEntry 3 "SELL" "Pepper" 1 10.

Definition example_book : list entry := [salt3_2; salt5_1; pepper1_10].

Definition lot_A10 : entry := mkEntry 1 "SELL" "A" 10 1.

Definition salt_quantities : strategy_file := mkStrategyFile [] [("Salt", 1)] [] 3.

End Examples.

(** * Invariants used in the proofs *)
Module Invariants.
Import Market Orchestrator.

Definition nonneg_lots (markets : nat -> list entry) : Prop :=
  forall r e, In e (markets r) -> (0 <= e_price e)%Q /\ 0 <= e_quantity e.

(** The budget invariant of the buy loop, for an initial budget [B0]. *)
Definition budget_inv (B0 : Q) (s : buy_state) : Prop :=
  (budget s == B0 - cost_sum (purchased_all s))%Q /\
  purchased_all s = List.concat (map snd (round_log s)) /\
  (cost_sum (purchased_all s) <= B0)%Q /\
  (forall p, In p (round_log s) -> (0 <= cost_sum (snd p))%Q).

Definition hl (t : task) : bool :=
  is_handler (t_kind t) && negb (done t) && negb (t_cancel_requested t).

(** No task becomes a live phase handler. *)
Definition Mono (s s' : state) : Prop :=
  forall k, handler_live s' k = true -> handler_live s k = true.

(** Every task keeps its program point. *)
Definition SameShape (s s' : state) : Prop :=
  forall i t, nth_error (tasks s) i = Some t ->
    exists t', nth_error (tasks s') i = Some t' /\ t_pc t' = t_pc t.

(** The single-flight invariant: a live phase-handler task is the one
    [_running_task] tracks. *)
Definition Inv (s : state) : Prop :=
  forall k, handler_live s k = true -> _running_task s = Some k.

End Invariants.

(** ** Lemmas about dictionaries, sorting and the matcher *)
Module MarketFacts.
Import Invariants.
Import Market.

Lemma cost_sum_app (l1 l2 : list entry) :
  (cost_sum (l1 ++ l2) == cost_sum l1 + cost_sum l2)%Q.
Proof. induction l1 as [|e l1 IH]; simpl; [ring | rewrite IH; ring]. Qed.

Lemma Qltb_false (x y : Q) : Qltb x y = false -> (y <= x)%Q.
Proof. unfold Qltb. destruct (Qle_bool y x) eqn:E; simpl; try discriminate.
  intros _. now apply Qle_bool_iff. Qed.

Lemma Qltb_true (x y : Q) : Qltb x y = true -> (x < y)%Q.
Proof. unfold Qltb. destruct (Qle_bool y x) eqn:E; simpl; try discriminate.
  intros _. apply Qnot_le_lt. intro H. apply Qle_bool_iff in H. congruence. Qed.

Lemma entry_cost_nonneg (e : entry) :
  (0 <= e_price e)%Q -> 0 <= e_quantity e -> (0 <= entry_cost e)%Q.
Proof.
  intros Hp Hq. unfold entry_cost. apply Qmult_le_0_compat; [exact Hp|].
  change 0%Q with (inject_Z 0). now rewrite <- Zle_Qle.
Qed.

Lemma Dict_get_forall {V} (P : V -> Prop) (d : Dict.t V) k dflt :
  (forall k' v, In (k', v) d -> P v) -> P dflt -> P (Dict.get d k dflt).
Proof.
  induction d as [|[k' v] d IH]; intros Hd Hdf; simpl; [exact Hdf|].
  destruct (String.eqb k k'); [apply (Hd k'); now left|].
  apply IH; [|exact Hdf]. intros k2 v2 H. apply (Hd k2). now right.
Qed.

Lemma Dict_set_In {V} (d : Dict.t V) k v k' v' :
  In (k', v') (Dict.set d k v) -> In (k', v') d \/ v' = v.
Proof.
  induction d as [|[k0 v0] d IH]; simpl.
  - intros [H|[]]. inversion H; subst. now right.
  - destruct (String.eqb k k0); simpl.
    + intros [H|H]; [inversion H; subst; now right | left; now right].
    + intros [H|H]; [left; now left|]. destruct (IH H); [left; now right | now right].
Qed.

Lemma insert_by_price_In e x l : In x (insert_by_price e l) -> x = e \/ In x l.
Proof.
  induction l as [|y l IH]; simpl.
  - intros [H|[]]. now left.
  - destruct (Qltb (e_price e) (e_price y)); simpl.
    + intros [H|[H|H]]; auto.
    + intros [H|H]; auto. destruct (IH H); auto.
Qed.

Lemma sort_by_price_In x l : In x (sort_by_price l) -> In x l.
Proof.
  unfold sort_by_price.
  assert (G : forall acc, In x (fold_left (fun acc e => insert_by_price e acc) l acc) ->
                          In x l \/ In x acc).
  { induction l as [|e l IH]; simpl; intros acc H; [now right|].
    destruct (IH _ H) as [H'|H']; [left; now right|].
    destruct (insert_by_price_In _ _ _ H') as [->|H'']; [left; now left | now right]. }
  intros H. destruct (G [] H) as [H'|[]]. exact H'.
Qed.

Lemma group_sells_In market k l e :
  In (k, l) (group_sells market) -> In e l -> In e market.
Proof.
  unfold group_sells.
  assert (G : forall m d,
    (forall k' l', In (k', l') d -> forall e', In e' l' -> In e' market) ->
    incl m market ->
    forall k' l', In (k', l') (fold_left (fun (d : Dict.t (list entry)) e =>
       if negb (String.eqb (e_side e) "SELL") then d
       else if String.eqb (e_ingredient e) "" then d
       else Dict.set d (e_ingredient e) (Dict.get d (e_ingredient e) [] ++ [e])) m d) ->
    forall e', In e' l' -> In e' market).
  { induction m as [|x m IH]; simpl; intros d Hd Hm; [exact Hd|].
    apply IH; [|intros y Hy; apply Hm; now right].
    destruct (negb (String.eqb (e_side x) "SELL")); [exact Hd|].
    destruct (String.eqb (e_ingredient x) ""); [exact Hd|].
    intros k' l' Hin e' He'. destruct (Dict_set_In _ _ _ _ _ Hin) as [H|H]; [eapply Hd; eauto|].
    subst l'. apply in_app_or in He'. destruct He' as [He'|[He'|[]]].
    - revert He'. apply (Dict_get_forall (fun l => In e' l -> In e' market)); [|intros []].
      intros k2 v2 H2. now apply (Hd k2).
    - subst. apply Hm. now left. }
  intros Hin He. eapply (G market []); eauto. intros ? ? [].
  intros y Hy; exact Hy.
Qed.

Lemma sell_by_ing_In market ing e :
  In e (Dict.get (sell_by_ing market) ing []) -> In e market.
Proof.
  apply (Dict_get_forall (fun l => In e l -> In e market)); [|intros []].
  intros k v Hin He. unfold sell_by_ing in Hin. apply in_map_iff in Hin.
  destruct Hin as [[k0 l0] [Heq Hin]]. inversion Heq; subst.
  apply sort_by_price_In in He. eapply group_sells_In; eauto.
Qed.

(** Invariant of the inner loop: [spent] is the cost of the accepted lots,
    and within the budget once a lot has been accepted. *)
Lemma take_lots_spec budget entries : forall q spent acc,
  (cost_sum acc == spent)%Q -> (acc = [] \/ (spent <= budget)%Q) ->
  let r := take_lots budget entries q spent acc in
  (cost_sum (snd r) == fst r)%Q /\ (snd r = [] \/ (fst r <= budget)%Q) /\
  (forall e, In e (snd r) -> In e acc \/ In e entries).
Proof.
  induction entries as [|e rest IH]; intros q spent acc Hc Hb; simpl.
  - repeat split; auto.
  - destruct (q <=? 0); [repeat split; auto|].
    destruct (Qltb MAX_PRICE_PER_UNIT (e_price e)).
    + destruct (IH q spent acc Hc Hb) as (H1 & H2 & H3). repeat split; auto.
      intros x Hx. destruct (H3 x Hx); auto.
    + destruct (Qltb budget (spent + entry_cost e)) eqn:E.
      * destruct (IH q spent acc Hc Hb) as (H1 & H2 & H3). repeat split; auto.
        intros x Hx. destruct (H3 x Hx); auto.
      * apply Qltb_false in E.
        destruct (IH (q - e_quantity e) (spent + entry_cost e)%Q (acc ++ [e]))
          as (H1 & H2 & H3).
        { rewrite cost_sum_app. simpl. rewrite Hc. ring. }
        { now right. }
        repeat split; auto. intros x Hx. destruct (H3 x Hx) as [H|H]; auto.
        apply in_app_or in H. destruct H as [H|[H|[]]]; auto; subst; auto.
Qed.

Lemma find_best_entries_spec missing market budget :
  let r := find_best_entries_st missing market budget in
  (cost_sum (snd r) == fst r)%Q /\ (snd r = [] \/ (fst r <= budget)%Q) /\
  (forall e, In e (snd r) -> In e market).
Proof.
  unfold find_best_entries_st.
  assert (G : forall m sp acc,
    (cost_sum acc == sp)%Q -> (acc = [] \/ (sp <= budget)%Q) ->
    (forall e, In e acc -> In e market) ->
    let r := fold_left (fun '(spent, to_buy) '(ing, qty_needed) =>
       match Dict.get (sell_by_ing market) ing [] with
       | [] => (spent, to_buy)
       | entries => take_lots budget entries qty_needed spent to_buy
       end) m (sp, acc) in
    (cost_sum (snd r) == fst r)%Q /\ (snd r = [] \/ (fst r <= budget)%Q) /\
    (forall e, In e (snd r) -> In e market)).
  { induction m as [|[ing qn] m IH]; intros sp acc Hc Hb Hm; cbn -[take_lots]; [auto|].
    destruct (Dict.get (sell_by_ing market) ing []) as [|x xs] eqn:Eg; [now apply IH|].
    destruct (take_lots_spec budget (x :: xs) qn sp acc Hc Hb) as (H1 & H2 & H3).
    destruct (take_lots budget (x :: xs) qn sp acc) as [sp' acc'] eqn:Et.
    apply IH; auto. intros e He. destruct (H3 e He); auto.
    apply (sell_by_ing_In market ing). now rewrite Eg. }
  apply G; simpl; auto. reflexivity. intros e [].
Qed.

Lemma process_fold_spec dry_run (ok : entry -> bool) (l : list entry) :
  forall tb vinv bud acc, (forall e, In e l -> (0 <= entry_cost e)%Q) ->
  let r := fold_left (fun a e => process_entry dry_run (ok e) a e) l (tb, vinv, bud, acc) in
  exists sub, snd r = acc ++ sub /\ (0 <= cost_sum sub <= cost_sum l)%Q /\
              (snd (fst r) == bud - cost_sum sub)%Q.
Proof.
  induction l as [|e l IH]; intros tb vinv bud acc Hnn; simpl.
  - exists []. rewrite app_nil_r. simpl. repeat split; lra.
  - assert (He : (0 <= entry_cost e)%Q) by (apply Hnn; now left).
    assert (Hl : forall x, In x l -> (0 <= entry_cost x)%Q) by (intros x Hx; apply Hnn; now right).
    assert (Keep : forall tb' vinv',
      exists sub, snd (fold_left (fun a e => process_entry dry_run (ok e) a e) l
                         (tb', vinv', bud, acc)) = acc ++ sub /\
        (0 <= cost_sum sub <= entry_cost e + cost_sum l)%Q /\
        (snd (fst (fold_left (fun a e => process_entry dry_run (ok e) a e) l
                         (tb', vinv', bud, acc))) == bud - cost_sum sub)%Q).
    { intros tb' vinv'. destruct (IH tb' vinv' bud acc Hl) as (sub & H1 & H2 & H3).
      exists sub. repeat split; auto; lra. }
    assert (Take : forall tb' vinv',
      exists sub, snd (fold_left (fun a e => process_entry dry_run (ok e) a e) l
                         (tb', vinv', (bud - e_price e * inject_Z (e_quantity e))%Q, acc ++ [e]))
                  = acc ++ sub /\
        (0 <= cost_sum sub <= entry_cost e + cost_sum l)%Q /\
        (snd (fst (fold_left (fun a e => process_entry dry_run (ok e) a e) l
                         (tb', vinv', (bud - e_price e * inject_Z (e_quantity e))%Q, acc ++ [e])))
           == bud - cost_sum sub)%Q).
    { intros tb' vinv'.
      destruct (IH tb' vinv' (bud - e_price e * inject_Z (e_quantity e))%Q (acc ++ [e]) Hl)
        as (sub & H1 & H2 & H3).
      exists (e :: sub). rewrite H1, <- app_assoc. simpl. fold (entry_cost e) in H3 |- *.
      repeat split; auto; lra. }
    unfold process_entry at 2.
    destruct (Dict.get tb (e_ingredient e) 0 <=? 0); [apply Keep|].
    destruct dry_run; [apply Take|]. destruct (ok e); [apply Take | apply Keep].
Qed.

Lemma process_fold_result dry_run (ok : entry -> bool) (l : list entry)
  tb vinv bud tb' vinv' bud' bought :
  (forall e, In e l -> (0 <= entry_cost e)%Q) ->
  fold_left (fun a e => process_entry dry_run (ok e) a e) l (tb, vinv, bud, []) =
    (tb', vinv', bud', bought) ->
  (0 <= cost_sum bought <= cost_sum l)%Q /\
  (bud' == bud - cost_sum bought)%Q.
Proof.
  intros Hnn E. destruct (process_fold_spec dry_run ok l tb vinv bud [] Hnn) as (sub & H1 & H2 & H3).
  rewrite E in H1, H3. simpl in H1, H3. subst bought. auto.
Qed.

Lemma concat_snd_app (log : list (nat * list entry)) r b :
  List.concat (map snd (log ++ [(r, b)])) = List.concat (map snd log) ++ b.
Proof. rewrite map_app, concat_app. simpl. now rewrite app_nil_r. Qed.

Lemma log_app_forall (log : list (nat * list entry)) r b :
  (forall p, In p log -> (0 <= cost_sum (snd p))%Q) -> (0 <= cost_sum b)%Q ->
  forall p, In p (log ++ [(r, b)]) -> (0 <= cost_sum (snd p))%Q.
Proof.
  intros H Hb p Hp. apply in_app_or in Hp. destruct Hp as [Hp|[Hp|[]]]; auto. now subst.
Qed.

Lemma buy_round_inv dry_run markets exec_ok r s B0 :
  nonneg_lots markets -> budget_inv B0 s ->
  match buy_round dry_run markets exec_ok r s with
  | Stop s' | Continue s' => budget_inv B0 s'
  end.
Proof.
  intros Hnn (I1 & I2 & I3 & I4). unfold buy_round.
  destruct (to_buy s) as [|x xs] eqn:Etb; [repeat split; auto|].
  destruct (find_best_entries_spec (x :: xs) (markets r) (budget s)) as (F1 & F2 & F3).
  unfold find_best_entries.
  destruct (find_best_entries_st (x :: xs) (markets r) (budget s)) as [sp bl] eqn:Ef.
  simpl in F1, F2, F3.
  destruct bl as [|b0 bl'].
  - unfold budget_inv; simpl. rewrite concat_snd_app, app_nil_r.
    repeat split; auto. apply log_app_forall; simpl; auto. lra.
  - assert (Hc : forall e, In e (b0 :: bl') -> (0 <= entry_cost e)%Q).
    { intros e He. destruct (Hnn r e (F3 e He)). now apply entry_cost_nonneg. }
    match goal with |- context [fold_left ?f ?l ?a] =>
      destruct (fold_left f l a) as [[[tb vinv] bud] bought] eqn:Efold end.
    destruct (process_fold_result dry_run (exec_ok r) (b0 :: bl') _ _ _ _ _ _ _ Hc Efold)
      as (P2 & P3).
    rename bought into sub.
    destruct F2 as [F2|F2]; [discriminate|].
    assert (Inv' : budget_inv B0 (mkBuyState tb vinv bud (purchased_all s ++ sub)
                                  (round_log s ++ [(r, sub)]))).
    { unfold budget_inv; simpl. rewrite concat_snd_app, <- I2, !cost_sum_app.
      repeat split.
      - rewrite P3, I1. lra.
      - lra.
      - apply log_app_forall; simpl; auto. lra. }
    destruct sub; [exact Inv'|]. destruct (Qle_bool bud 1); exact Inv'.
Qed.

Lemma buy_rounds_inv dry_run markets exec_ok rounds : forall s B0,
  nonneg_lots markets -> budget_inv B0 s ->
  budget_inv B0 (buy_rounds dry_run markets exec_ok rounds s).
Proof.
  induction rounds as [|r rs IH]; intros s B0 Hnn Hs; simpl; [exact Hs|].
  pose proof (buy_round_inv dry_run markets exec_ok r s B0 Hnn Hs) as H.
  destruct (buy_round dry_run markets exec_ok r s); auto.
Qed.

Lemma cum_spend_firstn_mono (log : list (nat * list entry)) :
  (forall p, In p log -> (0 <= cost_sum (snd p))%Q) ->
  forall i j, (i <= j)%nat -> (cum_spend (firstn i log) <= cum_spend (firstn j log))%Q.
Proof.
  unfold cum_spend. induction log as [|p log IH]; intros Hnn i j Hij.
  - rewrite !firstn_nil. lra.
  - destruct i as [|i]; destruct j as [|j]; simpl; try lra; try lia.
    + rewrite cost_sum_app.
      assert (0 <= cost_sum (snd p))%Q by (apply Hnn; now left).
      assert (0 <= cost_sum (List.concat (map snd (firstn j log))))%Q.
      { specialize (IH (fun q Hq => Hnn q (or_intror Hq)) 0%nat j ltac:(lia)).
        simpl in IH. exact IH. }
      lra.
    + rewrite !cost_sum_app.
      specialize (IH (fun q Hq => Hnn q (or_intror Hq)) i j ltac:(lia)). lra.
Qed.

Lemma run_buy_loop_inv dry_run markets exec_ok to_buy0 vinv0 balance :
  (0 <= balance)%Q -> nonneg_lots markets ->
  budget_inv (balance * BUDGET_FRACTION)
    (run_buy_loop dry_run markets exec_ok to_buy0 vinv0 balance).
Proof.
  intros Hb Hnn.
  assert (H0 : budget_inv (balance * BUDGET_FRACTION)
                 (mkBuyState to_buy0 vinv0 (balance * BUDGET_FRACTION)%Q [] [])).
  { unfold budget_inv, BUDGET_FRACTION; simpl. repeat split; try lra; intros p []. }
  unfold run_buy_loop. destruct to_buy0; [exact H0|]. now apply buy_rounds_inv.
Qed.

Lemma buy_round_log dry_run markets exec_ok r s :
  match buy_round dry_run markets exec_ok r s with
  | Stop s' | Continue s' =>
      round_log s' = round_log s \/ exists b, round_log s' = round_log s ++ [(r, b)]
  end.
Proof.
  unfold buy_round. destruct (to_buy s) as [|x xs]; [now left|].
  destruct (find_best_entries (x :: xs) (markets r) (budget s)) as [|b0 bl].
  - right. eexists; simpl; reflexivity.
  - match goal with |- context [fold_left ?f ?l ?a] =>
      destruct (fold_left f l a) as [[[tb vinv] bud] bought] end.
    destruct bought; [|destruct (Qle_bool bud 1)]; right; eexists; simpl; reflexivity.
Qed.

Lemma buy_rounds_log dry_run markets exec_ok rounds : forall s,
  (List.length (round_log (buy_rounds dry_run markets exec_ok rounds s))
     <= List.length (round_log s) + List.length rounds)%nat /\
  (forall p, In p (round_log (buy_rounds dry_run markets exec_ok rounds s)) ->
     In p (round_log s) \/ In (fst p) rounds).
Proof.
  induction rounds as [|r rs IH]; intros s; simpl.
  - split; [lia | auto].
  - pose proof (buy_round_log dry_run markets exec_ok r s) as Hl.
    destruct (buy_round dry_run markets exec_ok r s) as [s'|s'];
      [|destruct (IH s') as [IH1 IH2]];
      (destruct Hl as [Hl|[b Hl]]; rewrite Hl in *;
       [|rewrite length_app in *; simpl in *]); split; try lia;
      intros p Hp.
    + auto.
    + apply in_app_or in Hp. destruct Hp as [Hp|[Hp|[]]]; auto. subst; simpl; auto.
    + destruct (IH2 p Hp); auto.
    + destruct (IH2 p Hp) as [Hp'|Hp']; auto.
      apply in_app_or in Hp'. destruct Hp' as [Hp'|[Hp'|[]]]; auto. subst; simpl; auto.
Qed.

Lemma find_best_entries_covered missing market budget :
  Forall (fun p => snd p <= 0) missing ->
  find_best_entries_st missing market budget = (0%Q, []).
Proof.
  unfold find_best_entries_st. generalize (0%Q, @nil entry) as acc.
  induction missing as [|[ing q] m IH]; intros acc Hf; [reflexivity|].
  inversion Hf as [|? ? Hq Hm]; subst. simpl in Hq. cbn -[take_lots].
  destruct acc as [sp bl].
  destruct (Dict.get (sell_by_ing market) ing []) as [|x xs].
  - apply IH; auto.
  - simpl. replace (q <=? 0) with true by lia. apply IH; auto.
Qed.

End MarketFacts.

(** ** Lemmas about [build_ingredient_quantities] *)
Module StrategyFacts.
Import Strategy.

Lemma Dict_get_set {V} (d : Dict.t V) k v k' dflt :
  Dict.get (Dict.set d k v) k' dflt = if String.eqb k' k then v else Dict.get d k' dflt.
Proof.
  induction d as [|[k0 v0] d IH]; simpl.
  - destruct (String.eqb k' k); reflexivity.
  - destruct (String.eqb_spec k k0) as [->|Hne]; simpl.
    + destruct (String.eqb k' k0); reflexivity.
    + rewrite IH. destruct (String.eqb_spec k' k0) as [->|Hne']; [|reflexivity].
      destruct (String.eqb_spec k0 k); [congruence|reflexivity].
Qed.

Lemma Dict_mem_false_get {V} (d : Dict.t V) k dflt :
  Dict.mem d k = false -> Dict.get d k dflt = dflt.
Proof.
  induction d as [|[k0 v0] d IH]; simpl; [reflexivity|].
  destruct (String.eqb k k0); [discriminate|exact IH].
Qed.

Lemma Dict_mem_nodup {V} (d : Dict.t V) k :
  ~ In k (map fst d) -> Dict.mem d k = false.
Proof.
  induction d as [|[k0 v0] d IH]; simpl; [reflexivity|].
  intros H. destruct (String.eqb_spec k k0); [subst; tauto|]. apply IH. tauto.
Qed.

Lemma Dict_get_nonneg (d : Dict.t Z) k :
  Forall (fun p => 0 <= snd p) d -> 0 <= Dict.get d k 0.
Proof.
  intros H. apply (MarketFacts.Dict_get_forall (fun v => 0 <= v)); [|lia].
  intros k' v Hin. rewrite Forall_forall in H. exact (H (k', v) Hin).
Qed.

(** A loop over a dict (distinct keys) whose body only changes the entry of
    the current key acts pointwise. *)
Lemma fold_pointwise {A} (step : A -> string * Z -> A) (get : A -> string -> Z)
  (h : string -> Z -> Z -> Z) :
  (forall a k v k', get (step a (k, v)) k' =
                    if String.eqb k' k then h k v (get a k) else get a k') ->
  forall (l : Dict.t Z) a, NoDup (map fst l) -> forall k',
  get (fold_left step l a) k' =
    if Dict.mem l k' then h k' (Dict.get l k' 0) (get a k') else get a k'.
Proof.
  intros Hstep l. induction l as [|[k v] l IH]; intros a Hnd k'; simpl; [reflexivity|].
  inversion Hnd as [|? ? Hnotin Hnd']; subst.
  rewrite (IH _ Hnd'). rewrite !Hstep.
  destruct (String.eqb_spec k' k) as [->|Hne].
  - rewrite (Dict_mem_nodup l k Hnotin). reflexivity.
  - reflexivity.
Qed.

Lemma focus_step_get inventory ct a k v k' :
  Dict.get (fst (focus_step inventory ct a (k, v))) k' 0 =
  if String.eqb k' k then
    (let m := Z.max 0 (v * ct - Dict.get inventory k 0) in
     if 0 <? m then m else Dict.get (fst a) k 0)
  else Dict.get (fst a) k' 0.
Proof.
  destruct a as [q fi]. unfold focus_step. simpl.
  destruct (0 <? Z.max 0 (v * ct - Dict.get inventory k 0)) eqn:E; simpl.
  - rewrite Dict_get_set. reflexivity.
  - destruct (String.eqb_spec k' k) as [->|]; reflexivity.
Qed.

Lemma backup_step_get inventory bc fi a k v k' :
  Dict.get (fst (backup_step inventory bc fi a (k, v))) k' 0 =
  if String.eqb k' k then
    Dict.get (fst a) k 0 + Z.max 0 (v * bc - Dict.get inventory k 0 - Dict.get (fst a) k 0)
  else Dict.get (fst a) k' 0.
Proof.
  destruct a as [q bi]. unfold backup_step. simpl.
  destruct (0 <? Z.max 0 (v * bc - Dict.get inventory k 0 - Dict.get q k 0)) eqn:E; simpl.
  - rewrite Dict_get_set. reflexivity.
  - apply Z.ltb_ge in E. destruct (String.eqb_spec k' k) as [->|]; lia.
Qed.

End StrategyFacts.

(** ** Lemmas about the bid agent: no path raises *)
Module BidFacts.
Import Bid.

Lemma py_div_some x y : ~ (y == 0)%Q -> py_div x y = Some (x / y)%Q.
Proof.
  intros H. unfold py_div. destruct (Qeq_bool y 0) eqn:E; [|reflexivity].
  apply Qeq_bool_iff in E. contradiction.
Qed.

Lemma py_floordiv_some x y : ~ (y == 0)%Q -> py_floordiv x y <> None.
Proof.
  intros H. unfold py_floordiv. destruct (Qeq_bool y 0) eqn:E; [|discriminate].
  apply Qeq_bool_iff in E. contradiction.
Qed.

Lemma inject_Z_nonzero (n : Z) : n <> 0 -> ~ (inject_Z n == 0)%Q.
Proof. intros Hn H. apply Hn. change 0%Q with (inject_Z 0) in H. now apply inject_Z_injective. Qed.

Lemma pos_nonzero (x : Q) : (0 < x)%Q -> ~ (x == 0)%Q.
Proof. intros H E. rewrite E in H. apply (Qlt_irrefl 0). exact H. Qed.

Lemma opt_sum_some f (l : Dict.t Z) :
  (forall p, In p l -> f p <> None) -> opt_sum f l <> None.
Proof.
  unfold opt_sum. generalize 0%Q as a. revert f.
  induction l as [|p l IH]; intros f a Hf; simpl; [discriminate|].
  destruct (f p) eqn:E; [|exfalso; apply (Hf p); [now left | exact E]].
  apply IH. intros p0 Hp0; apply Hf; now right.
Qed.

Lemma budget_scale_some iq ct balance hints :
  budget_scale_quantities iq ct balance hints <> None.
Proof.
  unfold budget_scale_quantities.
  destruct ((ct <=? 0) || match iq with [] => true | _ => false end) eqn:Eg; [discriminate|].
  apply orb_false_iff in Eg. destruct Eg as [Ect _]. apply Z.leb_gt in Ect.
  destruct (opt_sum _ iq) as [cost|] eqn:Es.
  2:{ exfalso. revert Es. apply opt_sum_some. intros [ing qty] _.
      rewrite py_div_some by (apply inject_Z_nonzero; lia). discriminate. }
  destruct (Qle_bool cost 0); [discriminate|].
  destruct (Qltb 0 cost) eqn:Ec.
  - apply MarketFacts.Qltb_true in Ec.
    rewrite py_div_some.
    + destruct (Z.max 1 _ <=? 1); discriminate.
    + apply pos_nonzero. apply Qmult_lt_0_compat; [exact Ec|].
      change 0%Q with (inject_Z 0). rewrite <- Zlt_Qlt. exact Ect.
  - destruct (Z.max 1 _ <=? 1); discriminate.
Qed.

Lemma build_bids_legacy_some ings balance pc hints :
  build_bids_legacy ings balance pc hints <> None.
Proof.
  unfold build_bids_legacy.
  destruct (match ings with [] => true | _ => false end || Qle_bool balance 0) eqn:Eg;
    [discriminate|].
  apply orb_false_iff in Eg. destruct Eg as [Ei _].
  destruct ings as [|x xs]; [discriminate|].
  destruct (0 <? Z.min pc _) eqn:Ep.
  - apply Z.ltb_lt in Ep. rewrite py_div_some by (apply inject_Z_nonzero; lia).
    destruct (skipn _ _) as [|y ys] eqn:Es; [discriminate|].
    rewrite py_div_some by (apply inject_Z_nonzero; simpl; lia). discriminate.
  - rewrite py_div_some by (apply inject_Z_nonzero; simpl; lia). discriminate.
Qed.

Lemma recipe_bids_step_some bpr hints m r :
  m <> None -> recipe_bids_step bpr hints m r <> None.
Proof.
  intros Hm. unfold recipe_bids_step. destruct m as [m|]; [|contradiction].
  destruct (r_ingredients r) as [|p ps]; [discriminate|].
  destruct (Qltb 0 _) eqn:Ec; [|discriminate].
  apply MarketFacts.Qltb_true in Ec.
  destruct (py_floordiv bpr _) eqn:Ef; [discriminate|].
  exfalso. revert Ef. apply py_floordiv_some. now apply pos_nonzero.
Qed.

Lemma build_bids_from_recipes_some recipes balance hints :
  build_bids_from_recipes recipes balance hints <> None.
Proof.
  unfold build_bids_from_recipes.
  destruct (match recipes with [] => true | _ => false end || Qle_bool balance 0) eqn:Eg;
    [discriminate|].
  apply orb_false_iff in Eg. destruct Eg as [Ei _].
  destruct recipes as [|r rs]; [discriminate|].
  rewrite py_div_some by (apply inject_Z_nonzero; simpl; lia).
  assert (G : forall bpr l m0, m0 <> None -> fold_left (recipe_bids_step bpr hints) l m0 <> None).
  { intros bpr l. induction l as [|x l IH]; intros m0 Hm0; simpl; [exact Hm0|].
    apply IH. now apply recipe_bids_step_some. }
  match goal with |- context [fold_left ?f ?l ?a] =>
    destruct (fold_left f l a) eqn:E end; [discriminate|].
  exfalso. revert E. apply G. discriminate.
Qed.

Lemma plan_bids_some strat balance pref pc cat :
  plan_bids strat balance pref pc cat <> None.
Proof.
  unfold plan_bids.
  destruct (ingredient_quantities strat) as [|p ps].
  - destruct (simplest_recipes strat) as [|r rs].
    + apply build_bids_legacy_some.
    + apply build_bids_from_recipes_some.
  - destruct (budget_scale_quantities _ _ _ _) eqn:E; [discriminate|].
    exfalso. revert E. apply budget_scale_some.
Qed.

Lemma run_bid_agent_shape strat balance pref pc cat file :
  exists main, plan_bids strat balance pref pc cat = Some main /\
  run_bid_agent strat balance pref pc cat file =
    Some (match load_all_ingredients file with
          | [] => main
          | all => add_opportunistic_bids main all
          end).
Proof.
  destruct (plan_bids strat balance pref pc cat) as [main|] eqn:E.
  - exists main. split; [reflexivity|]. unfold run_bid_agent. rewrite E.
    destruct (load_all_ingredients file); reflexivity.
  - exfalso. revert E. apply plan_bids_some.
Qed.

End BidFacts.

(** ** Claims about the market agent *)
Module MarketClaims.
Import Examples Invariants.
Import Market MarketFacts.

(** C3 (budget cap and monotonicity): for every wish-list, every sequence
    of order-book snapshots with well-formed lots (non-negative price and
    quantity), every transaction outcome and every non-negative starting
    balance, the cumulative spend of the buy loop after each round is
    non-decreasing from round to round and never exceeds
    [balance * BUDGET_FRACTION] (0.7 of the balance); so is the cost of all
    purchased lots. *)
Theorem buy_loop_budget_cap (dry_run : bool) (markets : nat -> list entry)
  (exec_ok : nat -> entry -> bool) (to_buy0 vinv0 : Dict.t Z) (balance : Q) :
  (0 <= balance)%Q -> nonneg_lots markets ->
  let s := run_buy_loop dry_run markets exec_ok to_buy0 vinv0 balance in
  (forall i, cum_spend (firstn i (round_log s)) <= cum_spend (firstn (S i) (round_log s)))%Q /\
  (forall i, cum_spend (firstn i (round_log s)) <= balance * BUDGET_FRACTION)%Q /\
  (cost_sum (purchased_all s) == cum_spend (round_log s))%Q /\
  (cost_sum (purchased_all s) <= balance * BUDGET_FRACTION)%Q.
Proof.
  intros Hb Hnn s.
  destruct (run_buy_loop_inv dry_run markets exec_ok to_buy0 vinv0 balance Hb Hnn)
    as (I1 & I2 & I3 & I4).
  fold s in I1, I2, I3, I4.
  assert (Htot : (cost_sum (purchased_all s) == cum_spend (round_log s))%Q)
    by (unfold cum_spend; rewrite I2; reflexivity).
  repeat split.
  - intro i. apply cum_spend_firstn_mono; auto.
  - intro i.
    pose proof (cum_spend_firstn_mono (round_log s) I4 i (i + List.length (round_log s)) ltac:(lia)).
    rewrite (firstn_all2 (n := (i + List.length (round_log s))%nat)) in H by lia.
    unfold BUDGET_FRACTION in *. lra.
  - exact Htot.
  - exact I3.
Qed.

Lemma example_book_nonneg : nonneg_lots (fun _ => example_book).
Proof.
  intros r e H. simpl in H.
  destruct H as [<-|[<-|[<-|[]]]]; split; vm_compute; first [discriminate | lia].
Qed.

Lemma buy_loop_budget_cap_witness :
  (0 <= 100)%Q /\ nonneg_lots (fun _ => example_book) /\
  let s := run_buy_loop false (fun _ => example_book) (fun _ _ => true)
             [("Salt", 3); ("Pepper", 1)] [("Salt", 2)] 100 in
  (forall i, cum_spend (firstn i (round_log s)) <= cum_spend (firstn (S i) (round_log s)))%Q /\
  (forall i, cum_spend (firstn i (round_log s)) <= 100 * BUDGET_FRACTION)%Q /\
  (cost_sum (purchased_all s) == cum_spend (round_log s))%Q /\
  (cost_sum (purchased_all s) <= 100 * BUDGET_FRACTION)%Q.
Proof.
  split; [vm_compute; discriminate|]. split; [exact example_book_nonneg|].
  apply (buy_loop_budget_cap false (fun _ => example_book) (fun _ _ => true)
           [("Salt", 3); ("Pepper", 1)] [("Salt", 2)] 100).
  - vm_compute; discriminate.
  - exact example_book_nonneg.
Defined.

(** C5 (worked example): with inventory {Salt:2}, a recipe needing
    {Salt:5, Pepper:1} and one copy, the deficit is {Salt:3, Pepper:1};
    against the book [SELL Salt x3@2, SELL Salt x5@1, SELL Pepper x1@10]
    with budget 100 (the price cap [MAX_PRICE_PER_UNIT] is 80, at least 20)
    the matcher selects exactly Salt x5@1 and Pepper x1@10, for a spend of
    15, and after that round of purchases no ingredient is left uncovered. *)
Theorem worked_example_salt_pepper :
  let missing := compute_missing [[("Salt", 5); ("Pepper", 1)]] [("Salt", 2)] 1 in
  missing = [("Salt", 3); ("Pepper", 1)] /\
  (20 <= MAX_PRICE_PER_UNIT)%Q /\
  find_best_entries_st missing example_book 100 = (15%Q, [salt5_1; pepper1_10]) /\
  (cost_sum (find_best_entries missing example_book 100) == 15)%Q /\
  match buy_round false (fun _ => example_book) (fun _ _ => true) 1
          (mkBuyState missing [("Salt", 2)] 100 [] []) with
  | Stop s' | Continue s' =>
      purchased_all s' = [salt5_1; pepper1_10] /\
      to_buy s' = [("Salt", 0); ("Pepper", 0)] /\
      filter (fun p => 0 <? snd p) (to_buy s') = []
  end.
Proof. vm_compute. repeat split; try reflexivity; discriminate. Qed.

(** C7 (round termination): the buy loop fetches the order book at most
    [MAX_BUY_ROUNDS] = 5 times, in rounds numbered 1..5, for every wish-list,
    order-book sequence and transaction outcome; a round only hands over to
    the next one when it accepted at least one lot and the remaining budget
    is above 1 (so a round with zero acceptances, or an exhausted budget,
    ends the loop); and a round that starts with the deficit fully covered
    (no positive entry left) ends the loop without buying anything. *)
Theorem buy_loop_round_cap :
  (forall dry_run markets exec_ok to_buy0 vinv0 balance,
     let s := run_buy_loop dry_run markets exec_ok to_buy0 vinv0 balance in
     (List.length (round_log s) <= MAX_BUY_ROUNDS)%nat /\
     (forall p, In p (round_log s) -> (1 <= fst p <= MAX_BUY_ROUNDS)%nat)) /\
  (forall dry_run markets exec_ok r s s',
     buy_round dry_run markets exec_ok r s = Continue s' ->
     exists b, b <> [] /\ round_log s' = round_log s ++ [(r, b)] /\ (1 < budget s')%Q) /\
  (forall dry_run markets exec_ok r s,
     Forall (fun p => snd p <= 0) (to_buy s) ->
     exists s', buy_round dry_run markets exec_ok r s = Stop s' /\
       purchased_all s' = purchased_all s /\ to_buy s' = to_buy s).
Proof.
  split; [|split].
  - intros dry_run markets exec_ok to_buy0 vinv0 balance s. unfold s, run_buy_loop.
    destruct to_buy0 as [|x xs]; simpl; [split; [lia | intros p []]|].
    destruct (buy_rounds_log dry_run markets exec_ok (seq 1 MAX_BUY_ROUNDS)
                (mkBuyState (x :: xs) vinv0 (balance * BUDGET_FRACTION)%Q [] []))
      as [H1 H2].
    cbn [round_log List.length Nat.add] in H1, H2. rewrite length_seq in H1. split; [exact H1|].
    intros p Hp. destruct (H2 p Hp) as [[]|H]. apply in_seq in H. unfold MAX_BUY_ROUNDS in *. lia.
  - intros dry_run markets exec_ok r s s'. unfold buy_round.
    destruct (to_buy s) as [|x xs]; [discriminate|].
    destruct (find_best_entries (x :: xs) (markets r) (budget s)) as [|b0 bl]; [discriminate|].
    match goal with |- context [fold_left ?f ?l ?a] =>
      destruct (fold_left f l a) as [[[tb vinv] bud] bought] end.
    destruct bought as [|e bought]; [discriminate|].
    destruct (Qle_bool bud 1) eqn:Eb; [discriminate|].
    intros H; inversion H; subst; simpl. exists (e :: bought). repeat split; [discriminate|].
    apply Qnot_le_lt. intro Hle. apply Qle_bool_iff in Hle. congruence.
  - intros dry_run markets exec_ok r s Hf. unfold buy_round.
    destruct (to_buy s) as [|x xs] eqn:Et; [now exists s|].
    unfold find_best_entries. rewrite find_best_entries_covered by exact Hf.
    simpl. eexists; repeat split; simpl; auto.
Qed.

End MarketClaims.

(** ** Claims about strategy quantities and the legacy matcher *)
Module StrategyClaims.
Import Examples.
Import Strategy StrategyFacts.

(** C9 (no double counting, as amended): for focus and backup recipes with
    distinct, non-negative ingredient quantities, a non-negative inventory
    and [copies_target >= 1], the planned quantity of every ingredient is
    [max(0, max(need_focus, need_backup) - inventory)], because the backup's
    deficit is computed against inventory plus what is already planned for
    the focus recipe; hence it never exceeds [max(0, sum of needs -
    inventory)]. *)
Theorem no_double_counting (focus backup inventory : Dict.t Z) (ct : Z) :
  1 <= ct -> NoDup (map fst focus) -> NoDup (map fst backup) ->
  Forall (fun p => 0 <= snd p) focus -> Forall (fun p => 0 <= snd p) backup ->
  Forall (fun p => 0 <= snd p) inventory ->
  forall ing,
  let '(quantities, _, _) := build_ingredient_quantities focus (Some backup) inventory ct in
  let need_f := Dict.get focus ing 0 * ct in
  let need_b := Dict.get backup ing 0 * Z.max 1 (ct - 1) in
  let inv := Dict.get inventory ing 0 in
  Dict.get quantities ing 0 = Z.max 0 (Z.max need_f need_b - inv) /\
  Dict.get quantities ing 0 <= Z.max 0 (need_f + need_b - inv).
Proof.
  intros Hct Hndf Hndb Hf Hb Hi ing. unfold build_ingredient_quantities.
  pose proof (fold_pointwise (focus_step inventory ct) (fun a k => Dict.get (fst a) k 0)
    (fun k v old => let m := Z.max 0 (v * ct - Dict.get inventory k 0) in
                    if 0 <? m then m else old)
    (fun a k v k' => focus_step_get inventory ct a k v k') focus ([], []) Hndf ing) as HF.
  destruct (fold_left (focus_step inventory ct) focus ([], [])) as [q1 fi] eqn:E1.
  simpl in HF.
  pose proof (fold_pointwise (backup_step inventory (Z.max 1 (ct - 1)) fi)
    (fun a k => Dict.get (fst a) k 0)
    (fun k v old => old + Z.max 0 (v * Z.max 1 (ct - 1) - Dict.get inventory k 0 - old))
    (fun a k v k' => backup_step_get inventory (Z.max 1 (ct - 1)) fi a k v k')
    backup (q1, []) Hndb ing) as HB.
  destruct (fold_left (backup_step inventory (Z.max 1 (ct - 1)) fi) backup (q1, []))
    as [q2 bi] eqn:E2.
  simpl in HB |- *. rewrite HB, HF.
  pose proof (Dict_get_nonneg focus ing Hf).
  pose proof (Dict_get_nonneg backup ing Hb).
  pose proof (Dict_get_nonneg inventory ing Hi).
  assert (0 <= Dict.get focus ing 0 * ct) by nia.
  assert (0 <= Dict.get backup ing 0 * Z.max 1 (ct - 1)) by nia.
  destruct (Dict.mem focus ing) eqn:Mf; destruct (Dict.mem backup ing) eqn:Mb;
    try rewrite (Dict_mem_false_get focus ing 0 Mf) in *;
    try rewrite (Dict_mem_false_get backup ing 0 Mb) in *;
    cbv zeta;
    try (destruct (0 <? Z.max 0 (Dict.get focus ing 0 * ct - Dict.get inventory ing 0)) eqn:Ez;
         [apply Z.ltb_lt in Ez | apply Z.ltb_ge in Ez]);
    simpl; split; lia.
Qed.

Lemma no_double_counting_witness :
  let '(quantities, _, _) := build_ingredient_quantities [("X", 1)] (Some [("X", 2)]) [("X", 1)] 2 in
  let need_f := Dict.get [("X", 1)] "X" 0 * 2 in
  let need_b := Dict.get [("X", 2)] "X" 0 * Z.max 1 (2 - 1) in
  let inv := Dict.get [("X", 1)] "X" 0 in
  Dict.get quantities "X" 0 = Z.max 0 (Z.max need_f need_b - inv) /\
  Dict.get quantities "X" 0 <= Z.max 0 (need_f + need_b - inv).
Proof.
  apply (no_double_counting [("X", 1)] [("X", 2)] [("X", 1)] 2); simpl; try lia;
    repeat constructor; simpl; try lia; intros [].
Defined.

(** C9 as stated fails when the inventory already exceeds the needs: with
    inventory {X:10}, focus {X:1}, backup {X:1} and one copy, the planned
    quantity of X is 0, which exceeds 1 + 1 - 10. *)
Lemma no_double_counting_literal_fails :
  let '(quantities, _, _) :=
    build_ingredient_quantities [("X", 1)] (Some [("X", 1)]) [("X", 10)] 1 in
  ~ (Dict.get quantities "X" 0 <= 1 * 1 + 1 * Z.max 1 (1 - 1) - 10).
Proof. vm_compute. intro H. apply H. reflexivity. Qed.

(** C4: the matcher of src/market_agent.py counts a lot that overshoots the
    remaining deficit at [price * min(quantity, qty_left)] rather than at its
    full cost: needing 1 unit of A, with a balance of 10 (budget 7) and one
    lot A x10 @ 1, it accepts the whole lot (whose full cost 10 exceeds the
    budget) while counting a spend of 1; the hackapizza matcher, which
    counts the full cost, skips that lot under the same budget. *)
Theorem legacy_matcher_partial_cost :
  (fst (Legacy.find_best_entries_st [("A", 1%Z)] [lot_A10] 10) == 1)%Q /\
  snd (Legacy.find_best_entries_st [("A", 1%Z)] [lot_A10] 10) = [lot_A10] /\
  (entry_cost lot_A10 == 10)%Q /\ (10 * Legacy.BUDGET_FRACTION < 10)%Q /\
  Market.find_best_entries_st [("A", 1%Z)] [lot_A10] (10 * Market.BUDGET_FRACTION)%Q = (0%Q, []).
Proof. vm_compute. repeat split; reflexivity. Qed.

End StrategyClaims.

(** ** Claims about the bid agent *)
Module BidClaims.
Import Examples.
Import Bid BidFacts.

(** [MAX_SCALE = 1]: [_budget_scale_quantities] never changes the
    quantities. *)
Lemma budget_scale_identity iq ct balance hints :
  budget_scale_quantities iq ct balance hints = Some iq.
Proof.
  assert (Hs : forall d b, (Z.max 1 (Z.min (Z.min d b) MAX_SCALE) <=? 1) = true).
  { intros d b. apply Z.leb_le. unfold MAX_SCALE. lia. }
  pose proof (budget_scale_some iq ct balance hints) as Hn.
  revert Hn. unfold budget_scale_quantities.
  destruct (orb _ _); [intros Hn; congruence|].
  destruct (opt_sum _ iq) as [cost|]; [|intros Hn; congruence].
  destruct (Qle_bool cost 0); [intros Hn; congruence|].
  destruct (Qltb 0 cost).
  - destruct (py_div _ _); [|intros Hn; congruence]. rewrite Hs. intros Hn; congruence.
  - rewrite Hs. intros Hn; congruence.
Qed.

Lemma quantities_fold_nonpos (iq : Dict.t Z) hints acc :
  Forall (fun p => snd p <= 0) iq ->
  fold_left (fun bids '(ing, qty) =>
               if qty <=? 0 then bids else bids ++ [mkBid ing qty (unit_bid hints ing)])
            iq acc = acc.
Proof.
  intros H. revert acc. induction H as [|[ing q] l Hq Hl IH]; intros acc; simpl; [reflexivity|].
  simpl in Hq. replace (q <=? 0) with true by (symmetry; apply Z.leb_le; exact Hq).
  apply IH.
Qed.

(** C8 (degenerate planning, as amended): no planner path raises; the
    legacy and recipe-based planners return no bids when the balance is
    <= 0 or their ingredient/recipe input is empty; the quantity-based path
    returns no bids when no strategy quantity is positive (whatever the
    balance), and with no strategy quantities a balance <= 0 or an empty
    recipe and ingredient input gives an empty plan.  The batch
    [run_bid_agent] builds is always that plan followed by the opportunistic
    bids of the ingredient list. *)
Theorem degenerate_planning :
  (forall ings balance pc hints, (ings = [] \/ (balance <= 0)%Q) ->
     build_bids_legacy ings balance pc hints = Some []) /\
  (forall recipes balance hints, (recipes = [] \/ (balance <= 0)%Q) ->
     build_bids_from_recipes recipes balance hints = Some []) /\
  (forall iq hints, Forall (fun p => snd p <= 0) iq ->
     build_bids_from_quantities iq hints = []) /\
  (forall strat balance pref pc cat,
     Forall (fun p => snd p <= 0) (ingredient_quantities strat) ->
     (ingredient_quantities strat <> [] \/ (balance <= 0)%Q \/
      (simplest_recipes strat = [] /\
       match pref with Some l => l | None => cat end = [])) ->
     plan_bids strat balance pref pc cat = Some []) /\
  (forall strat balance pref pc cat file,
     plan_bids strat balance pref pc cat <> None /\
     exists main, plan_bids strat balance pref pc cat = Some main /\
     run_bid_agent strat balance pref pc cat file =
       Some (match load_all_ingredients file with
             | [] => main
             | all => add_opportunistic_bids main all
             end)).
Proof.
  assert (Hleg : forall ings balance pc hints, (ings = [] \/ (balance <= 0)%Q) ->
            build_bids_legacy ings balance pc hints = Some []).
  { intros ings balance pc hints H. unfold build_bids_legacy.
    destruct H as [->|H]; [reflexivity|].
    apply Qle_bool_iff in H. rewrite H, orb_true_r. reflexivity. }
  assert (Hrec : forall recipes balance hints, (recipes = [] \/ (balance <= 0)%Q) ->
            build_bids_from_recipes recipes balance hints = Some []).
  { intros recipes balance hints H. unfold build_bids_from_recipes.
    destruct H as [->|H]; [reflexivity|].
    apply Qle_bool_iff in H. rewrite H, orb_true_r. reflexivity. }
  assert (Hq : forall iq hints, Forall (fun p => snd p <= 0) iq ->
            build_bids_from_quantities iq hints = []).
  { intros iq hints H. unfold build_bids_from_quantities.
    apply quantities_fold_nonpos. exact H. }
  split; [exact Hleg|]. split; [exact Hrec|]. split; [exact Hq|]. split.
  - intros strat balance pref pc cat Hnp H. unfold plan_bids.
    destruct (ingredient_quantities strat) as [|p ps] eqn:Eiq.
    + destruct H as [H|[H|[Hr Hp]]]; [contradiction|..].
      * destruct (simplest_recipes strat); [apply Hleg | apply Hrec]; now right.
      * rewrite Hr. apply Hleg. now left.
    + rewrite budget_scale_identity, <- Eiq. f_equal. apply Hq. rewrite Eiq. exact Hnp.
  - intros strat balance pref pc cat file. split; [apply plan_bids_some|].
    apply run_bid_agent_shape.
Qed.

Lemma degenerate_planning_witness :
  build_bids_legacy [] 0 1 [] = Some [] /\
  build_bids_from_recipes [mkRecipe "R" 1 [("Salt", 1)]] 0 [] = Some [] /\
  build_bids_from_quantities [("Salt", 0)] [] = [] /\
  plan_bids no_strategy 0 (Some ["Salt"]) 1 [] = Some [].
Proof.
  destruct degenerate_planning as [H1 [H2 [H3 [H4 _]]]].
  split; [apply H1; now left|]. split; [apply H2; right; vm_compute; discriminate|].
  split; [apply H3; repeat constructor; simpl; lia|].
  apply H4; [constructor | right; left; vm_compute; discriminate].
Defined.

(** C8, literal reading: at balance 0 the submitted batch is not empty,
    both through the opportunistic bids (no strategy, ingredient file
    listing Salt) and through the quantity-based path (strategy quantity
    Salt:1, no ingredient file). *)
Lemma degenerate_planning_literal_fails :
  run_bid_agent no_strategy 0 (Some []) 0 [] (Some ["Salt"]) = Some [mkBid "Salt" 3 2] /\
  run_bid_agent salt_quantities 0 (Some []) 0 [] None = Some [mkBid "Salt" 1 20].
Proof. split; vm_compute; reflexivity. Qed.

(** C10 (opportunistic blanket bids): when the ingredient file lists at
    least one ingredient, whatever the strategy and the balance, the batch
    is the plan followed by a bid of quantity 3 at unit price 2 for each
    listed ingredient the plan does not already bid on; every listed
    ingredient then has a bid in the batch, which is therefore non-empty. *)
Theorem opportunistic_blanket_bids strat balance pref pc cat lines :
  load_all_ingredients (Some lines) <> [] ->
  exists main,
    plan_bids strat balance pref pc cat = Some main /\
    run_bid_agent strat balance pref pc cat (Some lines) =
      Some (add_opportunistic_bids main (load_all_ingredients (Some lines))) /\
    (forall ing, In ing (load_all_ingredients (Some lines)) ->
       ~ In ing (map b_ingredient main) ->
       In (mkBid ing OPPORTUNISTIC_QTY OPPORTUNISTIC_BID)
          (add_opportunistic_bids main (load_all_ingredients (Some lines)))) /\
    (forall ing, In ing (load_all_ingredients (Some lines)) ->
       exists b, In b (add_opportunistic_bids main (load_all_ingredients (Some lines))) /\
                 b_ingredient b = ing) /\
    add_opportunistic_bids main (load_all_ingredients (Some lines)) <> [].
Proof.
  intros Hne.
  destruct (run_bid_agent_shape strat balance pref pc cat (Some lines)) as [main [Hp Hr]].
  assert (Hnew : forall ing, In ing (load_all_ingredients (Some lines)) ->
            ~ In ing (map b_ingredient main) ->
            In (mkBid ing OPPORTUNISTIC_QTY OPPORTUNISTIC_BID)
               (add_opportunistic_bids main (load_all_ingredients (Some lines)))).
  { intros ing Hin Hnot. unfold add_opportunistic_bids. apply in_or_app. right.
    apply in_map_iff. exists ing. split; [reflexivity|].
    apply filter_In. split; [exact Hin|].
    destruct (existsb (String.eqb ing) (map b_ingredient main)) eqn:E; [|reflexivity].
    exfalso. apply existsb_exists in E. destruct E as [x [Hx Ex]].
    apply String.eqb_eq in Ex. subst x. contradiction. }
  exists main. split; [exact Hp|]. split.
  - rewrite Hr. destruct (load_all_ingredients (Some lines)); [contradiction|reflexivity].
  - split; [exact Hnew|]. split.
    + intros ing Hin. destruct (in_dec String.string_dec ing (map b_ingredient main)) as [Hm|Hm].
      * apply in_map_iff in Hm. destruct Hm as [b [Eb Hb]]. exists b. split; [|exact Eb].
        unfold add_opportunistic_bids. apply in_or_app. now left.
      * eexists. split; [exact (Hnew ing Hin Hm)|reflexivity].
    + destruct (load_all_ingredients (Some lines)) as [|ing r] eqn:El; [contradiction|].
      intros E. destruct (in_dec String.string_dec ing (map b_ingredient main)) as [Hm|Hm].
      * apply in_map_iff in Hm. destruct Hm as [b [_ Hb]].
        unfold add_opportunistic_bids in E. apply app_eq_nil in E.
        destruct E as [E _]. rewrite E in Hb. exact Hb.
      * assert (Hi : In ing (ing :: r)) by now left.
        pose proof (Hnew ing Hi Hm) as H. rewrite E in H. exact H.
Qed.

Lemma opportunistic_blanket_bids_witness :
  exists main,
    plan_bids no_strategy 0 (Some []) 0 [] = Some main /\
    run_bid_agent no_strategy 0 (Some []) 0 [] (Some [" Salt "; ""; "Pepper"]) =
      Some (add_opportunistic_bids main (load_all_ingredients (Some [" Salt "; ""; "Pepper"]))) /\
    (forall ing, In ing (load_all_ingredients (Some [" Salt "; ""; "Pepper"])) ->
       ~ In ing (map b_ingredient main) ->
       In (mkBid ing OPPORTUNISTIC_QTY OPPORTUNISTIC_BID)
          (add_opportunistic_bids main (load_all_ingredients (Some [" Salt "; ""; "Pepper"])))) /\
    (forall ing, In ing (load_all_ingredients (Some [" Salt "; ""; "Pepper"])) ->
       exists b, In b (add_opportunistic_bids main
                        (load_all_ingredients (Some [" Salt "; ""; "Pepper"]))) /\
                 b_ingredient b = ing) /\
    add_opportunistic_bids main (load_all_ingredients (Some [" Salt "; ""; "Pepper"])) <> [].
Proof.
  apply opportunistic_blanket_bids. vm_compute. discriminate.
Defined.

End BidClaims.

(** ** Lemmas about the orchestrator's task store *)
Module OrchFacts.
Import Invariants.
Import Orchestrator.

Lemma handler_live_hl s i :
  handler_live s i = match nth_error (tasks s) i with Some t => hl t | None => false end.
Proof. reflexivity. Qed.

Lemma nth_upd {A} (l : list A) i f k :
  nth_error (upd_nth i f l) k =
  if Nat.eqb i k then option_map f (nth_error l k) else nth_error l k.
Proof.
  revert i k. induction l as [|x l IH]; intros i k.
  - destruct i, k; simpl; try destruct (Nat.eqb i k); reflexivity.
  - destruct i, k; simpl; try reflexivity. apply IH.
Qed.

Lemma Mono_refl s : Mono s s.
Proof. intros k H; exact H. Qed.

Lemma Mono_trans s1 s2 s3 : Mono s1 s2 -> Mono s2 s3 -> Mono s1 s3.
Proof. unfold Mono; auto. Qed.

Lemma SameShape_refl s : SameShape s s.
Proof. intros i t H; exists t; auto. Qed.

Lemma SameShape_trans s1 s2 s3 : SameShape s1 s2 -> SameShape s2 s3 -> SameShape s1 s3.
Proof.
  intros H12 H23 i t H. destruct (H12 i t H) as [t2 [E2 P2]].
  destruct (H23 i t2 E2) as [t3 [E3 P3]]. exists t3. split; congruence.
Qed.

Lemma update_mono s i f :
  (forall t, nth_error (tasks s) i = Some t -> hl (f t) = true -> hl t = true) ->
  Mono s (update_task s i f).
Proof.
  intros Hf k. rewrite !handler_live_hl. unfold update_task, with_tasks; simpl.
  rewrite nth_upd. destruct (Nat.eqb_spec i k) as [->|_]; [|auto].
  destruct (nth_error (tasks s) k) as [t|] eqn:E; simpl; [|auto]. apply Hf. reflexivity.
Qed.

Lemma update_shape s i f :
  (forall t, t_pc (f t) = t_pc t) -> SameShape s (update_task s i f).
Proof.
  intros Hf k t E. unfold update_task, with_tasks; simpl. rewrite nth_upd, E.
  destruct (Nat.eqb i k); simpl; eexists; split; try reflexivity. apply Hf.
Qed.

Lemma mark_mono s i f :
  (forall t, t_cancel_requested (f t) = true) -> Mono s (update_task s i f).
Proof.
  intros Hf. apply update_mono. intros t _. unfold hl. rewrite Hf.
  rewrite andb_false_r. discriminate.
Qed.

Lemma request_cancel_mono s j : Mono s (request_cancel s j).
Proof.
  unfold request_cancel. destruct (nth_error (tasks s) j); [|apply Mono_refl].
  destruct (done t); [apply Mono_refl|]. apply mark_mono. reflexivity.
Qed.

Lemma request_cancel_shape s j : SameShape s (request_cancel s j).
Proof.
  unfold request_cancel. destruct (nth_error (tasks s) j); [|apply SameShape_refl].
  destruct (done t); [apply SameShape_refl|]. apply update_shape. reflexivity.
Qed.

Lemma cancel_mono s i : Mono s (cancel s i).
Proof.
  unfold cancel. destruct (nth_error (tasks s) i) as [t|]; [|apply Mono_refl].
  destruct (done t); [apply Mono_refl|].
  destruct (t_pc t); try (apply mark_mono; reflexivity).
  apply Mono_trans with
    (update_task s i (fun t => mkTask (t_kind t) (t_pc t) true (t_must_cancel t)));
    [apply mark_mono; reflexivity|].
  destruct (task_done _ j); [apply mark_mono; reflexivity | apply request_cancel_mono].
Qed.

Lemma cancel_shape s i : SameShape s (cancel s i).
Proof.
  unfold cancel. destruct (nth_error (tasks s) i) as [t|]; [|apply SameShape_refl].
  destruct (done t); [apply SameShape_refl|].
  destruct (t_pc t); try (apply update_shape; reflexivity).
  apply SameShape_trans with
    (update_task s i (fun t => mkTask (t_kind t) (t_pc t) true (t_must_cancel t)));
    [apply update_shape; reflexivity|].
  destruct (task_done _ j); [apply update_shape; reflexivity | apply request_cancel_shape].
Qed.

Lemma live_not_done s i : handler_live s i = true -> task_done s i = false.
Proof.
  rewrite handler_live_hl. unfold task_done, hl.
  destruct (nth_error (tasks s) i) as [t|]; [|discriminate].
  destruct (done t); [rewrite andb_false_r; discriminate | reflexivity].
Qed.

(** After [task.cancel()] the task is done or asked to cancel. *)
Lemma cancel_kills s i : handler_live (cancel s i) i = false.
Proof.
  destruct (handler_live (cancel s i) i) eqn:E; [|reflexivity].
  assert (Hs := E). apply cancel_mono in Hs. unfold cancel in E.
  assert (Hn := Hs). rewrite handler_live_hl in Hn.
  destruct (nth_error (tasks s) i) as [t|] eqn:Et; [|discriminate].
  apply live_not_done in Hs. unfold task_done in Hs. rewrite Et in Hs. rewrite Hs in E.
  set (mk := fun t : task => mkTask (t_kind t) (t_pc t) true true).
  assert (Hm : forall s0 f, (forall t, t_cancel_requested (f t) = true) ->
                 handler_live (update_task s0 i f) i = false).
  { intros s0 f Hf. rewrite handler_live_hl. unfold update_task, with_tasks; simpl.
    rewrite nth_upd, Nat.eqb_refl. destruct (nth_error (tasks s0) i); [|reflexivity].
    simpl. unfold hl. rewrite Hf, andb_false_r. reflexivity. }
  destruct (t_pc t); try (rewrite Hm in E; [discriminate | reflexivity]).
  destruct (task_done _ j).
  - rewrite Hm in E; [discriminate | reflexivity].
  - apply request_cancel_mono in E. rewrite Hm in E; [discriminate | reflexivity].
Qed.

Lemma create_other_mono s k : is_handler k = false -> Mono s (fst (create_task s k)).
Proof.
  intros Hk j. rewrite !handler_live_hl. unfold create_task, with_tasks; simpl.
  destruct (Nat.lt_ge_cases j (List.length (tasks s))) as [Hl|Hl].
  - rewrite nth_error_app1 by exact Hl. auto.
  - rewrite nth_error_app2 by exact Hl. rewrite (proj2 (nth_error_None (tasks s) j) Hl).
    destruct (j - List.length (tasks s))%nat as [|[|m]]; simpl; unfold hl; simpl;
      try rewrite Hk; auto.
Qed.

Lemma create_handler s p j :
  handler_live (fst (create_task s (Handler p))) j = true ->
  j = snd (create_task s (Handler p)) \/ handler_live s j = true.
Proof.
  rewrite !handler_live_hl. unfold create_task, with_tasks; simpl.
  destruct (Nat.lt_ge_cases j (List.length (tasks s))) as [Hl|Hl].
  - rewrite nth_error_app1 by exact Hl. auto.
  - rewrite nth_error_app2 by exact Hl.
    destruct (j - List.length (tasks s))%nat as [|m] eqn:Ej; simpl.
    + intros _. left. lia.
    + destruct m; discriminate.
Qed.

Lemma create_shape s k : SameShape s (fst (create_task s k)).
Proof.
  intros i t E. exists t. split; [|reflexivity]. simpl.
  rewrite nth_error_app1; [exact E|]. apply nth_error_Some. congruence.
Qed.

Lemma set_pc_mono s i p mc :
  (forall t, nth_error (tasks s) i = Some t -> done t = false) ->
  Mono s (set_pc s i p mc).
Proof.
  intros H. apply update_mono. intros t Et. unfold hl; simpl. rewrite (H t Et).
  destruct (is_handler (t_kind t)), (done _), (t_cancel_requested t); auto.
Qed.

Lemma shape_not_done s s' i t :
  SameShape s s' -> nth_error (tasks s) i = Some t -> t_pc t <> Finished ->
  forall t', nth_error (tasks s') i = Some t' -> done t' = false.
Proof.
  intros Hs E Hp t' E'. destruct (Hs i t E) as [t2 [E2 P2]].
  rewrite E' in E2. injection E2 as <-. unfold done. rewrite P2.
  destruct (t_pc t); [reflexivity | reflexivity | reflexivity | congruence].
Qed.

(** A scheduler step makes no task a live phase handler and leaves
    [_running_task] alone. *)
Lemma step_mono s i : Mono s (step_task s i) /\ _running_task (step_task s i) = _running_task s.
Proof.
  unfold step_task. destruct (nth_error (tasks s) i) as [t|] eqn:Et;
    [|split; [apply Mono_refl | reflexivity]].
  assert (Hnd : forall s', SameShape s s' -> t_pc t <> Finished ->
                  forall p mc, Mono s' (set_pc s' i p mc)).
  { intros s' Hs Hp p mc. apply set_pc_mono. eapply shape_not_done; eauto. }
  destruct (t_pc t) eqn:Ep.
  - destruct (t_must_cancel t).
    { split; [apply Hnd; [exact (SameShape_refl s) | congruence] | reflexivity]. }
    destruct (t_kind t) as [ph|].
    + destruct ph.
      * (* speaking *)
        set (s1 := match _strategy_task s with
                   | Some j => if task_done s j then s else cancel s j
                   | None => s end).
        assert (M1 : Mono s s1 /\ SameShape s s1 /\ _running_task s1 = _running_task s).
        { unfold s1. destruct (_strategy_task s) as [j|];
            [destruct (task_done s j)|];
            try (split; [apply Mono_refl | split; [apply SameShape_refl | reflexivity]]).
          split; [apply cancel_mono | split; [apply cancel_shape|]].
          unfold cancel. destruct (nth_error (tasks s) j); [|reflexivity].
          destruct (done t0); [reflexivity|]. destruct (t_pc t0); try reflexivity.
          destruct (task_done _ j0); [reflexivity|]. unfold request_cancel.
          destruct (nth_error _ j0); [|reflexivity]. destruct (done t1); reflexivity. }
        destruct M1 as [M1 [S1 R1]]. fold s1.
        destruct (create_task s1 StrategyAgent) as [s2 j] eqn:Ec.
        assert (M2 : Mono s1 s2) by
          (replace s2 with (fst (create_task s1 StrategyAgent)) by (rewrite Ec; reflexivity);
           apply create_other_mono; reflexivity).
        assert (S2 : SameShape s1 s2) by
          (replace s2 with (fst (create_task s1 StrategyAgent)) by (rewrite Ec; reflexivity);
           apply create_shape).
        assert (R2 : _running_task s2 = _running_task s1) by
          (injection Ec as <- _; reflexivity).
        split; [|unfold set_pc, update_task, with_tasks; simpl; congruence].
        eapply Mono_trans; [exact M1|]. eapply Mono_trans; [exact M2|].
        change (Mono (with_strategy s2 (Some j)) (set_pc (with_strategy s2 (Some j)) i Awaiting false)).
        apply Hnd; [|congruence].
        eapply SameShape_trans; [exact S1|]. exact S2.
      * destruct (_strategy_task s) as [j|]; [destruct (task_done s j)|];
          (split; [|reflexivity]);
          change (Mono (with_strategy s None) (set_pc (with_strategy s None) i Awaiting false))
          || idtac;
          (apply Hnd; [exact (SameShape_refl s) | congruence]).
      * split; [apply Hnd; [exact (SameShape_refl s) | congruence] | reflexivity].
      * split; [|reflexivity].
        change (Mono (with_in_serving s true) (set_pc (with_in_serving s true) i Awaiting false)).
        apply Hnd; [exact (SameShape_refl s) | congruence].
      * split; [|reflexivity].
        change (Mono (with_in_serving s false) (set_pc (with_in_serving s false) i Awaiting false)).
        apply Hnd; [exact (SameShape_refl s) | congruence].
    + split; [apply Hnd; [exact (SameShape_refl s) | congruence] | reflexivity].
  - assert (G : Mono s (set_pc (with_strategy s None) i Awaiting false) /\
                _running_task (set_pc (with_strategy s None) i Awaiting false) = _running_task s).
    { split; [|reflexivity].
      change (Mono (with_strategy s None) (set_pc (with_strategy s None) i Awaiting false)).
      apply Hnd; [exact (SameShape_refl s) | congruence]. }
    destruct (t_must_cancel t); [exact G|].
    destruct (task_done s j); [exact G|]. split; [apply Mono_refl | reflexivity].
  - split; [apply Hnd; [exact (SameShape_refl s) | congruence] | reflexivity].
  - split; [apply Mono_refl | reflexivity].
Qed.

Lemma cancel_running_none s :
  Inv s -> forall k, handler_live (_cancel_running s) k = false.
Proof.
  intros HI k. destruct (handler_live (_cancel_running s) k) eqn:E; [|reflexivity].
  exfalso. unfold _cancel_running in E.
  destruct (_running_task s) as [i|] eqn:Er.
  - destruct (task_done s i) eqn:Ed.
    + change (handler_live s k = true) in E. assert (Hk := HI k E).
      rewrite Er in Hk. injection Hk as ->. apply live_not_done in E. congruence.
    + change (handler_live (cancel s i) k = true) in E.
      assert (Hk := HI k (cancel_mono s i k E)). rewrite Er in Hk. injection Hk as ->.
      rewrite cancel_kills in E. discriminate.
  - change (handler_live s k = true) in E. apply HI in E. congruence.
Qed.

Lemma run_inv s p : Inv s -> Inv (_run s p).
Proof.
  intros HI k. unfold _run.
  destruct (create_task (_cancel_running s) (Handler p)) as [s2 i] eqn:Ec.
  change (handler_live s2 k = true -> Some i = Some k).
  intros H.
  assert (H' : handler_live (fst (create_task (_cancel_running s) (Handler p))) k = true)
    by (rewrite Ec; exact H).
  destruct (create_handler _ _ _ H') as [->|Hl].
  - rewrite Ec. reflexivity.
  - rewrite cancel_running_none in Hl by exact HI. discriminate.
Qed.

Lemma handle_inv s e : Inv s -> Inv (handle_event s e).
Proof.
  intros HI. destruct e as [n|p n| |i]; simpl.
  - exact HI.
  - unfold on_game_phase_changed.
    assert (HI1 : Inv (match n with Some n => with_turn s n | None => s end))
      by (destruct n; exact HI).
    destruct (PHASE_HANDLERS p); [apply run_inv; exact HI1 | exact HI1].
  - intros k Hk. unfold on_game_reset in Hk.
    rewrite cancel_running_none in Hk; [discriminate|]. exact HI.
  - intros k Hk. destruct (step_mono s i) as [M R]. rewrite R. apply HI, M, Hk.
Qed.

Lemma run_events_inv evs s : Inv s -> Inv (run_events s evs).
Proof.
  revert s. induction evs as [|e evs IH]; intros s HI; simpl; [exact HI|].
  apply IH, handle_inv, HI.
Qed.

Lemma init_inv : Inv init.
Proof. intros [|k]; discriminate. Qed.

End OrchFacts.

(** ** Claims about the orchestrator *)
Module OrchClaims.
Import Invariants Orchestrator OrchFacts.

Lemma upd_length {A} i (f : A -> A) l : List.length (upd_nth i f l) = List.length l.
Proof.
  revert i. induction l as [|x l IH]; intros [|i]; simpl; try reflexivity. now rewrite IH.
Qed.

Lemma cancel_length s i : List.length (tasks (cancel s i)) = List.length (tasks s).
Proof.
  unfold cancel. destruct (nth_error (tasks s) i) as [t|]; [|reflexivity].
  destruct (done t); [reflexivity|].
  destruct (t_pc t); simpl; try apply upd_length.
  destruct (task_done _ j); simpl; rewrite ?upd_length; [reflexivity|].
  unfold request_cancel. destruct (nth_error _ j); simpl; [|apply upd_length].
  destruct (done t0); simpl; rewrite ?upd_length; reflexivity.
Qed.

Lemma cancel_running_length s :
  List.length (tasks (_cancel_running s)) = List.length (tasks s).
Proof.
  unfold _cancel_running. destruct (_running_task s) as [i|]; [|reflexivity].
  destruct (task_done s i); [reflexivity|]. apply cancel_length.
Qed.

(** C1 (single flight, as amended): [_run] asks the handler task it tracks
    to cancel, when that task is not done, stops tracking it, and starts the
    new handler, without awaiting the cancellation.  For every sequence of
    events from the initial state, every phase-handler task that is neither
    done nor asked to cancel is the one [_running_task] tracks, so there is
    at most one; and a phase change with a known phase tracks a fresh
    handler task while every other handler task is done or asked to
    cancel. *)
Theorem single_flight_cancel_requested (evs : list event) :
  let s := run_events init evs in
  (forall k, handler_live s k = true -> _running_task s = Some k) /\
  (forall k l, handler_live s k = true -> handler_live s l = true -> k = l) /\
  (forall p n ph, PHASE_HANDLERS p = Some ph ->
     let s' := on_game_phase_changed s p n in
     _running_task s' = Some (List.length (tasks s)) /\
     nth_error (tasks s') (List.length (tasks s)) = Some (mkTask (Handler ph) Start false false) /\
     (forall k, k <> List.length (tasks s) -> handler_live s' k = false)).
Proof.
  intros s. assert (HI : Inv s) by (apply run_events_inv, init_inv).
  split; [exact HI|]. split.
  - intros k l Hk Hl. apply HI in Hk. apply HI in Hl. congruence.
  - intros p n ph Hp s'.
    assert (HI' : Inv s') by (apply (handle_inv s (PhaseChanged p n)), HI).
    set (s1 := match n with Some n => with_turn s n | None => s end).
    assert (E : s' = _run s1 ph) by (unfold s', on_game_phase_changed; fold s1; rewrite Hp; reflexivity).
    assert (L : List.length (tasks (_cancel_running s1)) = List.length (tasks s))
      by (rewrite cancel_running_length; unfold s1; destruct n; reflexivity).
    assert (R : _running_task s' = Some (List.length (tasks s))).
    { rewrite E. unfold _run, create_task. simpl. now rewrite L. }
    split; [exact R|]. split.
    + rewrite E. unfold _run, create_task. simpl. rewrite <- L.
      rewrite nth_error_app2 by lia. rewrite Nat.sub_diag. reflexivity.
    + intros k Hk. destruct (handler_live s' k) eqn:Hl; [|reflexivity].
      apply HI' in Hl. congruence.
Qed.

(** C1 as stated fails.  Two phase changes in a row leave two phase-handler
    tasks not done: the first is only asked to cancel when the second is
    created.  And a [closed_bid] handler cancelled while it awaits
    [_strategy_task] catches the [CancelledError] and goes on to
    [run_bid_agent] while the next phase's handler is live. *)
Lemma single_flight_literal_fails :
  count_active_handlers
    (run_events init [PhaseChanged "speaking" None; PhaseChanged "closed_bid" None]) = 2%nat /\
  let s := run_events init [PhaseChanged "speaking" None; SchedStep 0;
                            PhaseChanged "closed_bid" None; SchedStep 2;
                            PhaseChanged "waiting" None; SchedStep 1; SchedStep 2] in
  nth_error (tasks s) 2 = Some (mkTask (Handler ClosedBid) Awaiting true false) /\
  handler_live s 3 = true /\ count_active_handlers s = 3%nat.
Proof. vm_compute. repeat split; reflexivity. Qed.

Lemma reset_kills s : forall i, _running_task s = Some i -> handler_live (on_game_reset s) i = false.
Proof.
  intros i Hi. unfold on_game_reset, _cancel_running. simpl. rewrite Hi.
  destruct (task_done (with_turn s 0) i) eqn:Ed.
  - change (handler_live s i = false). destruct (handler_live s i) eqn:E; [|reflexivity].
    apply live_not_done in E. change (task_done s i = true) in Ed. congruence.
  - change (handler_live (cancel (with_turn s 0) i) i = false). apply cancel_kills.
Qed.

(** C6 (reset): [on_game_reset] sets the turn id to 0 and cancels the
    tracked handler task, but leaves [_strategy_task] and [_in_serving] as
    they were: after [speaking] has started the speculative strategy task,
    a reset leaves that task running (not asked to cancel) and still
    referenced by [_strategy_task]. *)
Theorem reset_keeps_strategy_task :
  (forall s,
     current_turn_id (on_game_reset s) = 0 /\
     _running_task (on_game_reset s) = None /\
     _strategy_task (on_game_reset s) = _strategy_task s /\
     _in_serving (on_game_reset s) = _in_serving s /\
     (forall i, _running_task s = Some i -> handler_live (on_game_reset s) i = false)) /\
  let s := run_events init [PhaseChanged "speaking" (Some 1); SchedStep 0; GameReset] in
  current_turn_id s = 0 /\ _running_task s = None /\
  _strategy_task s = Some 1%nat /\
  nth_error (tasks s) 1 = Some (mkTask StrategyAgent Start false false).
Proof.
  split.
  - intros s. assert (G : forall s0, current_turn_id (_cancel_running s0) = current_turn_id s0 /\
                             _running_task (_cancel_running s0) = None /\
                             _strategy_task (_cancel_running s0) = _strategy_task s0 /\
                             _in_serving (_cancel_running s0) = _in_serving s0).
    { intros s0. unfold _cancel_running. destruct (_running_task s0) as [i|]; [|auto].
      destruct (task_done s0 i); [auto|]. simpl.
      unfold cancel. destruct (nth_error (tasks s0) i); [|auto].
      destruct (done t); [auto|]. destruct (t_pc t); auto.
      destruct (task_done _ j); [auto|]. unfold request_cancel.
      destruct (nth_error _ j); [|auto]. destruct (done t0); auto. }
    destruct (G (with_turn s 0)) as (G1 & G2 & G3 & G4).
    split; [exact G1|]. split; [exact G2|]. split; [exact G3|]. split; [exact G4|].
    apply reset_kills.
  - vm_compute. repeat split; reflexivity.
Qed.

End OrchClaims.

(** ** Claims about the event-stream loops *)
Module StreamClaims.
Import Stream.

(** C2 (reconnect, as amended): [listen_loop] of src/orchestrator.py
    reconnects after every end of a connection that is not a cancellation
    ([aiohttp.ClientError], any other [Exception], a clean server close),
    sleeping a fixed 5 seconds before each new connection, with no bound on
    the number of connections; it stops only at a cancellation. *)
Theorem listen_loop_reconnects (pre post : list outcome) :
  existsb is_cancelled pre = false ->
  listen_loop pre = (reconnects pre, false) /\
  listen_loop (pre ++ Cancelled :: post) = (reconnects pre ++ [Connect], true).
Proof.
  intros H. induction pre as [|o pre IH]; [split; reflexivity|].
  simpl in H. apply orb_false_iff in H. destruct H as [Ho H].
  destruct (IH H) as [IH1 IH2].
  destruct o; try discriminate; simpl; rewrite IH1, IH2; split; reflexivity.
Qed.

Lemma listen_loop_reconnects_witness :
  listen_loop [ClientErr; OtherExc; CleanClose] = (reconnects [ClientErr; OtherExc; CleanClose], false) /\
  listen_loop ([ClientErr; OtherExc; CleanClose] ++ Cancelled :: [ClientErr]) =
    (reconnects [ClientErr; OtherExc; CleanClose] ++ [Connect], true).
Proof. apply listen_loop_reconnects. reflexivity. Defined.

(** C2 as stated fails for src/hackapizza/orchestrator.py: its [main]
    ends with the first connection, whether the server closes it or the
    connection fails, without reconnecting. *)
Lemma stream_reconnect_literal_fails :
  hackapizza_main [CleanClose; CleanClose] = ([Connect], true) /\
  hackapizza_main [ClientErr; CleanClose] = ([Connect], true).
Proof. split; reflexivity. Qed.

End StreamClaims.

Module PlanFacts.
Import MarketPlan Measures.

Lemma Dict_mem_set {V} (d : Dict.t V) k v k' :
  Dict.mem (Dict.set d k v) k' = (String.eqb k' k || Dict.mem d k')%bool.
Proof.
  induction d as [|[k0 v0] d IH]; simpl.
  - destruct (String.eqb k' k); reflexivity.
  - destruct (String.eqb_spec k k0) as [->|Hne]; simpl.
    + destruct (String.eqb k' k0); reflexivity.
    + rewrite IH. destruct (String.eqb_spec k' k0) as [->|]; [|reflexivity].
      destruct (String.eqb k0 k); reflexivity.
Qed.

Lemma Dict_find_get (d : Dict.t Z) k :
  Dict.mem d k = true -> Dict.find d k = Some (Dict.get d k 0).
Proof.
  induction d as [|[k0 v0] d IH]; simpl; [discriminate|].
  destruct (String.eqb k k0); [reflexivity|exact IH].
Qed.

Lemma Dict_find_none {V} (d : Dict.t V) k :
  Dict.mem d k = false -> Dict.find d k = None.
Proof.
  induction d as [|[k0 v0] d IH]; simpl; [reflexivity|].
  destruct (String.eqb k k0); [discriminate|exact IH].
Qed.

Lemma Dict_get_nonzero_mem (d : Dict.t Z) k :
  Dict.get d k 0 <> 0 -> Dict.mem d k = true.
Proof.
  intros H. destruct (Dict.mem d k) eqn:E; [reflexivity|].
  exfalso. apply H. apply StrategyFacts.Dict_mem_false_get. exact E.
Qed.

Lemma Dict_set_find_same {V} (d : Dict.t V) k v :
  Dict.find d k = Some v -> Dict.set d k v = d.
Proof.
  induction d as [|[k0 v0] d IH]; simpl; [discriminate|].
  destruct (String.eqb_spec k k0) as [->|]; [congruence|].
  intros H. rewrite (IH H). reflexivity.
Qed.

Lemma Dict_set_notin {V} (d : Dict.t V) k v :
  ~ In k (map fst d) -> Dict.set d k v = d ++ [(k, v)].
Proof.
  induction d as [|[k0 v0] d IH]; simpl; [reflexivity|].
  intros H. destruct (String.eqb_spec k k0) as [->|]; [tauto|].
  rewrite IH by tauto. reflexivity.
Qed.

Lemma Dict_get_In (d : Dict.t Z) k v :
  NoDup (map fst d) -> In (k, v) d -> Dict.get d k 0 = v.
Proof.
  induction d as [|[k0 v0] d IH]; simpl; [tauto|].
  intros Hnd [E|Hin]; inversion Hnd as [|? ? Hn Hnd']; subst.
  - inversion E; subst. rewrite String.eqb_refl. reflexivity.
  - destruct (String.eqb_spec k k0) as [->|]; [|exact (IH Hnd' Hin)].
    exfalso. apply Hn. apply (in_map fst _ _ Hin).
Qed.

Lemma Dict_In_mem {V} (d : Dict.t V) k v : In (k, v) d -> Dict.mem d k = true.
Proof.
  induction d as [|[k0 v0] d IH]; simpl; [tauto|].
  intros [E|Hin]; [inversion E; subst; rewrite String.eqb_refl; reflexivity|].
  destruct (String.eqb k k0); [reflexivity|exact (IH Hin)].
Qed.

Lemma Dict_mem_In {V} (d : Dict.t V) k : Dict.mem d k = true -> In k (map fst d).
Proof.
  induction d as [|[k0 v0] d IH]; simpl; [discriminate|].
  destruct (String.eqb_spec k k0); [left; congruence|]. intros H; right; exact (IH H).
Qed.

Lemma sum_values_acc (l : Dict.t Z) a :
  fold_left (fun a p => a + snd p) l a = a + sum_values l.
Proof.
  unfold sum_values. revert a. induction l as [|p l IH]; intros a; simpl; [lia|].
  rewrite (IH (a + snd p)), (IH (snd p)). lia.
Qed.

Lemma sum_values_cons p l : sum_values (p :: l) = snd p + sum_values l.
Proof. unfold sum_values at 1. simpl. rewrite sum_values_acc. lia. Qed.

Lemma sum_values_app l1 l2 : sum_values (l1 ++ l2) = sum_values l1 + sum_values l2.
Proof. unfold sum_values at 1. rewrite fold_left_app, !sum_values_acc. reflexivity. Qed.

(** With distinct ingredient names, [missing_for_one] lists the short
    ingredients in recipe order. *)
Lemma missing_for_one_eq ings vinv :
  NoDup (map fst ings) ->
  missing_for_one ings vinv =
  map (fun p => (fst p, snd p - Dict.get vinv (fst p) 0))
      (filter (fun p => Dict.get vinv (fst p) 0 <? snd p) ings).
Proof.
  intros Hnd. unfold missing_for_one.
  assert (G : forall m, (forall k, In k (map fst m) -> ~ In k (map fst ings)) ->
    fold_left (fun m '(ing, req_qty) =>
               if Dict.get vinv ing 0 <? req_qty
               then Dict.set m ing (req_qty - Dict.get vinv ing 0) else m) ings m =
    m ++ map (fun p => (fst p, snd p - Dict.get vinv (fst p) 0))
      (filter (fun p => Dict.get vinv (fst p) 0 <? snd p) ings)).
  { induction ings as [|[k v] ings IH]; intros m Hm; simpl; [now rewrite app_nil_r|].
    inversion Hnd as [|? ? Hn Hnd']; subst.
    destruct (Dict.get vinv k 0 <? v).
    - rewrite Dict_set_notin by (intros Hk; exact (Hm k Hk (or_introl eq_refl))).
      rewrite IH; [rewrite <- app_assoc; reflexivity|exact Hnd'|].
      intros k' Hk'. rewrite map_app, in_app_iff in Hk'.
      destruct Hk' as [Hk'|[<-|[]]]; [intros Hi; exact (Hm k' Hk' (or_intror Hi))|exact Hn].
    - apply IH; [exact Hnd'|]. intros k' Hk' Hi. exact (Hm k' Hk' (or_intror Hi)). }
  apply G. simpl. tauto.
Qed.

(** A loop of [virtual_inv[ing] -= ...] steps, stopped by the first
    [KeyError]. *)
Section OptFold.
Variable step : option (Dict.t Z) -> string * Z -> option (Dict.t Z).
Variable h : Z -> Z -> Z.
Hypothesis step_none : forall p, step None p = None.
Hypothesis step_absent : forall v ing q, Dict.mem v ing = false -> step (Some v) (ing, q) = None.
Hypothesis step_present : forall v ing q, Dict.mem v ing = true ->
  exists v', step (Some v) (ing, q) = Some v' /\
    (forall k, Dict.mem v' k = Dict.mem v k) /\
    (forall k, Dict.get v' k 0 = if String.eqb k ing then h (Dict.get v ing 0) q else Dict.get v k 0).

Lemma opt_fold_none l : fold_left step l None = None.
Proof. induction l as [|p l IH]; simpl; [reflexivity|]. rewrite step_none. exact IH. Qed.

Lemma opt_fold_absent l v :
  (exists p, In p l /\ Dict.mem v (fst p) = false) -> fold_left step l (Some v) = None.
Proof.
  revert v. induction l as [|[k q] l IH]; intros v [p [Hin Hm]]; [destruct Hin|].
  simpl. destruct Hin as [<-|Hin].
  - simpl in Hm. rewrite step_absent by exact Hm. apply opt_fold_none.
  - destruct (Dict.mem v k) eqn:Ek.
    + destruct (step_present v k q Ek) as [v' [-> [Hmem _]]].
      apply IH. exists p. split; [exact Hin|]. rewrite Hmem. exact Hm.
    + rewrite step_absent by exact Ek. apply opt_fold_none.
Qed.

Lemma opt_fold_present l v :
  NoDup (map fst l) -> (forall p, In p l -> Dict.mem v (fst p) = true) ->
  exists v', fold_left step l (Some v) = Some v' /\
    (forall k, Dict.mem v' k = Dict.mem v k) /\
    (forall k, Dict.get v' k 0 =
       if Dict.mem l k then h (Dict.get v k 0) (Dict.get l k 0) else Dict.get v k 0).
Proof.
  revert v. induction l as [|[k q] l IH]; intros v Hnd Hp; simpl.
  - exists v. auto.
  - inversion Hnd as [|? ? Hn Hnd']; subst.
    destruct (step_present v k q (Hp (k, q) (or_introl eq_refl))) as [v1 [-> [Hm1 Hg1]]].
    destruct (IH v1 Hnd') as [v' [-> [Hm' Hg']]].
    { intros p Hin. rewrite Hm1. apply Hp. right. exact Hin. }
    exists v'. split; [reflexivity|]. split; [intros k'; rewrite Hm', Hm1; reflexivity|].
    intros k'. rewrite Hg', !Hg1. destruct (String.eqb_spec k' k) as [->|].
    + rewrite (StrategyFacts.Dict_mem_nodup l k Hn). reflexivity.
    + reflexivity.
Qed.
End OptFold.

Lemma sub_key_present v ing q :
  Dict.mem v ing = true ->
  exists v', sub_key v ing q = Some v' /\
    (forall k, Dict.mem v' k = Dict.mem v k) /\
    (forall k, Dict.get v' k 0 = if String.eqb k ing then Dict.get v ing 0 - q else Dict.get v k 0).
Proof.
  intros Hm. unfold sub_key. rewrite (Dict_find_get v ing Hm).
  eexists. split; [reflexivity|]. split.
  - intros k. rewrite Dict_mem_set. destruct (String.eqb_spec k ing) as [->|]; [now rewrite Hm|reflexivity].
  - intros k. apply StrategyFacts.Dict_get_set.
Qed.

Lemma allocate_all_present ings vinv :
  NoDup (map fst ings) -> (forall p, In p ings -> Dict.mem vinv (fst p) = true) ->
  exists v', allocate_all ings vinv = Some v' /\
    (forall k, Dict.mem v' k = Dict.mem vinv k) /\
    (forall k, Dict.get v' k 0 =
       if Dict.mem ings k then Dict.get vinv k 0 - Dict.get ings k 0 else Dict.get vinv k 0).
Proof.
  apply (opt_fold_present _ (fun x q => x - q)).
  - intros v ing q Hm. exact (sub_key_present v ing q Hm).
Qed.

Lemma allocate_clamped_present ings vinv :
  NoDup (map fst ings) -> (forall p, In p ings -> Dict.mem vinv (fst p) = true) ->
  exists v', allocate_clamped ings vinv = Some v' /\
    (forall k, Dict.mem v' k = Dict.mem vinv k) /\
    (forall k, Dict.get v' k 0 =
       if Dict.mem ings k then Z.max 0 (Dict.get vinv k 0 - Dict.get ings k 0)
       else Dict.get vinv k 0).
Proof.
  apply (opt_fold_present _ (fun x q => Z.max 0 (x - q))).
  - intros v ing q Hm. simpl.
    destruct (sub_key_present v ing q Hm) as [v1 [-> [Hm1 Hg1]]].
    eexists. split; [reflexivity|].
    rewrite Hg1, String.eqb_refl.
    destruct (Dict.get v ing 0 - q <? 0) eqn:Eneg.
    + split.
      * intros k. rewrite Dict_mem_set, Hm1.
        destruct (String.eqb_spec k ing) as [->|]; [now rewrite Hm|reflexivity].
      * intros k. rewrite StrategyFacts.Dict_get_set, Hg1.
        destruct (String.eqb k ing); [lia|reflexivity].
    + split; [exact Hm1|]. intros k. rewrite Hg1. destruct (String.eqb k ing); [lia|reflexivity].
Qed.

Lemma allocate_all_absent ings vinv :
  (exists p, In p ings /\ Dict.mem vinv (fst p) = false) -> allocate_all ings vinv = None.
Proof.
  apply (opt_fold_absent _ (fun x q => x - q)).
  - intros [k q]; reflexivity.
  - intros v ing q Hm. simpl. unfold sub_key. rewrite (Dict_find_none v ing Hm). reflexivity.
  - intros v ing q Hm. exact (sub_key_present v ing q Hm).
Qed.

Lemma allocate_clamped_absent ings vinv :
  (exists p, In p ings /\ Dict.mem vinv (fst p) = false) -> allocate_clamped ings vinv = None.
Proof.
  apply (opt_fold_absent _ (fun x q => Z.max 0 (x - q))).
  - intros [k q]; reflexivity.
  - intros v ing q Hm. simpl. unfold sub_key. rewrite (Dict_find_none v ing Hm). reflexivity.
  - intros v ing q Hm. simpl.
    destruct (sub_key_present v ing q Hm) as [v1 [-> [Hm1 Hg1]]].
    eexists. split; [reflexivity|].
    rewrite Hg1, String.eqb_refl.
    destruct (Dict.get v ing 0 - q <? 0) eqn:Eneg.
    + split.
      * intros k. rewrite Dict_mem_set, Hm1.
        destruct (String.eqb_spec k ing) as [->|]; [now rewrite Hm|reflexivity].
      * intros k. rewrite StrategyFacts.Dict_get_set, Hg1.
        destruct (String.eqb k ing); [lia|reflexivity].
    + split; [exact Hm1|]. intros k. rewrite Hg1. destruct (String.eqb k ing); [lia|reflexivity].
Qed.

Lemma all_or_absent (ings vinv : Dict.t Z) :
  (forall p, In p ings -> Dict.mem vinv (fst p) = true) \/
  (exists p, In p ings /\ Dict.mem vinv (fst p) = false).
Proof.
  destruct (forallb (fun p => Dict.mem vinv (fst p)) ings) eqn:E.
  - left. rewrite forallb_forall in E. exact E.
  - right. apply not_true_iff_false in E. rewrite forallb_forall in E.
    destruct (existsb (fun p => negb (Dict.mem vinv (fst p))) ings) eqn:E2.
    + apply existsb_exists in E2. destruct E2 as [p [Hin Hp]].
      exists p. split; [exact Hin|]. now apply negb_true_iff.
    + exfalso. apply E. intros p Hin. apply not_true_iff_false in E2.
      destruct (Dict.mem vinv (fst p)) eqn:Em; [reflexivity|].
      exfalso. apply E2. apply existsb_exists. exists p. now rewrite Em.
Qed.

Lemma sum_values_pos_nil (l : Dict.t Z) :
  (forall p, In p l -> 0 < snd p) -> sum_values l = 0 -> l = [].
Proof.
  destruct l as [|p l]; [reflexivity|]. intros Hp Hs. exfalso.
  assert (G : forall l0 : Dict.t Z, (forall p, In p l0 -> 0 < snd p) -> 0 <= sum_values l0).
  { induction l0 as [|q l0 IH]; intros H; [unfold sum_values; simpl; lia|].
    rewrite sum_values_cons. specialize (H q (or_introl eq_refl)) as Hq.
    assert (0 <= sum_values l0) by (apply IH; intros; apply H; now right). lia. }
  rewrite sum_values_cons in Hs.
  specialize (Hp p (or_introl eq_refl)) as Hp0.
  assert (0 <= sum_values l) by (apply G; intros; apply Hp; now right). lia.
Qed.

Lemma stock_le ings v v' :
  (forall p, In p ings -> Dict.get v' (fst p) 0 <= Dict.get v (fst p) 0) ->
  stock ings v' <= stock ings v.
Proof.
  induction ings as [|p ings IH]; intros H; simpl; [lia|].
  specialize (H p (or_introl eq_refl)) as Hp.
  assert (stock ings v' <= stock ings v) by (apply IH; intros; apply H; now right). lia.
Qed.

Lemma stock_lt ings v v' :
  (forall p, In p ings -> Dict.get v' (fst p) 0 <= Dict.get v (fst p) 0) ->
  (exists p, In p ings /\ Dict.get v' (fst p) 0 < Dict.get v (fst p) 0) ->
  stock ings v' < stock ings v.
Proof.
  induction ings as [|p ings IH]; intros H [q [Hq Hlt]]; [destruct Hq|]. simpl.
  specialize (H p (or_introl eq_refl)) as Hp.
  destruct Hq as [<-|Hq].
  - assert (stock ings v' <= stock ings v) by (apply stock_le; intros; apply H; now right). lia.
  - assert (stock ings v' < stock ings v).
    { apply IH; [intros; apply H; now right|]. exists q. auto. }
    lia.
Qed.

Lemma stock_nonneg ings v : (forall k, 0 <= Dict.get v k 0) -> 0 <= stock ings v.
Proof.
  intros H. induction ings as [|p ings IH]; simpl; [lia|]. specialize (H (fst p)). lia.
Qed.

Lemma missing_sum_all_short ings vinv :
  (forall p, In p ings -> Dict.get vinv (fst p) 0 = 0) ->
  (forall p, In p ings -> 0 < snd p) ->
  sum_values (map (fun p => (fst p, snd p - Dict.get vinv (fst p) 0))
                  (filter (fun p => Dict.get vinv (fst p) 0 <? snd p) ings)) = sum_values ings.
Proof.
  induction ings as [|p ings IH]; intros Hz Hp; [reflexivity|]. simpl.
  rewrite (Hz p (or_introl eq_refl)).
  assert (Hp0 := Hp p (or_introl eq_refl)).
  replace (0 <? snd p) with true by (symmetry; apply Z.ltb_lt; exact Hp0).
  simpl. rewrite !sum_values_cons, (Hz p (or_introl eq_refl)), IH; simpl; [lia| |];
    intros; [apply Hz|apply Hp]; now right.
Qed.

Lemma missing_in_pos ings vinv p :
  In p (map (fun p => (fst p, snd p - Dict.get vinv (fst p) 0))
            (filter (fun p => Dict.get vinv (fst p) 0 <? snd p) ings)) -> 0 < snd p.
Proof.
  intros Hin. apply in_map_iff in Hin. destruct Hin as [q [<- Hq]].
  apply filter_In in Hq. destruct Hq as [_ Hq]. apply Z.ltb_lt in Hq. simpl. lia.
Qed.

Lemma alloc_iteration_zero ings vinv tb :
  (forall p, In p ings -> snd p = 0) ->
  (forall p, In p ings -> Dict.mem vinv (fst p) = true) ->
  (forall p, In p ings -> 0 <= Dict.get vinv (fst p) 0) ->
  alloc_iteration ings vinv tb = Again vinv tb.
Proof.
  intros Hz Hm Hnn. unfold alloc_iteration. cbv zeta.
  assert (Hmiss : missing_for_one ings vinv = []).
  { unfold missing_for_one.
    assert (G : forall l m, (forall p, In p l -> snd p = 0 /\ 0 <= Dict.get vinv (fst p) 0) ->
      fold_left (fun m '(ing, req_qty) =>
               if Dict.get vinv ing 0 <? req_qty
               then Dict.set m ing (req_qty - Dict.get vinv ing 0) else m) l m = m).
    { induction l as [|[k r] l IH]; intros m Hl; simpl; [reflexivity|].
      destruct (Hl (k, r) (or_introl eq_refl)) as [Hr Hk]. simpl in Hr, Hk. subst r.
      replace (Dict.get vinv k 0 <? 0) with false by (symmetry; apply Z.ltb_ge; lia).
      apply IH. intros p Hp. apply Hl. now right. }
    apply G. intros p Hp. split; [apply Hz|apply Hnn]; exact Hp. }
  rewrite Hmiss. unfold sum_values at 2. simpl.
  assert (Halloc : allocate_all ings vinv = Some vinv).
  { unfold allocate_all. revert Hz Hm. clear Hmiss Hnn.
    induction ings as [|[k r] ings IH]; intros Hz Hm; simpl; [reflexivity|].
    assert (Hr : r = 0) by exact (Hz (k, r) (or_introl eq_refl)). subst r.
    unfold sub_key. rewrite (Dict_find_get vinv k (Hm (k, 0) (or_introl eq_refl))).
    rewrite Z.sub_0_r, Dict_set_find_same by (apply Dict_find_get; exact (Hm (k, 0) (or_introl eq_refl))).
    apply IH; intros; [apply Hz|apply Hm]; now right. }
  rewrite Halloc. reflexivity.
Qed.

Lemma filter_none {A} (pred : A -> bool) l :
  (forall p, In p l -> pred p = false) -> filter pred l = [].
Proof.
  induction l as [|p l IH]; intros H; simpl; [reflexivity|].
  rewrite (H p (or_introl eq_refl)). apply IH. intros; apply H; now right.
Qed.

Lemma filter_single (pred : string * Z -> bool) ings m q :
  NoDup (map fst ings) -> In (m, q) ings -> pred (m, q) = true ->
  (forall p, In p ings -> fst p <> m -> pred p = false) ->
  filter pred ings = [(m, q)].
Proof.
  induction ings as [|[k r] ings IH]; intros Hnd Hin Hp Hother; [destruct Hin|].
  inversion Hnd as [|? ? Hn Hnd']; subst. simpl.
  destruct (String.eqb_spec k m) as [->|Hkm].
  - destruct Hin as [E|Hin].
    + inversion E; subst. rewrite Hp. f_equal. apply filter_none.
      intros p Hp'. apply Hother; [now right|].
      intros E'. apply Hn. rewrite <- E'. exact (in_map fst _ _ Hp').
    + exfalso. apply Hn. exact (in_map fst _ _ Hin).
  - rewrite (Hother (k, r) (or_introl eq_refl) Hkm).
    apply IH; auto.
    + destruct Hin as [E|Hin]; [inversion E; congruence|exact Hin].
    + intros p Hp'. apply Hother. now right.
Qed.

Lemma sum_values_ge_one (l : Dict.t Z) x :
  (forall p, In p l -> 0 < snd p) -> In x l -> snd x <= sum_values l.
Proof.
  induction l as [|a l IH]; intros Hpos Hin; [destruct Hin|].
  rewrite sum_values_cons.
  assert (0 <= sum_values l).
  { clear IH Hin. induction l as [|b l IHl]; [unfold sum_values; simpl; lia|].
    rewrite sum_values_cons. assert (0 < snd b) by (apply Hpos; right; now left).
    assert (0 <= sum_values l) by (apply IHl; intros p Hp; apply Hpos; destruct Hp; [now left|right; now right]).
    lia. }
  destruct Hin as [<-|Hin]; [lia|].
  assert (0 < snd a) by (apply Hpos; now left).
  assert (snd x <= sum_values l) by (apply IH; [intros; apply Hpos; now right|exact Hin]). lia.
Qed.

Lemma sum_values_ge_two (l : Dict.t Z) x y :
  (forall p, In p l -> 0 < snd p) -> In x l -> In y l -> x <> y ->
  snd x + snd y <= sum_values l.
Proof.
  induction l as [|a l IH]; intros Hpos Hx Hy Hxy; [destruct Hx|].
  rewrite sum_values_cons.
  assert (Hpos' : forall p, In p l -> 0 < snd p) by (intros; apply Hpos; now right).
  destruct Hx as [<-|Hx], Hy as [<-|Hy].
  - congruence.
  - pose proof (sum_values_ge_one l y Hpos' Hy). lia.
  - pose proof (sum_values_ge_one l x Hpos' Hx). lia.
  - assert (0 < snd a) by (apply Hpos; now left).
    pose proof (IH Hpos' Hx Hy Hxy). lia.
Qed.

Lemma alloc_iteration_keyerror ings vinv tb m q :
  NoDup (map fst ings) -> (forall p, In p ings -> 0 < snd p) -> In (m, q) ings ->
  Dict.mem vinv m = false ->
  (forall k r, In (k, r) ings -> k <> m -> r <= Dict.get vinv k 0) ->
  (exists k r, In (k, r) ings /\ k <> m) ->
  alloc_iteration ings vinv tb = KeyError.
Proof.
  intros Hnd Hpos Hin Hm Hcov [k [r [Hkr Hkm]]].
  assert (Hq : 0 < q) by exact (Hpos _ Hin).
  assert (Hvm : Dict.get vinv m 0 = 0) by (apply StrategyFacts.Dict_mem_false_get; exact Hm).
  unfold alloc_iteration. cbv zeta. rewrite (missing_for_one_eq ings vinv Hnd).
  rewrite (filter_single _ ings m q Hnd Hin).
  2:{ simpl. rewrite Hvm. apply Z.ltb_lt. exact Hq. }
  2:{ intros [k' r'] Hp Hk'. simpl in Hk' |- *. apply Z.ltb_ge. exact (Hcov k' r' Hp Hk'). }
  simpl. rewrite Hvm, Z.sub_0_r.
  replace (sum_values [(m, q)] =? 0) with false
    by (symmetry; apply Z.eqb_neq; rewrite sum_values_cons; unfold sum_values; simpl; lia).
  pose proof (sum_values_ge_two ings (m, q) (k, r) Hpos Hin Hkr) as H2.
  assert (Hr : 0 < r) by exact (Hpos _ Hkr).
  replace (0 <? sum_values ings - sum_values [(m, q)]) with true.
  2:{ symmetry. apply Z.ltb_lt. rewrite sum_values_cons. unfold sum_values at 2. simpl.
      assert ((m, q) <> (k, r)) by congruence. specialize (H2 H). simpl in H2. lia. }
  simpl. rewrite allocate_clamped_absent; [reflexivity|]. exists (m, q). auto.
Qed.

Lemma sell_price_ge1 pinv ing : (1 <= sell_price pinv ing)%Q.
Proof.
  unfold sell_price. destruct (Qltb 0 _).
  - unfold Qle; simpl; lia.
  - unfold SELL_PRICE, Qle; simpl; lia.
Qed.

Lemma sell_price_int pinv ing c :
  (1 <= c)%Z -> Dict.get pinv ing 0%Q = inject_Z c ->
  (inject_Z c <= sell_price pinv ing /\ sell_price pinv ing <= inject_Z c * (105 # 100))%Q.
Proof.
  intros Hc Hg. unfold sell_price. rewrite Hg.
  assert (Hpos : (0 < inject_Z c)%Q) by (unfold Qlt; simpl; lia).
  replace (Qltb 0 (inject_Z c)) with true
    by (symmetry; unfold Qltb; apply negb_true_iff, not_true_iff_false;
        rewrite Qle_bool_iff; apply Qlt_not_le; exact Hpos).
  assert (Hx : (inject_Z c <= inject_Z c * (105 # 100))%Q) by lra.
  unfold py_int.
  replace (Qle_bool 0 (inject_Z c * (105 # 100))) with true
    by (symmetry; apply Qle_bool_iff; lra).
  assert (Hfl : (c <= Qfloor (inject_Z c * (105 # 100)))%Z).
  { rewrite <- (Qfloor_Z c) at 1. apply Qfloor_resp_le. exact Hx. }
  rewrite Z.max_r by lia. split.
  - rewrite <- Zle_Qle. exact Hfl.
  - apply Qfloor_le.
Qed.

Lemma sell_price_nonpos pinv ing :
  (Dict.get pinv ing 0 <= 0)%Q -> sell_price pinv ing = SELL_PRICE.
Proof.
  intros H. unfold sell_price.
  replace (Qltb 0 (Dict.get pinv ing 0%Q)) with false; [reflexivity|].
  symmetry. unfold Qltb. apply negb_false_iff, Qle_bool_iff. exact H.
Qed.

End PlanFacts.

Module MissingFacts.
Import PlanFacts.

Lemma Dict_keys_set {V} (d : Dict.t V) k v :
  map fst (Dict.set d k v) = if Dict.mem d k then map fst d else map fst d ++ [k].
Proof.
  induction d as [|[k0 v0] d IH]; simpl; [reflexivity|].
  destruct (String.eqb_spec k k0) as [->|]; simpl; [reflexivity|].
  rewrite IH. destruct (Dict.mem d k); reflexivity.
Qed.

Lemma Dict_mem_false_notin {V} (d : Dict.t V) k :
  Dict.mem d k = false -> ~ In k (map fst d).
Proof.
  intros Hm Hin. apply in_map_iff in Hin. destruct Hin as [[k' v] [Hk Hin]].
  simpl in Hk. rewrite Hk in Hin. rewrite (Dict_In_mem d k v Hin) in Hm. discriminate.
Qed.

Lemma Dict_set_nodup {V} (d : Dict.t V) k v :
  NoDup (map fst d) -> NoDup (map fst (Dict.set d k v)).
Proof.
  intros Hnd. rewrite Dict_keys_set. destruct (Dict.mem d k) eqn:Em; [exact Hnd|].
  apply (Permutation_NoDup (Permutation_cons_append (map fst d) k)).
  constructor; [exact (Dict_mem_false_notin d k Em)|exact Hnd].
Qed.

(** Values of a fold of [Dict.set] steps. *)
Lemma Dict_set_forall {V} (P : V -> Prop) (d : Dict.t V) k v :
  Forall (fun p => P (snd p)) d -> P v -> Forall (fun p => P (snd p)) (Dict.set d k v).
Proof.
  intros Hd Hv. apply Forall_forall. intros [k' v'] Hin.
  destruct (MarketFacts.Dict_set_In d k v k' v' Hin) as [H| ->]; [|exact Hv].
  rewrite Forall_forall in Hd. exact (Hd _ H).
Qed.

Lemma list_find_app {A} (f : A -> bool) l1 l2 :
  List.find f (l1 ++ l2) = match List.find f l1 with Some x => Some x | None => List.find f l2 end.
Proof.
  induction l1 as [|a l1 IH]; simpl; [reflexivity|]. destruct (f a); [reflexivity|exact IH].
Qed.

Lemma Dict_find_set {V} (d : Dict.t V) k v k' :
  Dict.find (Dict.set d k v) k' = if String.eqb k' k then Some v else Dict.find d k'.
Proof.
  induction d as [|[k0 v0] d IH]; simpl.
  - destruct (String.eqb k' k); reflexivity.
  - destruct (String.eqb_spec k k0) as [->|Hne]; simpl.
    + destruct (String.eqb k' k0); reflexivity.
    + rewrite IH. destruct (String.eqb_spec k' k0) as [->|]; [|reflexivity].
      destruct (String.eqb_spec k0 k); [congruence|reflexivity].
Qed.

Lemma recipe_map_find recipes n :
  Dict.find (LegacyMissing.recipe_map recipes) n =
  List.find (fun r => String.eqb (Bid.r_name r) n) (rev recipes).
Proof.
  unfold LegacyMissing.recipe_map.
  assert (G : forall m, Dict.find (fold_left (fun m r => Dict.set m (Bid.r_name r) r) recipes m) n =
    match List.find (fun r => String.eqb (Bid.r_name r) n) (rev recipes) with
    | Some r => Some r | None => Dict.find m n end).
  { induction recipes as [|r recipes IH]; intros m; simpl; [reflexivity|].
    rewrite IH, list_find_app. simpl. rewrite Dict_find_set.
    destruct (List.find _ (rev recipes)); [reflexivity|].
    rewrite (String.eqb_sym n (Bid.r_name r)). destruct (String.eqb (Bid.r_name r) n); reflexivity. }
  rewrite G. destruct (List.find _ _); reflexivity.
Qed.

Lemma Dict_find_In {V} (d : Dict.t V) k v : Dict.find d k = Some v -> In (k, v) d.
Proof.
  induction d as [|[k0 v0] d IH]; simpl; [discriminate|].
  destruct (String.eqb_spec k k0) as [->|]; [intros H; inversion H; now left|].
  intros H; right; exact (IH H).
Qed.

Lemma recipe_map_values recipes n r :
  Dict.find (LegacyMissing.recipe_map recipes) n = Some r -> In r recipes.
Proof.
  rewrite recipe_map_find. intros H. apply find_some in H. apply in_rev. exact (proj1 H).
Qed.

(** [hackapizza/market_agent.py]: the shortfall recorded for an
    ingredient is the largest one over the target recipes. *)
Lemma market_compute_missing_get target_recipes inventory copies_target :
  (forall r, In r target_recipes -> NoDup (map fst r)) ->
  forall ing,
  Dict.get (Market.compute_missing target_recipes inventory copies_target) ing 0 =
  fold_left (fun acc r =>
               if Dict.mem r ing
               then Z.max acc (Dict.get r ing 0 * copies_target - Dict.get inventory ing 0)
               else acc) target_recipes 0.
Proof.
  intros Hnd ing. unfold Market.compute_missing.
  assert (G : forall (rs : list (Dict.t Z)) a, (forall r, In r rs -> NoDup (map fst r)) ->
    0 <= Dict.get a ing 0 ->
    Dict.get (fold_left (fun missing recipe =>
       fold_left
         (fun missing '(ing, qty_per_copy) =>
            let total_needed := qty_per_copy * copies_target in
            let have := Dict.get inventory ing 0 in
            if have <? total_needed
            then Dict.set missing ing (Z.max (Dict.get missing ing 0) (total_needed - have))
            else missing)
         recipe missing) rs a) ing 0 =
    fold_left (fun acc r =>
               if Dict.mem r ing
               then Z.max acc (Dict.get r ing 0 * copies_target - Dict.get inventory ing 0)
               else acc) rs (Dict.get a ing 0)).
  { induction rs as [|r rs IH]; intros a Hrs Ha; [reflexivity|]. cbn [fold_left].
    match goal with |- context [fold_left ?f r a] => set (inner := f) end.
    set (h := fun k v old => if Dict.get inventory k 0 <? v * copies_target
                             then Z.max old (v * copies_target - Dict.get inventory k 0) else old).
    assert (Hstep : forall a0 k v k', Dict.get (inner a0 (k, v)) k' 0 =
                      if String.eqb k' k then h k v (Dict.get a0 k 0) else Dict.get a0 k' 0).
    { intros a0 k v k'. unfold inner, h. cbv zeta.
      destruct (Dict.get inventory k 0 <? v * copies_target);
        [apply StrategyFacts.Dict_get_set|destruct (String.eqb_spec k' k) as [->|]; reflexivity]. }
    pose proof (StrategyFacts.fold_pointwise inner (fun a k => Dict.get a k 0) h Hstep r a
                  (Hrs r (or_introl eq_refl)) ing) as Hp. cbv beta in Hp.
    assert (Hh : forall k v old, 0 <= old ->
              h k v old = Z.max old (v * copies_target - Dict.get inventory k 0)).
    { intros k v old Hold. unfold h. destruct (Z.ltb_spec (Dict.get inventory k 0) (v * copies_target)); lia. }
    rewrite IH.
    - f_equal. rewrite Hp. destruct (Dict.mem r ing); [|reflexivity]. apply Hh. exact Ha.
    - intros r' Hr'. apply Hrs. now right.
    - rewrite Hp. destruct (Dict.mem r ing); [|exact Ha]. rewrite Hh by exact Ha. lia. }
  apply G; [exact Hnd|]. simpl. lia.
Qed.


Lemma market_compute_missing_shape target_recipes inventory copies_target :
  let m := Market.compute_missing target_recipes inventory copies_target in
  NoDup (map fst m) /\ Forall (fun p => 0 < snd p) m.
Proof.
  cbv zeta. unfold Market.compute_missing.
  assert (G : forall (rs : list (Dict.t Z)) (a : Dict.t Z),
    NoDup (map fst a) /\ Forall (fun p => 0 < snd p) a ->
    let m := fold_left (fun missing recipe =>
       fold_left
         (fun missing '(ing, qty_per_copy) =>
            let total_needed := qty_per_copy * copies_target in
            let have := Dict.get inventory ing 0 in
            if have <? total_needed
            then Dict.set missing ing (Z.max (Dict.get missing ing 0) (total_needed - have))
            else missing)
         recipe missing) rs a in
    NoDup (map fst m) /\ Forall (fun p => 0 < snd p) m).
  { induction rs as [|r rs IH]; intros a Ha; [exact Ha|]. cbn [fold_left]. apply IH.
    clear IH. revert a Ha. induction r as [|[k v] r IHr]; intros a [Hnd Hpos]; [split; assumption|].
    cbn [fold_left]. apply IHr. cbv zeta.
    destruct (Z.ltb_spec (Dict.get inventory k 0) (v * copies_target)); [|split; assumption].
    split; [apply Dict_set_nodup; exact Hnd|].
    apply (Dict_set_forall (fun x => 0 < x)); [exact Hpos|lia]. }
  apply G. split; constructor.
Qed.

(** [src/market_agent.py]: the shortfalls of the menu's recipes add up. *)
Lemma legacy_compute_missing_get names recipes inventory :
  (forall r, In r recipes -> NoDup (map fst (Bid.r_ingredients r))) ->
  forall ing,
  Dict.get (LegacyMissing.compute_missing names recipes inventory) ing 0 =
  fold_left (fun acc n =>
               match List.find (fun r => String.eqb (Bid.r_name r) n) (rev recipes) with
               | Some r =>
                 if Dict.mem (Bid.r_ingredients r) ing
                 then acc + Z.max 0 (Dict.get (Bid.r_ingredients r) ing 0 - Dict.get inventory ing 0)
                 else acc
               | None => acc
               end) names 0.
Proof.
  intros Hnd ing. unfold LegacyMissing.compute_missing. cbv zeta.
  match goal with |- Dict.get (fold_left ?g names []) ing 0 = fold_left ?F names 0 =>
    assert (G : forall a, Dict.get (fold_left g names a) ing 0 = fold_left F names (Dict.get a ing 0));
    [|exact (G [])] end.
  induction names as [|n names IH]; intros a; [reflexivity|].
  cbn [fold_left]. rewrite IH. f_equal. rewrite recipe_map_find.
  destruct (List.find _ (rev recipes)) as [r|] eqn:Ef; [|reflexivity].
  assert (Hr : NoDup (map fst (Bid.r_ingredients r))).
  { apply Hnd. apply find_some in Ef. apply in_rev. exact (proj1 Ef). }
  match goal with |- Dict.get (fold_left ?f _ _) _ _ = _ => set (inner := f) end.
  set (h := fun k v old => if Dict.get inventory k 0 <? v then old + (v - Dict.get inventory k 0) else old).
  assert (Hstep : forall a0 k v k', Dict.get (inner a0 (k, v)) k' 0 =
                    if String.eqb k' k then h k v (Dict.get a0 k 0) else Dict.get a0 k' 0).
  { intros a0 k v k'. unfold inner, h. cbv zeta.
    destruct (Dict.get inventory k 0 <? v);
      [apply StrategyFacts.Dict_get_set|destruct (String.eqb_spec k' k) as [->|]; reflexivity]. }
  rewrite (StrategyFacts.fold_pointwise inner (fun a k => Dict.get a k 0) h Hstep _ a Hr ing).
  destruct (Dict.mem _ ing); [|reflexivity]. unfold h.
  destruct (Z.ltb_spec (Dict.get inventory ing 0) (Dict.get (Bid.r_ingredients r) ing 0)); lia.
Qed.

End MissingFacts.

Module BidMore.
Import Bid BidFacts MissingFacts Measures.

Lemma hinted_bid_ge1 h : 1 <= hinted_bid h.
Proof. unfold hinted_bid. lia. Qed.

Lemma unit_bid_ge1 hints ing : 1 <= unit_bid hints ing.
Proof. unfold unit_bid. destruct (hint_of hints ing); [apply hinted_bid_ge1|unfold DEFAULT_BID; lia]. Qed.

Lemma build_bids_from_quantities_eq iq hints :
  build_bids_from_quantities iq hints =
  map (fun p => mkBid (fst p) (snd p) (unit_bid hints (fst p))) (filter (fun p => 0 <? snd p) iq).
Proof.
  unfold build_bids_from_quantities.
  assert (G : forall acc, fold_left (fun bids '(ing, qty) =>
               if qty <=? 0 then bids else bids ++ [mkBid ing qty (unit_bid hints ing)]) iq acc =
    acc ++ map (fun p => mkBid (fst p) (snd p) (unit_bid hints (fst p))) (filter (fun p => 0 <? snd p) iq)).
  { induction iq as [|[ing q] iq IH]; intros acc; simpl; [now rewrite app_nil_r|].
    rewrite IH. destruct (Z.leb_spec q 0); destruct (Z.ltb_spec 0 q); try lia; simpl.
    - reflexivity.
    - rewrite <- app_assoc. reflexivity. }
  apply G.
Qed.

Lemma legacy_bids_spec ings balance pc hints bids :
  build_bids_legacy ings balance pc hints = Some bids ->
  map b_ingredient bids = (if Qle_bool balance 0 then [] else firstn MAX_INGREDIENTS ings) /\
  Forall (fun b => b_quantity b = 1 /\ 1 <= b_bid b /\
                   (hint_of hints (b_ingredient b) = None -> DEFAULT_BID <= b_bid b)) bids.
Proof.
  unfold build_bids_legacy. cbv zeta.
  assert (Hbf : forall l share,
     let bs := map (fun ing => mkBid ing 1 (match hint_of hints ing with
                   | Some h => hinted_bid h
                   | None => Z.max DEFAULT_BID (py_int share)
                   end)) l in
     map b_ingredient bs = l /\
     Forall (fun b => b_quantity b = 1 /\ 1 <= b_bid b /\
                   (hint_of hints (b_ingredient b) = None -> DEFAULT_BID <= b_bid b)) bs).
  { intros l share. cbv zeta. split.
    - rewrite map_map. simpl. apply map_id.
    - apply Forall_forall. intros b Hb. apply in_map_iff in Hb. destruct Hb as [ing [<- _]].
      simpl. split; [reflexivity|].
      destruct (hint_of hints ing); split; try discriminate.
      + apply hinted_bid_ge1.
      + unfold DEFAULT_BID. lia.
      + intros _. unfold DEFAULT_BID. lia. }
  destruct (match ings with [] => true | _ => false end || Qle_bool balance 0) eqn:Eg.
  - intros H; inversion H; subst. split; [|constructor].
    destruct (Qle_bool balance 0); [reflexivity|].
    destruct ings; [reflexivity|discriminate].
  - apply orb_false_iff in Eg. destruct Eg as [_ Eb]. rewrite Eb.
    set (chosen := firstn MAX_INGREDIENTS ings).
    destruct (0 <? _) eqn:Ep.
    + destruct (py_div _ _) as [pp|]; [|discriminate].
      destruct (skipn _ chosen) as [|y ys] eqn:Es.
      * intros H; inversion H; subst.
        destruct (Hbf (firstn (Z.to_nat (Z.min pc (Z.of_nat (List.length chosen)))) chosen) pp)
          as [H1 H2].
        split; [|exact H2]. rewrite H1.
        transitivity (firstn (Z.to_nat (Z.min pc (Z.of_nat (List.length chosen)))) chosen ++
                      skipn (Z.to_nat (Z.min pc (Z.of_nat (List.length chosen)))) chosen);
          [rewrite Es, app_nil_r; reflexivity|apply firstn_skipn].
      * destruct (py_div _ _) as [ps|]; [|discriminate].
        intros H; inversion H; subst.
        destruct (Hbf (firstn (Z.to_nat (Z.min pc (Z.of_nat (List.length chosen)))) chosen) pp)
          as [H1 H2].
        destruct (Hbf (y :: ys) ps) as [H3 H4].
        split; [|apply Forall_app; split; [exact H2|exact H4]].
        rewrite map_app, H1.
        transitivity (firstn (Z.to_nat (Z.min pc (Z.of_nat (List.length chosen)))) chosen ++ y :: ys);
          [f_equal; exact H3|rewrite <- Es; apply firstn_skipn].
    + destruct (py_div _ _) as [pi|]; [|discriminate].
      intros H; inversion H; subst. apply Hbf.
Qed.

(** [bids.sort(key=lambda x: -(x["quantity"] * x["bid"]))] puts the
    largest [quantity * bid] first. *)
Lemma insert_by_size_perm b l : Permutation (insert_by_size b l) (b :: l).
Proof.
  induction l as [|x l IH]; simpl; [reflexivity|].
  destruct (_ <? _); [reflexivity|].
  rewrite IH. apply perm_swap.
Qed.

Lemma insert_by_size_sorted b l : Sorted larger_first l -> Sorted larger_first (insert_by_size b l).
Proof.
  induction l as [|x l IH]; intros Hs; simpl; [repeat constructor|].
  destruct (Z.ltb_spec (- (b_quantity b * b_bid b)) (- (b_quantity x * b_bid x))) as [Hlt|Hge].
  - constructor; [exact Hs|]. constructor. unfold larger_first. lia.
  - apply Sorted_inv in Hs. destruct Hs as [Hs Hhd].
    constructor; [exact (IH Hs)|].
    destruct l as [|y l]; simpl.
    + constructor. unfold larger_first. lia.
    + destruct (_ <? _); constructor.
      * unfold larger_first. lia.
      * inversion Hhd; assumption.
Qed.

Lemma sort_by_size_perm l : Permutation (sort_by_size l) l.
Proof.
  unfold sort_by_size.
  assert (G : forall acc, Permutation (fold_left (fun acc b => insert_by_size b acc) l acc) (l ++ acc)).
  { induction l as [|b l IH]; intros acc; simpl; [reflexivity|].
    rewrite IH, insert_by_size_perm. apply Permutation_sym, Permutation_middle. }
  rewrite G, app_nil_r. reflexivity.
Qed.

Lemma sort_by_size_sorted l : Sorted larger_first (sort_by_size l).
Proof.
  unfold sort_by_size.
  assert (G : forall acc, Sorted larger_first acc ->
            Sorted larger_first (fold_left (fun acc b => insert_by_size b acc) l acc)).
  { induction l as [|b l IH]; intros acc Hacc; simpl; [exact Hacc|].
    apply IH. apply insert_by_size_sorted. exact Hacc. }
  apply G. constructor.
Qed.

Lemma recipe_inner_ok hints stocks_to_buy l : forall m,
  bids_map_ok m ->
  bids_map_ok (fold_left (fun m '(ing, qty_per_stock) =>
                let total_qty := qty_per_stock * stocks_to_buy in
                let bid_per_unit := unit_bid hints ing in
                match Dict.find m ing with
                | Some (q, b) => Dict.set m ing (q + total_qty, Z.max b bid_per_unit)
                | None => Dict.set m ing (total_qty, bid_per_unit)
                end) l m).
Proof.
  induction l as [|[ing q] l IH]; intros m Hm; [exact Hm|].
  cbn [fold_left]. apply IH. destruct Hm as [Hnd Hb]. cbv zeta.
  destruct (Dict.find m ing) as [[q0 b0]|].
  - split; [apply Dict_set_nodup; exact Hnd|].
    apply (Dict_set_forall (fun v => 1 <= snd v)); [exact Hb|]. simpl.
    pose proof (unit_bid_ge1 hints ing). lia.
  - split; [apply Dict_set_nodup; exact Hnd|].
    apply (Dict_set_forall (fun v => 1 <= snd v)); [exact Hb|]. apply unit_bid_ge1.
Qed.

Lemma recipe_bids_step_ok bpr hints m r m' :
  bids_map_ok m -> recipe_bids_step bpr hints (Some m) r = Some m' -> bids_map_ok m'.
Proof.
  intros Hm. unfold recipe_bids_step.
  destruct (r_ingredients r) as [|p ps]; [intros H; injection H as <-; exact Hm|].
  destruct (if Qltb 0 _ then _ else _) as [st|]; [|discriminate].
  intros H; injection H as <-. exact (recipe_inner_ok hints (Z.max 1 st) (p :: ps) m Hm).
Qed.

Lemma recipes_fold_ok bpr hints rs : forall m m',
  bids_map_ok m -> fold_left (recipe_bids_step bpr hints) rs (Some m) = Some m' -> bids_map_ok m'.
Proof.
  induction rs as [|r rs IH]; intros m m' Hm; cbn [fold_left]; [intros H; injection H as <-; exact Hm|].
  destruct (recipe_bids_step bpr hints (Some m) r) as [m1|] eqn:E1.
  - intros H. apply (IH m1); [exact (recipe_bids_step_ok bpr hints m r m1 Hm E1)|exact H].
  - intros H. exfalso. revert H. clear. induction rs as [|r rs IH]; simpl; [discriminate|]. exact IH.
Qed.

Lemma recipe_bids_spec recipes balance hints bids :
  build_bids_from_recipes recipes balance hints = Some bids ->
  Sorted larger_first bids /\ NoDup (map b_ingredient bids) /\ Forall (fun b => 1 <= b_bid b) bids.
Proof.
  unfold build_bids_from_recipes.
  destruct (_ || _); [intros H; inversion H; subst; repeat constructor|].
  destruct (py_div _ _) as [bpr|]; [|discriminate].
  destruct (fold_left _ _ _) as [m|] eqn:Ef; [|discriminate].
  intros H; inversion H; subst; clear H.
  assert (Hok : bids_map_ok m) by (apply (recipes_fold_ok bpr hints recipes [] m); [split; constructor|exact Ef]).
  destruct Hok as [Hnd Hb].
  set (l := map (fun '(ing, (q, b)) => mkBid ing q b) m).
  assert (Hl : map b_ingredient l = map fst m).
  { unfold l. rewrite map_map. apply map_ext. intros [ing [q b]]. reflexivity. }
  split; [apply sort_by_size_sorted|]. split.
  - apply (Permutation_NoDup (Permutation_map b_ingredient (Permutation_sym (sort_by_size_perm l)))).
    rewrite Hl. exact Hnd.
  - apply (Permutation_Forall (Permutation_sym (sort_by_size_perm l))).
    unfold l. apply Forall_map. rewrite Forall_forall in Hb |- *. intros [ing [q b]] Hin.
    exact (Hb _ Hin).
Qed.

Lemma add_opportunistic_nodup main all :
  NoDup (map b_ingredient main) -> NoDup all ->
  NoDup (map b_ingredient (add_opportunistic_bids main all)).
Proof.
  intros Hm Ha. unfold add_opportunistic_bids. rewrite map_app, map_map. simpl.
  rewrite map_id. apply NoDup_app; [exact Hm|apply NoDup_filter; exact Ha|].
  intros x Hx Hy. apply filter_In in Hy. destruct Hy as [_ Hy].
  apply negb_true_iff in Hy. rewrite <- not_true_iff_false in Hy. apply Hy.
  apply existsb_exists. exists x. split; [exact Hx|apply String.eqb_refl].
Qed.

End BidMore.

Module PickFacts.
Import Bid StrategyPick.

Lemma best_recipe_inv recipes inventory exclude :
  let elig r := negb (existsb (String.eqb (r_name r)) exclude) in
  let res := fold_left
         (fun '(best, best_score) r =>
            if existsb (String.eqb (r_name r)) exclude then (best, best_score)
            else
              let score := recipe_score inventory r in
              if Qltb best_score score then (Some r, score) else (best, best_score))
         recipes (None, (-1)%Q) in
  match fst res with
  | None => snd res = (-1)%Q /\
            forall r, In r recipes -> elig r = true -> (recipe_score inventory r <= -1)%Q
  | Some b => snd res = recipe_score inventory b /\ elig b = true /\
      exists pre post, recipes = pre ++ b :: post /\
        (forall r, In r pre -> elig r = true -> (recipe_score inventory r < recipe_score inventory b)%Q) /\
        (forall r, In r post -> elig r = true -> (recipe_score inventory r <= recipe_score inventory b)%Q)
  end.
Proof.
  cbv zeta. induction recipes as [|x l IH] using rev_ind.
  - simpl. split; [reflexivity|]. intros r [].
  - rewrite fold_left_app. cbn [fold_left].
    destruct (fold_left _ l (None, (-1)%Q)) as [best bs] eqn:Ef. simpl in IH.
    destruct (existsb (String.eqb (r_name x)) exclude) eqn:Ex.
    + destruct best as [b|]; simpl.
      * destruct IH as [Hbs [Hb [pre [post [Hl [Hpre Hpost]]]]]].
        split; [exact Hbs|]. split; [exact Hb|]. exists pre, (post ++ [x]). split.
        { rewrite Hl, <- app_assoc. reflexivity. }
        split; [exact Hpre|]. intros r Hr Hel. apply in_app_iff in Hr. destruct Hr as [Hr|[<-|[]]].
        -- exact (Hpost r Hr Hel).
        -- rewrite Ex in Hel. discriminate.
      * destruct IH as [Hbs Hall]. split; [exact Hbs|].
        intros r Hr Hel. apply in_app_iff in Hr. destruct Hr as [Hr|[<-|[]]].
        -- exact (Hall r Hr Hel).
        -- rewrite Ex in Hel. discriminate.
    + cbv zeta. destruct (Qltb bs (recipe_score inventory x)) eqn:Elt.
      * apply MarketFacts.Qltb_true in Elt. simpl.
        split; [reflexivity|]. split; [rewrite Ex; reflexivity|]. exists l, []. split; [reflexivity|].
        split; [|intros r []].
        destruct best as [b|].
        -- destruct IH as [Hbs [Hb [pre [post [Hl [Hpre Hpost]]]]]].
           intros r Hr Hel. rewrite Hl in Hr. apply in_app_iff in Hr.
           destruct Hr as [Hr|[<-|Hr]].
           ++ specialize (Hpre r Hr Hel). rewrite Hbs in Elt. lra.
           ++ rewrite Hbs in Elt. exact Elt.
           ++ specialize (Hpost r Hr Hel). rewrite Hbs in Elt. lra.
        -- destruct IH as [Hbs Hall]. intros r Hr Hel. specialize (Hall r Hr Hel).
           rewrite Hbs in Elt. lra.
      * apply MarketFacts.Qltb_false in Elt. simpl.
        destruct best as [b|].
        -- destruct IH as [Hbs [Hb [pre [post [Hl [Hpre Hpost]]]]]].
           split; [exact Hbs|]. split; [exact Hb|]. exists pre, (post ++ [x]). split.
           { rewrite Hl, <- app_assoc. reflexivity. }
           split; [exact Hpre|]. intros r Hr Hel. apply in_app_iff in Hr. destruct Hr as [Hr|[<-|[]]].
           ++ exact (Hpost r Hr Hel).
           ++ rewrite Hbs in Elt. exact Elt.
        -- destruct IH as [Hbs Hall]. split; [exact Hbs|].
           intros r Hr Hel. apply in_app_iff in Hr. destruct Hr as [Hr|[<-|[]]].
           ++ exact (Hall r Hr Hel).
           ++ rewrite Hbs in Elt. exact Elt.
Qed.


Lemma ranking_score_pos least_wanted :
  Forall (fun p => 0 < snd p) (ranking_score least_wanted).
Proof.
  unfold ranking_score.
  assert (G : forall l d i, Forall (fun p => 0 < snd p) d ->
            i + Z.of_nat (List.length l) = Z.of_nat (List.length least_wanted) ->
            Forall (fun p => 0 < snd p)
              (fst (fold_left (fun '(d, i) ing =>
                      (Dict.set d ing (Z.of_nat (List.length least_wanted) - i), i + 1)) l (d, i)))).
  { induction l as [|x l IH]; intros d i Hd Hi; [exact Hd|]. cbn [fold_left].
    apply IH; [|simpl in Hi; lia].
    apply (MissingFacts.Dict_set_forall (fun v => 0 < v)); [exact Hd|]. simpl in Hi. lia. }
  apply G; [constructor|lia].
Qed.

Lemma dish_score_nonneg rs dish :
  Forall (fun p => 0 < snd p) rs -> 0 <= dish_score rs dish.
Proof.
  intros Hrs. unfold dish_score.
  assert (G : forall l a, 0 <= a -> 0 <= fold_left (fun a ing => a + Dict.get rs ing 0) l a).
  { induction l as [|x l IH]; intros a Ha; [exact Ha|]. cbn [fold_left]. apply IH.
    assert (0 <= Dict.get rs x 0).
    { apply StrategyFacts.Dict_get_nonneg. eapply Forall_impl; [|exact Hrs]. intros p; simpl; lia. }
    lia. }
  apply G. lia.
Qed.

Lemma select_best_piatto_core piatti least_wanted :
  let rs := ranking_score least_wanted in
  match _select_best_piatto piatti least_wanted with
  | None => piatti = [] \/ least_wanted = []
  | Some d => In d piatti /\
      forall d', In d' piatti ->
        dish_score rs d' <= dish_score rs d /\
        (dish_score rs d' = dish_score rs d -> r_prestige d' <= r_prestige d)
  end.
Proof.
  cbv zeta. unfold _select_best_piatto.
  destruct piatti as [|p0 ps]; [now left|]. destruct least_wanted as [|w ws]; [now right|].
  set (lw := w :: ws). set (rs := ranking_score lw).
  assert (Hpos : forall d, 0 <= dish_score rs d).
  { intros d. apply dish_score_nonneg. apply ranking_score_pos. }
  cbv beta iota zeta.
  match goal with |- context [fold_left ?f _ (None, -1)] => set (step := f) end.
  assert (G : forall l,
    match fold_left step l (None, -1) with
    | (None, bs) => l = [] /\ bs = -1
    | (Some b, bs) => bs = dish_score rs b /\ In b l /\
        forall d', In d' l -> dish_score rs d' <= dish_score rs b /\
          (dish_score rs d' = dish_score rs b -> r_prestige d' <= r_prestige b)
    end).
  { induction l as [|x l IH] using rev_ind; [simpl; auto|].
    rewrite fold_left_app. cbn [fold_left].
    destruct (fold_left step l (None, -1)) as [[b|] bs]; unfold step at 1; cbv zeta.
    - destruct IH as [-> [Hb Hall]].
      destruct (Z.ltb_spec (dish_score rs b) (dish_score rs x)) as [Hlt|Hge]; simpl.
      + split; [reflexivity|]. split; [apply in_app_iff; right; now left|].
        intros d' Hd'. apply in_app_iff in Hd'. destruct Hd' as [Hd'|[<-|[]]]; [|lia].
        specialize (Hall d' Hd'). lia.
      + destruct (Z.eqb_spec (dish_score rs x) (dish_score rs b)) as [Heq|Hne];
          [destruct (Z.ltb_spec (r_prestige b) (r_prestige x)) as [Hp|Hp]|]; simpl.
        * split; [reflexivity|]. split; [apply in_app_iff; right; now left|].
          intros d' Hd'. apply in_app_iff in Hd'. destruct Hd' as [Hd'|[<-|[]]]; [|lia].
          specialize (Hall d' Hd'). lia.
        * split; [reflexivity|]. split; [apply in_app_iff; left; exact Hb|].
          intros d' Hd'. apply in_app_iff in Hd'. destruct Hd' as [Hd'|[<-|[]]]; [|lia].
          exact (Hall d' Hd').
        * split; [reflexivity|]. split; [apply in_app_iff; left; exact Hb|].
          intros d' Hd'. apply in_app_iff in Hd'. destruct Hd' as [Hd'|[<-|[]]]; [|lia].
          exact (Hall d' Hd').
    - destruct IH as [-> ->]. specialize (Hpos x).
      replace (-1 <? dish_score rs x) with true by (symmetry; apply Z.ltb_lt; lia). simpl.
      split; [reflexivity|]. split; [now left|]. intros d' [<-|[]]. lia. }
  specialize (G (p0 :: ps)).
  destruct (fold_left step (p0 :: ps) (None, -1)) as [[b|] bs].
  - simpl. destruct G as [_ [Hb Hall]]. split; [exact Hb|exact Hall].
  - destruct G as [G _]. discriminate.
Qed.


Lemma existsb_eqb_In x l : existsb (String.eqb x) l = true <-> In x l.
Proof.
  rewrite existsb_exists. split.
  - intros [y [Hy E]]. apply String.eqb_eq in E. subst. exact Hy.
  - intros H. exists x. split; [exact H|apply String.eqb_refl].
Qed.

Lemma count_or a A' B :
  NoDup B -> ~ In a A' ->
  List.length (filter (fun x => String.eqb x a || existsb (String.eqb x) A') B) =
  ((if existsb (String.eqb a) B then 1 else 0) +
   List.length (filter (fun x => existsb (String.eqb x) A') B))%nat.
Proof.
  intros Hnd Ha. induction B as [|b B IH]; simpl; [reflexivity|].
  inversion Hnd as [|? ? Hb Hnd']; subst.
  destruct (String.eqb_spec b a) as [->|Hba].
  - rewrite String.eqb_refl. simpl.
    replace (existsb (String.eqb a) A') with false
      by (symmetry; apply not_true_iff_false; rewrite existsb_eqb_In; exact Ha).
    simpl. f_equal.
    apply f_equal. apply filter_ext_in. intros x Hx.
    destruct (String.eqb_spec x a); [subst; contradiction|reflexivity].
  - rewrite (String.eqb_sym a b). replace (String.eqb b a) with false by (symmetry; apply String.eqb_neq; exact Hba).
    simpl. destruct (existsb (String.eqb b) A'); simpl; rewrite IH by exact Hnd'; [|reflexivity].
    destruct (existsb (String.eqb a) B); simpl; lia.
Qed.

Lemma inter_sym A B :
  NoDup A -> NoDup B ->
  List.length (filter (fun x => existsb (String.eqb x) B) A) =
  List.length (filter (fun x => existsb (String.eqb x) A) B).
Proof.
  intros HA HB. induction A as [|a A' IH].
  - simpl. induction B as [|b B IHB]; simpl; [reflexivity|]. apply IHB. inversion HB; assumption.
  - inversion HA as [|? ? Ha HA']; subst.
    transitivity (List.length (filter (fun x => String.eqb x a || existsb (String.eqb x) A') B));
      [|reflexivity].
    rewrite (count_or a A' B HB Ha). cbn [filter].
    destruct (existsb (String.eqb a) B); simpl; rewrite IH by exact HA'; reflexivity.
Qed.

Lemma filter_length_split {A} (f : A -> bool) l :
  (List.length (filter f l) + List.length (filter (fun x => negb (f x)) l) = List.length l)%nat.
Proof. induction l as [|x l IH]; simpl; [reflexivity|]. destruct (f x); simpl; lia. Qed.

Lemma overlap_score_props a b :
  _overlap_score a b = _overlap_score b a /\ (0 <= _overlap_score a b <= 1)%Q.
Proof.
  unfold _overlap_score.
  set (A := nodup string_dec (map fst (r_ingredients a))).
  set (B := nodup string_dec (map fst (r_ingredients b))).
  assert (HA : NoDup A) by apply NoDup_nodup.
  assert (HB : NoDup B) by apply NoDup_nodup.
  pose proof (inter_sym A B HA HB) as Hsym.
  pose proof (filter_length_split (fun x => existsb (String.eqb x) A) B) as HsB.
  pose proof (filter_length_split (fun x => existsb (String.eqb x) B) A) as HsA.
  assert (Hu : List.length (A ++ filter (fun x => negb (existsb (String.eqb x) A)) B) =
               List.length (B ++ filter (fun x => negb (existsb (String.eqb x) B)) A)).
  { rewrite !length_app. lia. }
  destruct A as [|x A'] eqn:EA; destruct B as [|y B'] eqn:EB.
  - split; [reflexivity|lra].
  - split; [reflexivity|lra].
  - split; [reflexivity|lra].
  - rewrite <- EA, <- EB in *. split.
    + rewrite Hu, Hsym. reflexivity.
    + set (i := List.length (filter (fun x0 => existsb (String.eqb x0) B) A)).
      set (u := List.length (A ++ filter (fun x0 => negb (existsb (String.eqb x0) A)) B)).
      assert (Hiu : (i <= u)%nat) by (unfold i, u; rewrite length_app; lia).
      assert (Hu0 : (0 < u)%nat) by (unfold u; rewrite length_app, EA; simpl; lia).
      assert (Hq : (0 < inject_Z (Z.of_nat u))%Q) by (unfold Qlt; simpl; lia).
      split.
      * apply Qle_shift_div_l; [exact Hq|]. rewrite Qmult_0_l. unfold Qle; simpl; lia.
      * apply Qle_shift_div_r; [exact Hq|]. rewrite Qmult_1_l. unfold Qle; simpl; lia.
Qed.

End PickFacts.

Module TargetFacts.
Import Strategy MissingFacts PlanFacts.

Lemma Dict_get_pos_mem (d : Dict.t Z) k :
  Forall (fun p => 0 < snd p) d -> (0 < Dict.get d k 0 <-> Dict.mem d k = true).
Proof.
  induction d as [|[k0 v0] d IH]; intros Hd; simpl; [split; [lia|discriminate]|].
  inversion Hd as [|? ? Hv Hd']; subst. simpl in Hv.
  destruct (String.eqb k k0); [split; [reflexivity|lia]|exact (IH Hd')].
Qed.

Lemma focus_fold_spec inventory ct l : forall (q0 : Dict.t Z) fi0,
  map fst q0 = fi0 -> (forall x, In x fi0 -> ~ In x (map fst l)) -> NoDup (map fst l) ->
  Forall (fun p => 0 < snd p) q0 ->
  let '(q, fi) := fold_left (focus_step inventory ct) l (q0, fi0) in
  map fst q = fi /\ Forall (fun p => 0 < snd p) q /\
  fi = fi0 ++ map fst (filter (fun p => Dict.get inventory (fst p) 0 <? snd p * ct) l).
Proof.
  induction l as [|[k v] l IH]; intros q0 fi0 Hk Hdis Hnd Hpos; cbn [fold_left].
  - simpl. rewrite app_nil_r. auto.
  - simpl in Hnd. apply NoDup_cons_iff in Hnd. destruct Hnd as [Hn Hnd'].
    unfold focus_step at 2. cbv zeta.
    assert (Hkq : ~ In k (map fst q0)) by (rewrite Hk; intros Hin; exact (Hdis k Hin (or_introl eq_refl))).
    destruct (Z.ltb_spec 0 (Z.max 0 (v * ct - Dict.get inventory k 0))) as [Hlt|Hge];
    destruct (Z.ltb_spec (Dict.get inventory k 0) (v * ct)); try lia.
    + specialize (IH (Dict.set q0 k (Z.max 0 (v * ct - Dict.get inventory k 0))) (fi0 ++ [k])).
      destruct (fold_left _ l _) as [q fi].
      destruct IH as [H1 [H2 H3]].
      * rewrite Dict_set_notin by exact Hkq. rewrite map_app, Hk. reflexivity.
      * intros x Hx. apply in_app_iff in Hx. destruct Hx as [Hx|[<-|[]]]; [|exact Hn].
        intros Hin. exact (Hdis x Hx (or_intror Hin)).
      * exact Hnd'.
      * apply (Dict_set_forall (fun v => 0 < v)); [exact Hpos|exact Hlt].
      * split; [exact H1|]. split; [exact H2|]. rewrite H3, <- app_assoc. simpl.
        replace (Dict.get inventory k 0 <? v * ct) with true by (symmetry; apply Z.ltb_lt; lia).
        reflexivity.
    + specialize (IH q0 fi0 Hk).
      destruct (fold_left _ l _) as [q fi].
      destruct IH as [H1 [H2 H3]]; [|exact Hnd'|exact Hpos|].
      * intros x Hx Hin. exact (Hdis x Hx (or_intror Hin)).
      * split; [exact H1|]. split; [exact H2|]. rewrite H3. simpl.
        replace (Dict.get inventory k 0 <? v * ct) with false by (symmetry; apply Z.ltb_ge; lia).
        reflexivity.
Qed.

Lemma backup_fold_spec inventory bc fi l : forall (q0 : Dict.t Z) bi0,
  map fst q0 = fi ++ bi0 -> (forall x, In x bi0 -> ~ In x (map fst l)) -> NoDup (map fst l) ->
  Forall (fun p => 0 < snd p) q0 ->
  let '(q, bi) := fold_left (backup_step inventory bc fi) l (q0, bi0) in
  map fst q = fi ++ bi /\ Forall (fun p => 0 < snd p) q.
Proof.
  induction l as [|[k v] l IH]; intros q0 bi0 Hk Hdis Hnd Hpos; cbn [fold_left]; [auto|].
  simpl in Hnd. apply NoDup_cons_iff in Hnd. destruct Hnd as [Hn Hnd'].
  unfold backup_step at 2. cbv zeta.
  assert (Hq0 : 0 <= Dict.get q0 k 0).
  { apply StrategyFacts.Dict_get_nonneg. eapply Forall_impl; [|exact Hpos]. intros p; simpl; lia. }
  destruct (Z.ltb_spec 0 (Z.max 0 (v * bc - Dict.get inventory k 0 - Dict.get q0 k 0))) as [Hlt|Hge].
  - assert (Hbi : ~ In k bi0) by (intros Hin; exact (Hdis k Hin (or_introl eq_refl))).
    destruct (existsb (String.eqb k) fi) eqn:Ef.
    + apply PickFacts.existsb_eqb_In in Ef.
      specialize (IH (Dict.set q0 k (Dict.get q0 k 0 + Z.max 0 (v * bc - Dict.get inventory k 0 - Dict.get q0 k 0))) bi0).
      destruct (fold_left _ l _) as [q bi]. apply IH.
      * rewrite Dict_keys_set.
        replace (Dict.mem q0 k) with true; [exact Hk|].
        symmetry. destruct (Dict.mem q0 k) eqn:Em; [reflexivity|].
        exfalso. apply (Dict_mem_false_notin q0 k Em). rewrite Hk. apply in_app_iff. now left.
      * intros x Hx Hin. exact (Hdis x Hx (or_intror Hin)).
      * exact Hnd'.
      * apply (Dict_set_forall (fun v => 0 < v)); [exact Hpos|lia].
    + assert (Hfi : ~ In k fi) by (intros Hin; apply PickFacts.existsb_eqb_In in Hin; congruence).
      specialize (IH (Dict.set q0 k (Dict.get q0 k 0 + Z.max 0 (v * bc - Dict.get inventory k 0 - Dict.get q0 k 0))) (bi0 ++ [k])).
      destruct (fold_left _ l _) as [q bi]. apply IH.
      * rewrite Dict_set_notin.
        -- rewrite map_app, Hk, <- app_assoc. reflexivity.
        -- rewrite Hk. intros Hin. apply in_app_iff in Hin. tauto.
      * intros x Hx. apply in_app_iff in Hx. destruct Hx as [Hx|[<-|[]]]; [|exact Hn].
        intros Hin. exact (Hdis x Hx (or_intror Hin)).
      * exact Hnd'.
      * apply (Dict_set_forall (fun v => 0 < v)); [exact Hpos|lia].
  - specialize (IH q0 bi0 Hk). destruct (fold_left _ l _) as [q bi].
    apply IH; [|exact Hnd'|exact Hpos]. intros x Hx Hin. exact (Hdis x Hx (or_intror Hin)).
Qed.

Lemma focus_fold_spec_st inventory ct l st :
  map fst (fst st) = snd st -> (forall x, In x (snd st) -> ~ In x (map fst l)) -> NoDup (map fst l) ->
  Forall (fun p => 0 < snd p) (fst st) ->
  let '(q, fi) := fold_left (focus_step inventory ct) l st in
  map fst q = fi /\ Forall (fun p => 0 < snd p) q /\
  fi = snd st ++ map fst (filter (fun p => Dict.get inventory (fst p) 0 <? snd p * ct) l).
Proof. destruct st as [q0 fi0]. apply focus_fold_spec. Qed.

Lemma backup_fold_spec_st inventory bc fi l st :
  map fst (fst st) = fi ++ snd st -> (forall x, In x (snd st) -> ~ In x (map fst l)) ->
  NoDup (map fst l) -> Forall (fun p => 0 < snd p) (fst st) ->
  let '(q, bi) := fold_left (backup_step inventory bc fi) l st in
  map fst q = fi ++ bi /\ Forall (fun p => 0 < snd p) q.
Proof. destruct st as [q0 bi0]. apply backup_fold_spec. Qed.

Lemma Dict_In_keys_mem {V} (d : Dict.t V) k : In k (map fst d) -> Dict.mem d k = true.
Proof.
  intros H. apply in_map_iff in H. destruct H as [[k' v] [E Hin]]. simpl in E. rewrite E in Hin.
  exact (Dict_In_mem d k v Hin).
Qed.

Lemma fold_nodup {A} (step : Dict.t Z * A -> string * Z -> Dict.t Z * A) :
  (forall st p, fst (step st p) = fst st \/ exists k v, fst (step st p) = Dict.set (fst st) k v) ->
  forall l st, NoDup (map fst (fst st)) -> NoDup (map fst (fst (fold_left step l st))).
Proof.
  intros Hstep l. induction l as [|p l IH]; intros st Hst; [exact Hst|]. cbn [fold_left].
  unfold Dict.t in *.
  apply IH. destruct (Hstep st p) as [E|[k [v E]]]; rewrite E; [exact Hst|].
  apply Dict_set_nodup. exact Hst.
Qed.

Lemma focus_step_keys inventory ct st p :
  fst (focus_step inventory ct st p) = fst st \/
  exists k v, fst (focus_step inventory ct st p) = Dict.set (fst st) k v.
Proof.
  destruct st as [q fi], p as [k v]. unfold focus_step. cbv zeta.
  destruct (0 <? _); [right; eexists; eexists; reflexivity|left; reflexivity].
Qed.

Lemma backup_step_keys inventory bc fi st p :
  fst (backup_step inventory bc fi st p) = fst st \/
  exists k v, fst (backup_step inventory bc fi st p) = Dict.set (fst st) k v.
Proof.
  destruct st as [q bi], p as [k v]. unfold backup_step. cbv zeta.
  destruct (0 <? _); [right; eexists; eexists; reflexivity|left; reflexivity].
Qed.

Lemma biq_targets_core focus backup inventory copies_target :
  NoDup (map fst focus) ->
  (forall b, backup = Some b -> NoDup (map fst b)) ->
  let '(quantities, target_ings, primary_count) :=
    build_ingredient_quantities focus backup inventory copies_target in
  NoDup target_ings /\
  (forall ing, In ing target_ings <-> 0 < Dict.get quantities ing 0) /\
  firstn primary_count target_ings =
    map fst (filter (fun p => Dict.get inventory (fst p) 0 <? snd p * copies_target) focus).
Proof.
  intros Hf Hb. unfold build_ingredient_quantities.
  match goal with |- context [fold_left (focus_step ?i ?c) ?l ?st] =>
    pose proof (focus_fold_spec_st i c l st eq_refl
                  (fun x H => match H with end) Hf (Forall_nil _)) as HF;
    pose proof (fold_nodup _ (focus_step_keys i c) l st (NoDup_nil _)) as HN1;
    revert HF HN1; destruct (fold_left (focus_step i c) l st) as [q1 fi] eqn:E1; intros HF HN1
  end.
  simpl in HF. destruct HF as [Hk1 [Hp1 Hfi]]. simpl in Hfi, HN1.
  assert (Hfin : forall q bi, map fst q = fi ++ bi -> Forall (fun p => 0 < snd p) q ->
    NoDup (map fst q) ->
    NoDup (fi ++ bi) /\ (forall ing, In ing (fi ++ bi) <-> 0 < Dict.get q ing 0) /\
    firstn (List.length fi) (fi ++ bi) =
      map fst (filter (fun p => Dict.get inventory (fst p) 0 <? snd p * copies_target) focus)).
  { intros q bi Hk Hp Hn. split; [|split].
    - rewrite <- Hk. exact Hn.
    - intros ing. rewrite (Dict_get_pos_mem q ing Hp), <- Hk. split.
      + apply Dict_In_keys_mem.
      + intros Hm. apply Dict_mem_In. exact Hm.
    - rewrite firstn_app, Nat.sub_diag, firstn_all. simpl. rewrite app_nil_r. exact Hfi. }
  cbv beta iota zeta.
  destruct backup as [b|].
  - match goal with |- context [fold_left (backup_step ?i ?c ?f) b ?st] =>
      pose proof (backup_fold_spec_st i c f b st
                    (eq_trans Hk1 (eq_sym (app_nil_r fi))) (fun x H => match H with end)
                    (Hb b eq_refl) Hp1) as HB;
      pose proof (fold_nodup _ (backup_step_keys i c f) b st HN1) as HN2;
      revert HB HN2; destruct (fold_left (backup_step i c f) b st) as [q bi] eqn:E2; intros HB HN2
    end.
    simpl in HB. simpl in HN2.
    destruct HB as [Hk Hp]. exact (Hfin q bi Hk Hp HN2).
  - apply (Hfin q1 []); [rewrite app_nil_r; exact Hk1|exact Hp1|exact HN1].
Qed.

End TargetFacts.

Module PlanMore.
Import Bid MarketPlan Measures PlanFacts.

Lemma alloc_iteration_again ings vinv tb v t :
  NoDup (map fst ings) -> ings <> [] -> (forall p, In p ings -> 0 < snd p) ->
  (forall k, 0 <= Dict.get vinv k 0) ->
  alloc_iteration ings vinv tb = Again v t ->
  (forall k, Dict.mem v k = Dict.mem vinv k) /\
  (forall k, 0 <= Dict.get v k 0 <= Dict.get vinv k 0) /\
  stock ings v < stock ings vinv.
Proof.
  intros Hnd Hne Hpos Hnn.
  unfold alloc_iteration. cbv zeta.
  rewrite (missing_for_one_eq ings vinv Hnd).
  set (F := filter (fun p => Dict.get vinv (fst p) 0 <? snd p) ings) in *.
  assert (HinF : forall p, In p ings -> Dict.get vinv (fst p) 0 < snd p -> In p F).
  { intros p Hp Hlt. apply filter_In. split; [exact Hp|]. now apply Z.ltb_lt. }
  assert (Hget : forall p, In p ings -> Dict.get ings (fst p) 0 = snd p).
  { intros [k q] Hp. exact (Dict_get_In ings k q Hnd Hp). }
  assert (Hmem : forall p, In p ings -> Dict.mem ings (fst p) = true).
  { intros [k q] Hp. exact (Dict_In_mem ings k q Hp). }
  assert (Hkey : forall k, Dict.mem ings k = true -> exists q, In (k, q) ings).
  { intros k Hk. apply Dict_mem_In in Hk. apply in_map_iff in Hk.
    destruct Hk as [[k' q] [Hk' Hin]]. simpl in Hk'. subst. exists q. exact Hin. }
  destruct (sum_values _ =? 0) eqn:E0.
  - apply Z.eqb_eq in E0. apply sum_values_pos_nil in E0; [|apply missing_in_pos].
    apply map_eq_nil in E0.
    assert (Hge : forall p, In p ings -> snd p <= Dict.get vinv (fst p) 0).
    { intros p Hp. destruct (Z_lt_le_dec (Dict.get vinv (fst p) 0) (snd p)) as [Hlt|]; [|lia].
      specialize (HinF p Hp Hlt). rewrite E0 in HinF. destruct HinF. }
    destruct (allocate_all_present ings vinv Hnd) as [v' [-> [Hm Hg]]].
    { intros p Hp. apply Dict_get_nonzero_mem. specialize (Hge p Hp). specialize (Hpos p Hp). lia. }
    intros H. injection H as <- <-. split; [exact Hm|]. split.
    + intros k. rewrite Hg. destruct (Dict.mem ings k) eqn:Ek; [|specialize (Hnn k); lia].
      destruct (Hkey k Ek) as [q Hq]. specialize (Hge _ Hq). specialize (Hget _ Hq).
      specialize (Hpos _ Hq). simpl in *. lia.
    + apply stock_lt.
      * intros p Hp. rewrite Hg, (Hmem p Hp), (Hget p Hp). specialize (Hpos p Hp). lia.
      * destruct ings as [|p ings']; [contradiction|]. exists p. split; [now left|].
        rewrite Hg, (Hmem p (or_introl eq_refl)), (Hget p (or_introl eq_refl)).
        specialize (Hpos p (or_introl eq_refl)). lia.
  - destruct ((List.length _ =? 1)%nat && _) eqn:E1; [|discriminate].
    apply andb_true_iff in E1. destruct E1 as [_ Hcov]. apply Z.ltb_lt in Hcov.
    destruct (map _ F) as [|[mi mq] rest] eqn:Em; [discriminate|]. rewrite <- Em in Hcov.
    destruct (all_or_absent ings vinv) as [Hall|Habs].
    2:{ rewrite (allocate_clamped_absent ings vinv Habs). discriminate. }
    destruct (allocate_clamped_present ings vinv Hnd Hall) as [v' [-> [Hm Hg]]].
    intros H. injection H as <- _. split; [exact Hm|]. split.
    + intros k. rewrite Hg. specialize (Hnn k).
      destruct (Dict.mem ings k) eqn:Ek; [|lia].
      destruct (Hkey k Ek) as [q Hq]. specialize (Hpos _ Hq). specialize (Hget _ Hq). simpl in *. lia.
    + apply stock_lt.
      * intros p Hp. rewrite Hg, (Hmem p Hp), (Hget p Hp).
        specialize (Hpos p Hp). specialize (Hnn (fst p)). lia.
      * destruct (existsb (fun p => negb (Dict.get vinv (fst p) 0 =? 0)) ings) eqn:Ex.
        -- apply existsb_exists in Ex. destruct Ex as [p [Hp Hz]].
           apply negb_true_iff, Z.eqb_neq in Hz.
           exists p. split; [exact Hp|].
           rewrite Hg, (Hmem p Hp), (Hget p Hp).
           specialize (Hpos p Hp). specialize (Hnn (fst p)). lia.
        -- exfalso.
           assert (Hz : forall p, In p ings -> Dict.get vinv (fst p) 0 = 0).
           { intros p Hp. destruct (Dict.get vinv (fst p) 0 =? 0) eqn:Ez; [now apply Z.eqb_eq|].
             apply not_true_iff_false in Ex. exfalso. apply Ex. apply existsb_exists.
             exists p. now rewrite Ez. }
           unfold F in Hcov. rewrite (missing_sum_all_short ings vinv Hz Hpos) in Hcov. lia.
Qed.

(** The loop ends, in a [KeyError] or with an inventory that has the same
    keys and no larger, non-negative, values. *)
Lemma alloc_loop_result fuel : forall ings vinv tb,
  NoDup (map fst ings) -> ings <> [] -> (forall p, In p ings -> 0 < snd p) ->
  (forall k, 0 <= Dict.get vinv k 0) ->
  (Z.to_nat (stock ings vinv) < fuel)%nat ->
  alloc_loop fuel ings vinv tb = LoopKeyError \/
  exists v t, alloc_loop fuel ings vinv tb = LoopDone v t /\
    (forall k, Dict.mem v k = Dict.mem vinv k) /\
    (forall k, 0 <= Dict.get v k 0 <= Dict.get vinv k 0).
Proof.
  induction fuel as [|f IH]; intros ings vinv tb Hnd Hne Hpos Hnn Hfuel; [lia|].
  simpl. destruct (alloc_iteration ings vinv tb) as [|v t|] eqn:E.
  - right. exists vinv, tb. split; [reflexivity|]. split; [reflexivity|]. intros k. specialize (Hnn k). lia.
  - destruct (alloc_iteration_again ings vinv tb v t Hnd Hne Hpos Hnn E) as [Hm [Hg Hs]].
    assert (Hv : forall k, 0 <= Dict.get v k 0) by (intros k; specialize (Hg k); lia).
    pose proof (stock_nonneg ings v Hv) as Hs0.
    destruct (IH ings v t Hnd Hne Hpos Hv ltac:(lia)) as [H|[v' [t' [H [Hm' Hg']]]]];
      [left; exact H|right].
    exists v', t'. split; [exact H|]. split.
    + intros k. rewrite Hm', Hm. reflexivity.
    + intros k. specialize (Hg k). specialize (Hg' k). lia.
  - left. reflexivity.
Qed.

Lemma stock_sumk ings v : stock ings v = sumk (fun k => Dict.get v k 0) (map fst ings).
Proof. induction ings as [|p ings IH]; simpl; [reflexivity|]. rewrite IH. reflexivity. Qed.

Lemma sumk_remove g a l :
  NoDup l -> In a l -> sumk g l = g a + sumk g (remove string_dec a l).
Proof.
  induction l as [|x l IH]; intros Hnd Hin; [destruct Hin|].
  inversion Hnd as [|? ? Hx Hnd']; subst. simpl.
  destruct (string_dec a x) as [->|Hne].
  - rewrite notin_remove by exact Hx. reflexivity.
  - destruct Hin as [->|Hin]; [congruence|]. simpl. rewrite (IH Hnd' Hin). lia.
Qed.

Lemma NoDup_remove_str a l : NoDup l -> NoDup (remove string_dec a l).
Proof.
  induction l as [|x l IH]; intros Hnd; simpl; [constructor|].
  inversion Hnd as [|? ? Hx Hnd']; subst.
  destruct (string_dec a x); [exact (IH Hnd')|].
  constructor; [|exact (IH Hnd')]. intros Hin. apply in_remove in Hin. tauto.
Qed.

Lemma sumk_nonneg g l : (forall k, 0 <= g k) -> 0 <= sumk g l.
Proof. intros H. induction l as [|x l IH]; simpl; [lia|]. specialize (H x). lia. Qed.

Lemma sumk_sub g : forall A B, NoDup A -> NoDup B -> (forall k, 0 <= g k) ->
  (forall k, In k A -> g k <> 0 -> In k B) -> sumk g A <= sumk g B.
Proof.
  induction A as [|a A IH]; intros B HA HB Hg Hsub; simpl.
  - apply sumk_nonneg. exact Hg.
  - inversion HA as [|? ? Ha HA']; subst.
    destruct (Z.eq_dec (g a) 0) as [Hz|Hz].
    + rewrite Hz. simpl. apply IH; auto. intros k Hk. apply Hsub. now right.
    + assert (HaB : In a B) by (apply Hsub; [now left|exact Hz]).
      rewrite (sumk_remove g a B HB HaB).
      enough (sumk g A <= sumk g (remove string_dec a B)) by lia.
      apply IH; auto.
      * apply NoDup_remove_str. exact HB.
      * intros k Hk Hgk. apply in_in_remove; [intros ->; contradiction|].
        apply Hsub; [now right|exact Hgk].
Qed.

Lemma stock_sub ings inventory v :
  NoDup (map fst ings) -> NoDup (map fst inventory) ->
  (forall k, 0 <= Dict.get v k 0) -> (forall k, Dict.mem v k = Dict.mem inventory k) ->
  stock ings v <= stock inventory v.
Proof.
  intros H1 H2 Hnn Hm. rewrite !stock_sumk. apply sumk_sub; auto.
  intros k _ Hk. apply Dict_mem_In. rewrite <- Hm. apply Dict_get_nonzero_mem. exact Hk.
Qed.

Lemma insert_by_prestige_In r l x : In x (insert_by_prestige r l) <-> x = r \/ In x l.
Proof.
  induction l as [|y l IH]; simpl; [intuition congruence|].
  destruct (r_prestige y <? r_prestige r); simpl; [intuition congruence|].
  rewrite IH. intuition congruence.
Qed.

Lemma sort_by_prestige_In l x : In x (sort_by_prestige_desc l) <-> In x l.
Proof.
  unfold sort_by_prestige_desc.
  assert (G : forall acc, In x (fold_left (fun acc r => insert_by_prestige r acc) l acc) <->
                          In x l \/ In x acc).
  { induction l as [|y l IH]; intros acc; simpl; [tauto|].
    rewrite IH, insert_by_prestige_In. intuition congruence. }
  rewrite G. simpl. tauto.
Qed.

Section PlanRun.
Variable inventory : Dict.t Z.
Variable fuel : nat.
Hypothesis Hinv_nd : NoDup (map fst inventory).
Hypothesis Hinv_nn : Forall (fun p => 0 <= snd p) inventory.
Hypothesis Hfuel : (Z.to_nat (stock inventory inventory) < fuel)%nat.

Lemma plan_fold_ok rs : forall acc,
  (forall r, In r rs -> NoDup (map fst (r_ingredients r)) /\
                        (forall p, In p (r_ingredients r) -> 0 < snd p)) ->
  plan_ok inventory acc -> plan_ok inventory (fold_left (plan_step fuel) rs acc).
Proof.
  induction rs as [|r rs IH]; intros acc Hrs Hacc; simpl; [exact Hacc|].
  apply IH; [intros r' Hr'; apply Hrs; now right|].
  destruct (Hrs r (or_introl eq_refl)) as [Hnd Hpos].
  destruct Hacc as [->|[v [t [-> [Hm Hg]]]]]; [left; reflexivity|].
  unfold plan_step.
  destruct (r_ingredients r) as [|p ps] eqn:Er.
  - right. exists v, t. auto.
  - assert (Hv : forall k, 0 <= Dict.get v k 0) by (intros k; specialize (Hg k); lia).
    assert (Hst : stock (p :: ps) v <= stock inventory inventory).
    { transitivity (stock inventory v).
      - apply stock_sub; auto.
      - apply stock_le. intros q _. specialize (Hg (fst q)). lia. }
    pose proof (stock_nonneg (p :: ps) v Hv).
    destruct (alloc_loop_result fuel (p :: ps) v t Hnd ltac:(discriminate) Hpos Hv ltac:(lia))
      as [-> | [v' [t' [-> [Hm' Hg']]]]]; [left; reflexivity|].
    right. exists v', t'. split; [reflexivity|]. split.
    + intros k. rewrite Hm', Hm. reflexivity.
    + intros k. specialize (Hg k). specialize (Hg' k). lia.
Qed.

End PlanRun.

End PlanMore.

Module ExtraClaims.
Import Bid MarketPlan StrategyPick Measures PlanFacts PlanMore.

(** X1: step 1 of [run_market_agent] never hangs when the inventory has
    distinct keys and non-negative counts and every recipe lists distinct
    ingredients with positive quantities: with more iterations than the
    inventory's total stock, it either raises [KeyError] or ends with a
    virtual inventory that has the inventory's keys and, for every
    ingredient, a count between 0 and the inventory's count. *)
Theorem plan_purchases_finishes fuel simplest_recipes inventory :
  NoDup (map fst inventory) -> Forall (fun p => 0 <= snd p) inventory ->
  (forall r, In r simplest_recipes ->
     NoDup (map fst (r_ingredients r)) /\ Forall (fun p => 0 < snd p) (r_ingredients r)) ->
  (Z.to_nat (stock inventory inventory) < fuel)%nat ->
  plan_purchases fuel simplest_recipes inventory = PlanKeyError \/
  exists vinv to_buy, plan_purchases fuel simplest_recipes inventory = Planned vinv to_buy /\
    (forall k, Dict.mem vinv k = Dict.mem inventory k) /\
    (forall k, 0 <= Dict.get vinv k 0 <= Dict.get inventory k 0).
Proof.
  intros Hnd Hnn Hrs Hfuel. unfold plan_purchases.
  destruct (plan_fold_ok inventory fuel Hnd Hfuel (sort_by_prestige_desc simplest_recipes)
              (Planned inventory [])) as [H|[v [t [H [Hm Hg]]]]].
  - intros r Hr. apply (proj1 (sort_by_prestige_In _ _)) in Hr. destruct (Hrs r Hr) as [H1 H2].
    split; [exact H1|]. rewrite Forall_forall in H2. exact H2.
  - right. exists inventory, []. split; [reflexivity|]. split; [reflexivity|].
    intros k. pose proof (StrategyFacts.Dict_get_nonneg inventory k Hnn). lia.
  - left. exact H.
  - right. exists v, t. auto.
Qed.

Lemma plan_purchases_finishes_witness :
  plan_purchases 10 [mkRecipe "Pizza" 5 [("Salt", 2); ("Oil", 1)]]
    [("Salt", 3); ("Oil", 1)] = Planned [("Salt", 1); ("Oil", 0)] [] /\
  (plan_purchases 10 [mkRecipe "Pizza" 5 [("Salt", 2); ("Oil", 1)]]
    [("Salt", 3); ("Oil", 1)] = PlanKeyError \/
   exists vinv to_buy, plan_purchases 10 [mkRecipe "Pizza" 5 [("Salt", 2); ("Oil", 1)]]
    [("Salt", 3); ("Oil", 1)] = Planned vinv to_buy /\
    (forall k, Dict.mem vinv k = Dict.mem [("Salt", 3); ("Oil", 1)] k) /\
    (forall k, 0 <= Dict.get vinv k 0 <= Dict.get [("Salt", 3); ("Oil", 1)] k 0)).
Proof.
  split; [vm_compute; reflexivity|].
  apply plan_purchases_finishes.
  - repeat constructor; simpl; intuition discriminate.
  - repeat constructor; simpl; lia.
  - intros r [<-|[]]. split; [repeat constructor; simpl; intuition discriminate|].
    repeat constructor; simpl; lia.
  - vm_compute. lia.
Defined.

(** X2: step 1 of [run_market_agent] never ends for a recipe whose
    ingredients all have quantity 0 and are all in the inventory with
    non-negative counts: the [while True] loop allocates nothing and runs
    again, whatever the number of iterations. *)
Theorem plan_purchases_hangs_on_zero_quantities fuel r inventory :
  r_ingredients r <> [] ->
  (forall p, In p (r_ingredients r) -> snd p = 0) ->
  (forall p, In p (r_ingredients r) -> Dict.mem inventory (fst p) = true) ->
  (forall p, In p (r_ingredients r) -> 0 <= Dict.get inventory (fst p) 0) ->
  plan_purchases fuel [r] inventory = PlanOutOfFuel.
Proof.
  intros Hne Hz Hm Hnn.
  assert (Hloop : forall f tb, alloc_loop f (r_ingredients r) inventory tb = OutOfFuel).
  { induction f as [|f IH]; intros tb; [reflexivity|]. simpl.
    rewrite (alloc_iteration_zero (r_ingredients r) inventory tb Hz Hm Hnn). apply IH. }
  unfold plan_purchases. simpl. unfold plan_step.
  destruct (r_ingredients r) as [|p ps] eqn:Er; [contradiction|].
  rewrite Hloop. reflexivity.
Qed.

Lemma plan_purchases_hangs_on_zero_quantities_witness :
  plan_purchases 7 [mkRecipe "Water" 1 [("Ice", 0)]] [("Ice", 4)] = PlanOutOfFuel.
Proof.
  apply plan_purchases_hangs_on_zero_quantities.
  - discriminate.
  - intros p [<-|[]]. reflexivity.
  - intros p [<-|[]]. reflexivity.
  - intros p [<-|[]]. simpl. lia.
Defined.

(** X3: step 1 of [run_market_agent] raises [KeyError] when a recipe
    lacks exactly one of its ingredients, that ingredient has no key in the
    inventory dict, and the recipe has another ingredient, all of which are
    covered: the loop takes the "one ingredient short" branch and runs
    [virtual_inv[ing] -= req_qty] on the absent key. *)
Theorem plan_purchases_keyerror_on_absent_ingredient fuel r inventory m q :
  NoDup (map fst (r_ingredients r)) ->
  (forall p, In p (r_ingredients r) -> 0 < snd p) ->
  In (m, q) (r_ingredients r) -> Dict.mem inventory m = false ->
  (forall k x, In (k, x) (r_ingredients r) -> k <> m -> x <= Dict.get inventory k 0) ->
  (exists k x, In (k, x) (r_ingredients r) /\ k <> m) ->
  plan_purchases (S fuel) [r] inventory = PlanKeyError.
Proof.
  intros Hnd Hpos Hin Hm Hcov Hex.
  unfold plan_purchases. simpl. unfold plan_step.
  pose proof (alloc_iteration_keyerror (r_ingredients r) inventory [] m q
                Hnd Hpos Hin Hm Hcov Hex) as Hk.
  destruct (r_ingredients r) as [|p ps] eqn:Er; [destruct Hin|].
  rewrite Hk. reflexivity.
Qed.

Lemma plan_purchases_keyerror_on_absent_ingredient_witness :
  plan_purchases 1 [mkRecipe "Pizza" 5 [("Salt", 2); ("Oil", 1)]] [("Salt", 3)] = PlanKeyError.
Proof.
  apply (plan_purchases_keyerror_on_absent_ingredient 0 _ _ "Oil" 1).
  - repeat constructor; simpl; intuition discriminate.
  - intros p [<-|[<-|[]]]; simpl; lia.
  - right. left. reflexivity.
  - reflexivity.
  - intros k x [E|[E|[]]] Hk; injection E as <- <-; [simpl; lia|contradiction].
  - exists "Salt", 2. split; [now left|discriminate].
Defined.

(** X4: the orders [sell_surplus] places for [surplus] (computed from the
    virtual inventory) are one per ingredient with a positive count, in the
    dict's order, each for that ingredient's whole count, at a unit price of
    at least 1. *)
Theorem sell_orders_of_surplus vinv purchased_inv :
  let os := sell_orders (surplus vinv) purchased_inv in
  map (fun o => (s_ingredient o, s_quantity o)) os = filter (fun p => 0 <? snd p) vinv /\
  Forall (fun o => 0 < s_quantity o /\ (1 <= s_price o)%Q) os.
Proof.
  cbv zeta. unfold sell_orders, surplus. split.
  - rewrite map_map. rewrite <- (map_id (filter _ vinv)) at 2. apply map_ext.
    intros [ing qty]. reflexivity.
  - apply Forall_map. apply Forall_forall. intros [ing qty] Hin.
    apply filter_In in Hin. destruct Hin as [_ Hq]. apply Z.ltb_lt in Hq.
    simpl. split; [exact Hq|apply sell_price_ge1].
Qed.

(** X5: the unit price [sell_surplus] asks is [SELL_PRICE = 25] when the
    recorded cost of the ingredient is absent or not positive, and for a
    recorded integer cost [c >= 1] it lies between [c] and [c * 1.05]. *)
Theorem sell_price_from_cost purchased_inv ing :
  ((Dict.get purchased_inv ing 0 <= 0)%Q -> sell_price purchased_inv ing = SELL_PRICE) /\
  (forall c, 1 <= c -> Dict.get purchased_inv ing 0%Q = inject_Z c ->
     (inject_Z c <= sell_price purchased_inv ing <= inject_Z c * (105 # 100))%Q).
Proof.
  split; [apply sell_price_nonpos|]. intros c Hc Hg. exact (sell_price_int purchased_inv ing c Hc Hg).
Qed.

(** X6: [compute_missing] in [hackapizza/market_agent.py] gives each
    ingredient the largest shortfall [qty_per_copy * copies_target - have]
    over the target recipes that list it, and 0 (no key) when that maximum
    is not positive; the recipes' ingredient dicts have distinct keys. *)
Theorem market_compute_missing_max target_recipes inventory copies_target :
  (forall r, In r target_recipes -> NoDup (map fst r)) ->
  forall ing,
  Dict.get (Market.compute_missing target_recipes inventory copies_target) ing 0 =
  fold_left (fun acc r =>
               if Dict.mem r ing
               then Z.max acc (Dict.get r ing 0 * copies_target - Dict.get inventory ing 0)
               else acc) target_recipes 0.
Proof. exact (MissingFacts.market_compute_missing_get target_recipes inventory copies_target). Qed.

Lemma market_compute_missing_max_witness :
  Dict.get (Market.compute_missing [[("Salt", 5); ("Pepper", 1)]; [("Salt", 4)]]
              [("Salt", 2)] 1) "Salt" 0 = 3.
Proof.
  rewrite (market_compute_missing_max [[("Salt", 5); ("Pepper", 1)]; [("Salt", 4)]] [("Salt", 2)] 1).
  - reflexivity.
  - intros r [<-|[<-|[]]]; repeat constructor; simpl; intuition discriminate.
Defined.

(** X7: the dict [compute_missing] in [hackapizza/market_agent.py] returns
    has distinct keys and only positive quantities. *)
Theorem market_compute_missing_positive target_recipes inventory copies_target :
  let m := Market.compute_missing target_recipes inventory copies_target in
  NoDup (map fst m) /\ Forall (fun p => 0 < snd p) m.
Proof. exact (MissingFacts.market_compute_missing_shape target_recipes inventory copies_target). Qed.

(** X8: [compute_missing] in [market_agent.py] adds, for each menu name in
    turn, the shortfall [max(0, qty_needed - have)] of the recipe the name
    maps to (the last recipe with that name), skipping names with no recipe;
    so an ingredient shared by two menu recipes, or a name listed twice, is
    counted twice. The recipes' ingredient dicts have distinct keys. *)
Theorem legacy_compute_missing_sum names recipes inventory :
  (forall r, In r recipes -> NoDup (map fst (r_ingredients r))) ->
  forall ing,
  Dict.get (LegacyMissing.compute_missing names recipes inventory) ing 0 =
  fold_left (fun acc n =>
               match List.find (fun r => String.eqb (r_name r) n) (rev recipes) with
               | Some r =>
                 if Dict.mem (r_ingredients r) ing
                 then acc + Z.max 0 (Dict.get (r_ingredients r) ing 0 - Dict.get inventory ing 0)
                 else acc
               | None => acc
               end) names 0.
Proof. exact (MissingFacts.legacy_compute_missing_get names recipes inventory). Qed.

Lemma legacy_compute_missing_sum_witness :
  Dict.get (LegacyMissing.compute_missing ["A"; "B"]
              [mkRecipe "A" 1 [("Salt", 5)]; mkRecipe "B" 1 [("Salt", 4)]]
              [("Salt", 2)]) "Salt" 0 = 5.
Proof.
  rewrite (legacy_compute_missing_sum ["A"; "B"]
             [mkRecipe "A" 1 [("Salt", 5)]; mkRecipe "B" 1 [("Salt", 4)]] [("Salt", 2)]).
  - reflexivity.
  - intros r [<-|[<-|[]]]; repeat constructor; simpl; intuition discriminate.
Defined.

(** X9: [build_bids_from_quantities] bids, in the dict's order, on exactly
    the ingredients with a positive quantity, for that quantity, at the unit
    price [max(1, int(hint * 1.05))] or [DEFAULT_BID] without a hint; every
    unit price is at least 1. *)
Theorem build_bids_from_quantities_spec ingredient_quantities price_hints :
  let bids := build_bids_from_quantities ingredient_quantities price_hints in
  bids = map (fun p => mkBid (fst p) (snd p) (unit_bid price_hints (fst p)))
             (filter (fun p => 0 <? snd p) ingredient_quantities) /\
  Forall (fun b => 1 <= b_bid b) bids.
Proof.
  cbv zeta. rewrite BidMore.build_bids_from_quantities_eq. split; [reflexivity|].
  apply Forall_map. apply Forall_forall. intros p _. apply BidMore.unit_bid_ge1.
Qed.

(** X10: [build_bids_legacy] never raises; it bids on the first
    [MAX_INGREDIENTS = 20] ingredients in their order (on none when the
    balance is not positive), each for quantity 1 at a unit price of at
    least 1, and of at least [DEFAULT_BID = 20] when the ingredient has no
    price hint. *)
Theorem build_bids_legacy_spec ingredients balance primary_count price_hints :
  match build_bids_legacy ingredients balance primary_count price_hints with
  | Some bids =>
    map b_ingredient bids =
      (if Qle_bool balance 0 then [] else firstn MAX_INGREDIENTS ingredients) /\
    Forall (fun b => b_quantity b = 1 /\ 1 <= b_bid b /\
                     (hint_of price_hints (b_ingredient b) = None -> DEFAULT_BID <= b_bid b)) bids
  | None => False
  end.
Proof.
  destruct (build_bids_legacy ingredients balance primary_count price_hints) as [bids|] eqn:E.
  - exact (BidMore.legacy_bids_spec ingredients balance primary_count price_hints bids E).
  - exact (BidFacts.build_bids_legacy_some ingredients balance primary_count price_hints E).
Qed.

(** X11: [build_bids_from_recipes] never raises; its bids name distinct
    ingredients, have unit prices of at least 1 and are sorted by
    decreasing [quantity * bid]. *)
Theorem build_bids_from_recipes_spec simplest_recipes balance price_hints :
  match build_bids_from_recipes simplest_recipes balance price_hints with
  | Some bids =>
    Sorted (fun a b => b_quantity b * b_bid b <= b_quantity a * b_bid a) bids /\
    NoDup (map b_ingredient bids) /\ Forall (fun b => 1 <= b_bid b) bids
  | None => False
  end.
Proof.
  destruct (build_bids_from_recipes simplest_recipes balance price_hints) as [bids|] eqn:E.
  - exact (BidMore.recipe_bids_spec simplest_recipes balance price_hints bids E).
  - exact (BidFacts.build_bids_from_recipes_some simplest_recipes balance price_hints E).
Qed.

(** X12: [_add_opportunistic_bids] keeps the main bids in front and adds
    no second bid on an ingredient: when the main bids name distinct
    ingredients and the ingredient list has no duplicates, the result names
    distinct ingredients. *)
Theorem add_opportunistic_bids_distinct main_bids all_ingredients :
  NoDup (map b_ingredient main_bids) -> NoDup all_ingredients ->
  NoDup (map b_ingredient (add_opportunistic_bids main_bids all_ingredients)).
Proof. exact (BidMore.add_opportunistic_nodup main_bids all_ingredients). Qed.

Lemma add_opportunistic_bids_distinct_witness :
  map b_ingredient (add_opportunistic_bids [mkBid "Salt" 2 30] ["Salt"; "Oil"]) = ["Salt"; "Oil"] /\
  NoDup (map b_ingredient (add_opportunistic_bids [mkBid "Salt" 2 30] ["Salt"; "Oil"])).
Proof.
  split; [reflexivity|].
  apply add_opportunistic_bids_distinct; repeat constructor; simpl; intuition discriminate.
Defined.

(** X13: [_budget_scale_quantities] never raises and never changes the
    quantities: [MAX_SCALE = 1] caps the scale at 1. *)
Theorem budget_scale_quantities_unchanged ingredient_quantities copies_target balance price_hints :
  budget_scale_quantities ingredient_quantities copies_target balance price_hints =
  Some ingredient_quantities.
Proof. exact (BidClaims.budget_scale_identity ingredient_quantities copies_target balance price_hints). Qed.

(** X14: [_best_recipe_by_score] returns [None] only when every recipe
    not excluded scores at most -1 (so, with non-negative prestiges, only
    when all recipes are excluded); otherwise it returns a recipe that is
    not excluded, scores strictly more than every earlier one that is not
    excluded, and at least as much as every later one: the first recipe of
    highest score. Python's float division is taken exact. *)
Theorem best_recipe_by_score_spec recipes inventory exclude :
  match _best_recipe_by_score recipes inventory exclude with
  | None => forall r, In r recipes -> ~ In (r_name r) exclude ->
            (recipe_score inventory r <= -1)%Q
  | Some b => In b recipes /\ ~ In (r_name b) exclude /\
      exists pre post, recipes = pre ++ b :: post /\
        (forall r, In r pre -> ~ In (r_name r) exclude ->
           (recipe_score inventory r < recipe_score inventory b)%Q) /\
        (forall r, In r post -> ~ In (r_name r) exclude ->
           (recipe_score inventory r <= recipe_score inventory b)%Q)
  end.
Proof.
  pose proof (PickFacts.best_recipe_inv recipes inventory exclude) as H. cbv zeta in H.
  unfold _best_recipe_by_score.
  assert (He : forall r, negb (existsb (String.eqb (r_name r)) exclude) = true <->
                         ~ In (r_name r) exclude).
  { intros r. rewrite negb_true_iff, <- not_true_iff_false, PickFacts.existsb_eqb_In. tauto. }
  destruct (fst _) as [b|].
  - destruct H as [_ [Hb [pre [post [Hr [Hpre Hpost]]]]]].
    split; [rewrite Hr; apply in_or_app; right; now left|].
    split; [apply He; exact Hb|].
    exists pre, post. split; [exact Hr|]. split.
    + intros r Hin Hn. apply Hpre; [exact Hin|apply He; exact Hn].
    + intros r Hin Hn. apply Hpost; [exact Hin|apply He; exact Hn].
  - destruct H as [_ H]. intros r Hin Hn. apply H; [exact Hin|apply He; exact Hn].
Qed.

(** X15: [_select_best_piatto] returns [None] only when the dish list or
    the ranking is empty; otherwise it returns one of the dishes whose
    ranking score is the highest, and among those one of highest
    prestige. *)
Theorem select_best_piatto_spec piatti least_wanted :
  let rs := ranking_score least_wanted in
  match _select_best_piatto piatti least_wanted with
  | None => piatti = [] \/ least_wanted = []
  | Some d => In d piatti /\
      forall d', In d' piatti ->
        dish_score rs d' <= dish_score rs d /\
        (dish_score rs d' = dish_score rs d -> r_prestige d' <= r_prestige d)
  end.
Proof. exact (PickFacts.select_best_piatto_core piatti least_wanted). Qed.

(** X16: [_overlap_score] is symmetric and lies between 0 and 1. *)
Theorem overlap_score_bounds recipe_a recipe_b :
  _overlap_score recipe_a recipe_b = _overlap_score recipe_b recipe_a /\
  (0 <= _overlap_score recipe_a recipe_b <= 1)%Q.
Proof. exact (PickFacts.overlap_score_props recipe_a recipe_b). Qed.

(** X17: for focus and backup recipes with distinct ingredient keys,
    [build_ingredient_quantities] returns target ingredients without
    duplicates that are exactly the ingredients with a positive planned
    quantity, and its first [primary_count] targets are the focus
    ingredients short of [qty * copies_target], in the recipe's order. *)
Theorem build_ingredient_quantities_targets focus_recipe backup_recipe inventory copies_target :
  NoDup (map fst focus_recipe) ->
  (forall b, backup_recipe = Some b -> NoDup (map fst b)) ->
  let '(quantities, target_ings, primary_count) :=
    Strategy.build_ingredient_quantities focus_recipe backup_recipe inventory copies_target in
  NoDup target_ings /\
  (forall ing, In ing target_ings <-> 0 < Dict.get quantities ing 0) /\
  firstn primary_count target_ings =
    map fst (filter (fun p => Dict.get inventory (fst p) 0 <? snd p * copies_target) focus_recipe).
Proof. exact (TargetFacts.biq_targets_core focus_recipe backup_recipe inventory copies_target). Qed.

Lemma build_ingredient_quantities_targets_witness :
  let '(quantities, target_ings, primary_count) :=
    Strategy.build_ingredient_quantities [("Salt", 2); ("Oil", 1)] (Some [("Salt", 3); ("Egg", 1)])
      [("Oil", 5)] 2 in
  NoDup target_ings /\
  (forall ing, In ing target_ings <-> 0 < Dict.get quantities ing 0) /\
  firstn primary_count target_ings =
    map fst (filter (fun p => Dict.get [("Oil", 5)] (fst p) 0 <? snd p * 2) [("Salt", 2); ("Oil", 1)]).
Proof.
  apply build_ingredient_quantities_targets.
  - repeat constructor; simpl; intuition discriminate.
  - intros b Hb. injection Hb as <-. repeat constructor; simpl; intuition discriminate.
Defined.

End ExtraClaims.
